(** * MapGap: data synchronisation and map-state orchestration

    A shallow embedding of the hooks and map components of the MapGap
    front end (useCountyData, useIndustryData, ChoroplethLayer, MapView,
    MapTooltip) together with the properties stated for them.

    Conventions of the embedding.
    - A JavaScript number is a rational ([Qc]) or one of the three special
      values Infinity, -Infinity and NaN.  Arithmetic whose value is used
      rounds to binary64 (module [Binary64]); comparisons are exact.  The
      sign of zero is not represented.
    - A JavaScript object used as a record from keys to values
      ([IndustryScores]) is the list of its own properties in enumeration
      order, which is the order [Object.entries] and [Object.values] use.
    - React state that a callback reads through a ref is split in the value
      last written by a setter and the value the last render copied into
      the ref. *)

From Stdlib Require Import QArith Qcanon Qround Qabs Qpower ZArith List Bool String Ascii Lia Lqa.
From Stdlib Require Import Sorting.Sorted Sorting.Permutation.
From Stdlib Require Import Floats.SpecFloat.
From Equations Require Import Equations.
From stdpp Require Import base gmap strings list.
Import ListNotations.
Open Scope string_scope.
Open Scope list_scope.

(** ** JavaScript numbers *)

Inductive num : Type :=
| Fin (q : Qc)
| PosInf
| NegInf
| NaN.

Definition Qcltb (a b : Qc) : bool := negb (Qle_bool b a).
Definition Qceqb (a b : Qc) : bool := Qeq_bool a b.

(** [a < b] *)
Definition js_lt (a b : num) : bool :=
  match a, b with
  | NaN, _ | _, NaN => false
  | Fin x, Fin y => Qcltb x y
  | _, NegInf => false
  | NegInf, _ => true
  | PosInf, _ => false
  | Fin _, PosInf => true
  end.

(** [a > b] *)
Definition js_gt (a b : num) : bool := js_lt b a.

(** [a === b] on numbers *)
Definition js_strict_eq (a b : num) : bool :=
  match a, b with
  | Fin x, Fin y => Qceqb x y
  | PosInf, PosInf => true
  | NegInf, NegInf => true
  | _, _ => false
  end.

Definition js_neg (a : num) : num :=
  match a with
  | Fin x => Fin (- x)
  | PosInf => NegInf
  | NegInf => PosInf
  | NaN => NaN
  end.

(** [a - b] where only the sign of the result is observed, as by the
    comparator of a sort: the difference of the two numbers as real
    numbers.  The binary64 difference of two binary64 numbers is negative,
    zero or positive exactly when the real one is
    ([Binary64Facts.sub_sign]). *)
Definition js_sub (a b : num) : num :=
  match a, js_neg b with
  | NaN, _ | _, NaN => NaN
  | Fin x, Fin y => Fin (x + y)%Qc
  | PosInf, NegInf | NegInf, PosInf => NaN
  | PosInf, _ | _, PosInf => PosInf
  | NegInf, _ | _, NegInf => NegInf
  end.

Definition inf_of_sign (positive : bool) : num :=
  if positive then PosInf else NegInf.

(** ** Arithmetic in binary64

    The arithmetic operators of JavaScript compute in IEEE 754 binary64:
    the exact result is rounded to the nearest number with a 53-bit
    significand and an exponent of at least -1074, ties going to the even
    significand, and a result of magnitude 2^1024 or more is an infinity.
    [Fin 0] is the positive zero; the negative zero is not represented. *)

Module Binary64.

Definition pow2 (e : Z) : Q := Qpower (2 # 1) e.

(** The exponent [e] of a number other than zero: [2^e <= |x| < 2^(e+1)]. *)
Definition exponent (x : Q) : Z :=
  let e := (Z.log2 (Z.abs (Qnum x)) - Z.log2 (Zpos (Qden x)))%Z in
  if Qle_bool (pow2 e) (Qabs x) then e else (e - 1)%Z.

(** The nearest integer, the even one of two that are equally near. *)
Definition rne (x : Q) : Z :=
  let f := Qfloor x in
  match Qcompare (x - inject_Z f)%Q (1 # 2) with
  | Lt => f
  | Gt => (f + 1)%Z
  | Eq => if Z.even f then f else (f + 1)%Z
  end.

(** The exponent of the last place of the significand of [x]. *)
Definition quantum (x : Q) : Z := Z.max (exponent x - 52) (-1074).

Definition round (x : Qc) : num :=
  if Qceqb x 0 then Fin 0
  else
    let q := quantum x in
    let n := rne (this x / pow2 q)%Q in
    let y := (inject_Z n * pow2 q)%Q in
    if Qle_bool (pow2 1024) (Qabs y) then inf_of_sign (0 <? n)%Z
    else Fin (Q2Qc y).

(** The numbers of binary64 among the rationals. *)
Definition double (x : Qc) : Prop := round x = Fin x.

(** [a + b] *)
Definition add (a b : num) : num :=
  match a, b with
  | NaN, _ | _, NaN => NaN
  | Fin x, Fin y => round (x + y)%Qc
  | PosInf, NegInf | NegInf, PosInf => NaN
  | PosInf, _ | _, PosInf => PosInf
  | NegInf, _ | _, NegInf => NegInf
  end.

(** [a - b] *)
Definition sub (a b : num) : num := add a (js_neg b).

(** [a * b] *)
Definition mul (a b : num) : num :=
  match a, b with
  | NaN, _ | _, NaN => NaN
  | Fin x, Fin y => round (x * y)%Qc
  | Fin x, PosInf | PosInf, Fin x =>
      if Qceqb x 0 then NaN else inf_of_sign (Qcltb 0 x)
  | Fin x, NegInf | NegInf, Fin x =>
      if Qceqb x 0 then NaN else inf_of_sign (Qcltb x 0)
  | PosInf, PosInf | NegInf, NegInf => PosInf
  | PosInf, NegInf | NegInf, PosInf => NegInf
  end.

(** [a / b]; zero divided by zero is NaN, another finite number divided
    by zero an infinity. *)
Definition div (a b : num) : num :=
  match a, b with
  | NaN, _ | _, NaN => NaN
  | Fin x, Fin y =>
      if Qceqb y 0
      then (if Qceqb x 0 then NaN else inf_of_sign (Qcltb 0 x))
      else round (x / y)%Qc
  | Fin _, _ => Fin 0
  | PosInf, Fin y => inf_of_sign (negb (Qcltb y 0))
  | NegInf, Fin y => inf_of_sign (Qcltb y 0)
  | _, _ => NaN
  end.

(** The value a number of the IEEE 754 specification of the standard
    library stands for, without the sign of zero. *)
Definition of_spec (f : spec_float) : num :=
  match f with
  | S754_zero _ => Fin 0
  | S754_infinity negative => if negative then NegInf else PosInf
  | S754_nan => NaN
  | S754_finite negative m e =>
      Fin (Q2Qc ((if negative then -1 else 1) * inject_Z (Zpos m) * pow2 e)%Q)
  end.

(** The rounded value before the test for overflow. *)
Definition rnd (x : Q) : Q :=
  (inject_Z (rne (x / pow2 (quantum x))) * pow2 (quantum x))%Q.

(** The multiples of the least positive number [2^-1074], among which
    every finite rounded value lies. *)
Definition grid (y : Q) : Prop := exists m : Z, (y == inject_Z m * pow2 (-1074))%Q.

(** The sign of a number, as the comparisons with zero see it. *)
Definition sign_of (d : num) : comparison :=
  if js_lt d (Fin 0) then Lt else if js_strict_eq d (Fin 0) then Eq else Gt.

End Binary64.

(** The divisions the normalisation performs are recorded by their
    divisor; a division is by zero when the divisor is [Fin 0]. *)
Definition js_is_zero (a : num) : bool := js_strict_eq a (Fin 0).


(** ** Score records (types/score.ts) *)

Record CountyScore : Type := {
  fips : string;
  name : string;
  state : string;
  score : Qc;
  establishmentCount : Qc;
  populationPerBiz : Qc
}.

(** [Record<string, CountyScore>]: the own properties in enumeration
    order.  Keys are pairwise distinct in a JavaScript object. *)
Definition IndustryScores : Type := list (string * CountyScore).

Definition Object_entries (o : IndustryScores) : list (string * CountyScore) := o.
Definition Object_values (o : IndustryScores) : list CountyScore := map snd o.
Definition Object_keys (o : IndustryScores) : list string := map fst o.

(** The order of enumeration: the keys that are array indices (canonical
    decimal numerals below 2^32 - 1) come first, in ascending numeric
    order, and all other keys follow in the order they were created. *)
Definition digit (c : ascii) : option N :=
  let n := N_of_ascii c in
  if (N.leb 48 n && N.leb n 57)%bool then Some (n - 48)%N else None.

Fixpoint parse_digits (s : string) (acc : N) : option N :=
  match s with
  | EmptyString => Some acc
  | String c rest =>
      match digit c with
      | Some d => parse_digits rest (10 * acc + d)%N
      | None => None
      end
  end.

Definition array_index (key : string) : option N :=
  match key with
  | EmptyString => None
  | String c rest =>
      if (Ascii.eqb c "0" && negb (String.eqb rest ""))%bool then None
      else
        match parse_digits key 0 with
        | Some n => if N.ltb n (2 ^ 32 - 1) then Some n else None
        | None => None
        end
  end.

Fixpoint enumeration_order_from (previous : option N) (keys : list string) : bool :=
  match keys with
  | [] => true
  | key :: rest =>
      match array_index key with
      | Some n =>
          match previous with
          | Some p => N.ltb p n
          | None => true
          end && enumeration_order_from (Some n) rest
      | None =>
          forallb (fun k => match array_index k with Some _ => false | None => true end) rest
      end
  end.

Definition enumeration_order (o : IndustryScores) : bool :=
  enumeration_order_from None (Object_keys o).

(** [o[key]] *)
Fixpoint get_property (o : IndustryScores) (key : string) : option CountyScore :=
  match o with
  | [] => None
  | (k, v) :: rest => if String.eqb k key then Some v else get_property rest key
  end.

(** A string is falsy exactly when it is empty; [null] is falsy. *)
Definition truthy (s : option string) : bool :=
  match s with
  | None => false
  | Some s => negb (String.eqb s "")
  end.

(** ** MetricSelect.tsx: [MetricKey] *)

Module MetricKey.
Inductive t : Type := score | establishmentCount | populationPerBiz.
End MetricKey.

(** [entry[metric]]: the field the metric key names, a finite number. *)
Definition metric_field (metric : MetricKey.t) (entry : CountyScore) : Qc :=
  match metric with
  | MetricKey.score => score entry
  | MetricKey.establishmentCount => establishmentCount entry
  | MetricKey.populationPerBiz => populationPerBiz entry
  end.

Definition metric_value (metric : MetricKey.t) (entry : CountyScore) : num :=
  Fin (metric_field metric entry).

Definition is_score (metric : MetricKey.t) : bool :=
  match metric with MetricKey.score => true | _ => false end.

(** ** useIndustryData: the derived values [scores] and [topCounties] *)

(** [filtered[fips] = entry] on an object made by [{}]: the property is
    added, except that the key "__proto__" reaches the setter of
    [Object.prototype], which makes the entry the prototype of [filtered]
    and adds no property. *)
Definition adds_property (key : string) : bool := negb (String.eqb key "__proto__").

(** The [scores] memo: filter by state.  The result is given by its own
    properties. *)
Definition filterScores (rawScores : option IndustryScores)
    (stateFilter : option string) : option IndustryScores :=
  match rawScores with
  | None => None
  | Some raw =>
      if negb (truthy stateFilter) then Some raw
      else Some (List.filter (fun kv => match stateFilter with
                                   | Some st => String.eqb (state (snd kv)) st
                                                && adds_property (fst kv)
                                   | None => false
                                   end)
                        (Object_entries raw))
  end.

(** [Array.prototype.sort(compare)]: a stable sort; [x] is placed before
    [y] when [compare(x, y) <= 0]. *)
Definition compare_le0 {A} (compare : A -> A -> num) (x y : A) : bool :=
  js_lt (compare x y) (Fin 0) || js_strict_eq (compare x y) (Fin 0).

Fixpoint sort_insert {A} (compare : A -> A -> num) (x : A) (l : list A) : list A :=
  match l with
  | [] => [x]
  | y :: rest =>
      if compare_le0 compare x y then x :: y :: rest
      else y :: sort_insert compare x rest
  end.

Fixpoint Array_sort {A} (compare : A -> A -> num) (l : list A) : list A :=
  match l with
  | [] => []
  | x :: rest => sort_insert compare x (Array_sort compare rest)
  end.

(** [arr.slice(0, n)] *)
Definition slice0 {A} (n : nat) (l : list A) : list A := firstn n l.

(** The [topCounties] memo. *)
Definition topCounties (scores : option IndustryScores) : list CountyScore :=
  match scores with
  | None => []
  | Some scores =>
      slice0 10
        (Array_sort (fun a b => js_sub (Fin (score b)) (Fin (score a)))
                    (Object_values scores))
  end.

(** ** colorScales.ts *)

Record ColorStop : Type := { value : num; color : string }.

Definition choroplethScale : list ColorStop :=
  [ {| value := Fin 0; color := "#e5e7eb" |};
    {| value := Fin (Q2Qc 50); color := "#a5b4fc" |};
    {| value := Fin (Q2Qc 100); color := "#3730a3" |} ].

(** ** ChoroplethLayer.tsx: [buildFillColorExpression] *)

Definition NO_DATA_COLOR : string := "#e5e7eb".

(** The expression
    [['interpolate', ['linear'], ['match', ['get', p], k1, v1, ..., d],
      s0, c0, s1, c1, s2, c2]]. *)
Inductive Interpolation : Type := linear.

Record MatchExpression : Type := {
  match_get : string;
  match_pairs : list (string * num);
  match_default : num
}.

Record ExpressionSpecification : Type := {
  interpolate_kind : Interpolation;
  interpolate_input : MatchExpression;
  interpolate_stops : list (num * string)
}.

(** One turn of the loop [for (const v of values)]. *)
Definition range_step (acc : num * num) (v : num) : num * num :=
  let '(min, max) := acc in
  let min := if js_lt v min then v else min in
  let max := if js_gt v max then v else max in
  (min, max).

(** The values of [min] and [max] when the fipsPairs loop starts. *)
Definition metric_range (entries : list (string * CountyScore))
    (metric : MetricKey.t) : num * num :=
  if is_score metric then (Fin 0, Fin (Q2Qc 100))
  else
    let values := map (fun kv => metric_value metric (snd kv)) entries in
    let '(min, max) := fold_left range_step values (PosInf, NegInf) in
    if js_strict_eq max min then (min, Binary64.add min (Fin 1)) else (min, max).

Definition normalised (metric : MetricKey.t) (min max raw : num) : num :=
  if is_score metric then raw
  else Binary64.mul (Binary64.div (Binary64.sub raw min) (Binary64.sub max min))
                    (Fin (Q2Qc 100)).

Definition stop_at (i : nat) : num * string :=
  match nth_error choroplethScale i with
  | Some s => (value s, color s)
  | None => (NaN, "")
  end.

Definition buildFillColorExpression (scores : IndustryScores)
    (metric : MetricKey.t) : ExpressionSpecification :=
  let entries := Object_entries scores in
  let '(min, max) := metric_range entries metric in
  let fipsPairs :=
    map (fun kv => (fst kv, normalised metric min max (metric_value metric (snd kv))))
        entries in
  {| interpolate_kind := linear;
     interpolate_input :=
       {| match_get := "GEOID";
          match_pairs := fipsPairs;
          match_default := Fin 0 |};
     interpolate_stops := [stop_at 0; stop_at 1; stop_at 2] |}.

(** What the rendering engine evaluates a [match] expression to on a
    feature whose property has the value [v]: the output paired with the
    first label equal to [v], the default otherwise. *)
Fixpoint match_lookup (pairs : list (string * num)) (v : string) : option num :=
  match pairs with
  | [] => None
  | (k, out) :: rest => if String.eqb k v then Some out else match_lookup rest v
  end.

Definition eval_match (m : MatchExpression) (v : string) : num :=
  match match_lookup (match_pairs m) v with
  | Some out => out
  | None => match_default m
  end.

(** The paint value the fill-colour effect sets. *)
Inductive PaintValue : Type :=
| PaintColor (c : string)
| PaintExpression (e : ExpressionSpecification).

Definition fillColorPaint (scores : option IndustryScores)
    (metric : MetricKey.t) : PaintValue :=
  match scores with
  | None => PaintColor NO_DATA_COLOR
  | Some s =>
      if Nat.eqb (List.length (Object_keys s)) 0 then PaintColor NO_DATA_COLOR
      else PaintExpression (buildFillColorExpression s metric)
  end.

(** ** ChoroplethLayer.tsx: [validateGeoJSON] *)

(** A value produced by [res.json()]. *)
#[warnings="-register-all"]
Inductive JSON : Type :=
| JNull
| JBool (b : bool)
| JNumber (n : num)
| JString (s : string)
| JArray (items : list JSON)
| JObject (props : list (string * JSON)).

(** The result of a call: a returned value or a thrown TypeError. *)
Inductive Outcome (A : Type) : Type :=
| Returns (a : A)
| Throws.
Arguments Returns {A} a.
Arguments Throws {A}.

Fixpoint own_property (props : list (string * JSON)) (key : string) : option JSON :=
  match props with
  | [] => None
  | (k, v) :: rest => if String.eqb k key then Some v else own_property rest key
  end.

(** [v[key]] for a value [v] other than [null], for the property names
    this module reads ("type", "features", "geometry", "properties",
    "GEOID"): none of them exists on an array or on a primitive, so the
    access yields [undefined] ([None]) there. *)
Definition member (v : JSON) (key : string) : option JSON :=
  match v with
  | JObject props => own_property props key
  | _ => None
  end.

(** [v?.[key]] *)
Definition optional_member (v : option JSON) (key : string) : option JSON :=
  match v with
  | None | Some JNull => None
  | Some v => member v key
  end.

(** [typeof v === 'object' && v !== null] *)
Definition is_object (v : option JSON) : bool :=
  match v with
  | Some (JArray _) | Some (JObject _) => true
  | _ => false
  end.

(** [typeof v === 'string'] *)
Definition is_string (v : option JSON) : bool :=
  match v with
  | Some (JString _) => true
  | _ => false
  end.

(** [v === s] for a string literal [s] *)
Definition is_literal (v : option JSON) (s : string) : bool :=
  match v with
  | Some (JString s') => String.eqb s' s
  | _ => false
  end.

Definition validateGeoJSON (data : JSON) : Outcome bool :=
  if negb (is_object (Some data)) then Returns false
  else if negb (is_literal (member data "type") "FeatureCollection") then Returns false
  else
    match member data "features" with
    | Some (JArray features) =>
        (* Spot-check first feature for required properties *)
        match features with
        | [] => Returns true
        | JNull :: _ => Throws
        | first :: _ =>
            if negb (is_literal (member first "type") "Feature") then Returns false
            else if negb (is_object (member first "geometry")) then Returns false
            else
              let props := member first "properties" in
              if negb (is_string (optional_member props "GEOID")) then Returns false
              else Returns true
        end
    | _ => Returns false
    end.

(** ** useCountyData.ts *)

Module CountyData.
Section Hook.

(** The parsed demographics table; its content plays no part here. *)
Context {AllCountyDemographics : Type}.

Record CountyDataState : Type := {
  data : option AllCountyDemographics;
  loading : bool;
  error : option string
}.

(** Promises are told apart by the number of the fetch that made them. *)
Definition PromiseId : Type := nat.

(** How the promise built from [fetch(...).then(...)] settles. *)
Inductive Failure : Type :=
| NotOk (status : string)        (* [!res.ok]: the callback throws *)
| ErrorThrown (message : string) (* rejected with an [Error] *)
| OtherThrown.                   (* rejected with something else *)

Inductive Settled : Type :=
| Fulfilled (body : AllCountyDemographics)
| Rejected (err : Failure).

(** [err instanceof Error ? err.message : 'Failed to load demographics'] *)
Definition failure_message (err : Failure) : string :=
  match err with
  | NotOk status => ("Failed to load demographics: " ++ status)%string
  | ErrorThrown message => message
  | OtherThrown => "Failed to load demographics"
  end.

Record Hook : Type := {
  state : CountyDataState;      (* the React state, as last set *)
  stateRef : CountyDataState;   (* [stateRef.current], as of the last render *)
  fetchedRef : bool;
  promiseRef : option PromiseId;
  pending : list PromiseId;     (* fetches whose promise has not settled *)
  issued : nat                  (* number of fetch calls made so far *)
}.

Definition initial : Hook :=
  {| state := {| data := None; loading := false; error := None |};
     stateRef := {| data := None; loading := false; error := None |};
     fetchedRef := false;
     promiseRef := None;
     pending := [];
     issued := 0 |}.

(** A render runs the hook body: [stateRef.current = state]. *)
Definition render (h : Hook) : Hook :=
  {| state := state h; stateRef := state h; fetchedRef := fetchedRef h;
     promiseRef := promiseRef h; pending := pending h; issued := issued h |}.

(** What a call of [ensureLoaded] hands to its caller. *)
Inductive Returned : Type :=
| Now (d : option AllCountyDemographics) (* resolved at once: the data or null *)
| Shared (p : PromiseId)  (* [return promiseRef.current]: the promise itself *)
| Owner (p : PromiseId).  (* [await promise]: its body, or null if it rejects *)

(** [ensureLoaded] up to its [await]. *)
Definition ensureLoaded (h : Hook) : Hook * Returned :=
  match data (stateRef h) with
  | Some d => (h, Now (Some d))
  | None =>
      match promiseRef h with
      | Some p => (h, Shared p)
      | None =>
          if fetchedRef h && truthy (error (stateRef h)) then (h, Now None)
          else
            let p := issued h in
            ({| state := {| data := data (state h); loading := true; error := None |};
                stateRef := stateRef h;
                fetchedRef := true;
                promiseRef := Some p;
                pending := (pending h ++ [p])%list;
                issued := S (issued h) |},
             Owner p)
      end
  end.

Definition is_pending (p : PromiseId) (h : Hook) : bool :=
  existsb (Nat.eqb p) (pending h).

Definition drop (p : PromiseId) (l : list PromiseId) : list PromiseId :=
  List.filter (fun q => negb (Nat.eqb p q)) l.

(** The promise [p] settles and the call that awaits it resumes. *)
Definition settle (p : PromiseId) (o : Settled) (h : Hook) : Hook :=
  if is_pending p h then
    match o with
    | Fulfilled d =>
        {| state := {| data := Some d; loading := false; error := None |};
           stateRef := stateRef h; fetchedRef := fetchedRef h;
           promiseRef := promiseRef h;
           pending := drop p (pending h); issued := issued h |}
    | Rejected err =>
        {| state := {| data := None; loading := false;
                       error := Some (failure_message err) |};
           stateRef := stateRef h; fetchedRef := fetchedRef h;
           promiseRef := None;
           pending := drop p (pending h); issued := issued h |}
    end
  else h.

Definition retry (h : Hook) : Hook :=
  {| state := {| data := None; loading := false; error := None |};
     stateRef := stateRef h;
     fetchedRef := false;
     promiseRef := None;
     pending := pending h; issued := issued h |}.

(** What a caller finally receives once the promise it waits for has
    settled. *)
Inductive Final : Type :=
| Value (d : option AllCountyDemographics)
| Raises (err : Failure).

Definition resolution (r : Returned) (o : Settled) : Final :=
  match r, o with
  | Now d, _ => Value d
  | Shared _, Fulfilled d => Value (Some d)
  | Shared _, Rejected err => Raises err
  | Owner _, Fulfilled d => Value (Some d)
  | Owner _, Rejected _ => Value None
  end.

(** What can happen to the hook. *)
Inductive Event : Type :=
| Call                                (* some caller invokes [ensureLoaded] *)
| Settle (p : PromiseId) (o : Settled)
| Retry
| Render.

Definition step (e : Event) (h : Hook) : Hook :=
  match e with
  | Call => fst (ensureLoaded h)
  | Settle p o => settle p o h
  | Retry => retry h
  | Render => render h
  end.

Definition run (es : list Event) (h : Hook) : Hook :=
  fold_left (fun h e => step e h) es h.

(** [retry] is not invoked while a fetch is pending. *)
Fixpoint retry_when_idle (es : list Event) (h : Hook) : bool :=
  match es with
  | [] => true
  | e :: rest =>
      match e with
      | Retry => match pending h with [] => true | _ => false end
      | _ => true
      end && retry_when_idle rest (step e h)
  end.

(** Calls and renders only. *)
Definition is_call_or_render (e : Event) : bool :=
  match e with Call | Render => true | _ => false end.

(** The values the calls of a trace hand out, in order. *)
Fixpoint returns (es : list Event) (h : Hook) : list Returned :=
  match es with
  | [] => []
  | Call :: rest => snd (ensureLoaded h) :: returns rest (step Call h)
  | e :: rest => returns rest (step e h)
  end.

End Hook.
Arguments Hook : clear implicits.
Arguments CountyDataState : clear implicits.
Arguments Settled : clear implicits.
Arguments Returned : clear implicits.
Arguments Final : clear implicits.
Arguments Event : clear implicits.
End CountyData.

(** ** useIndustryData.ts *)

Module IndustryData.

Record Industry : Type := {
  id : string;
  label : string;
  naicsCodes : list string;
  description : string
}.

(** A character of the class [[a-zA-Z0-9_-]]. *)
Definition id_char (c : ascii) : bool :=
  let n := nat_of_ascii c in
  (Nat.leb 97 n && Nat.leb n 122) || (Nat.leb 65 n && Nat.leb n 90)
  || (Nat.leb 48 n && Nat.leb n 57) || Nat.eqb n 95 || Nat.eqb n 45.

(** [ID_FORMAT.test(s)] for [ID_FORMAT = /^[a-zA-Z0-9_-]+$/] *)
Definition ID_FORMAT_test (s : string) : bool :=
  negb (String.eqb s "") && forallb id_char (list_ascii_of_string s).

(** A score request that has not been answered yet, with the
    [cancelled] flag of the effect run that issued it. *)
Record Fetch : Type := {
  fetch_no : nat;
  fetch_key : string;   (* the industry id in the request path *)
  cancelled : bool
}.

(** A response as [loadScores] sees it. *)
Inductive Response : Type :=
| Ok (body : IndustryScores)
| Failed (message : string).

Record Hook : Type := {
  selectedIndustryId : option string;   (* the argument of the last render *)
  industries : list Industry;
  industriesLoading : bool;
  industriesError : option string;
  rawScores : option IndustryScores;
  scoresLoading : bool;
  scoresError : option string;
  scoreCache : gmap string IndustryScores;
  industriesRef : list Industry;
  inflight : list Fetch;      (* score requests awaiting their response *)
  requested : list string     (* every score request issued so far, by id *)
}.

Definition mounted (selected : option string) : Hook :=
  {| selectedIndustryId := selected;
     industries := []; industriesLoading := true; industriesError := None;
     rawScores := None; scoresLoading := false; scoresError := None;
     scoreCache := ∅; industriesRef := [];
     inflight := []; requested := [] |}.

(** The three setters of the score state, the rest unchanged. *)
Definition set_scores (raw : option IndustryScores) (isLoading : bool)
    (err : option string) (h : Hook) : Hook :=
  {| selectedIndustryId := selectedIndustryId h;
     industries := industries h; industriesLoading := industriesLoading h;
     industriesError := industriesError h;
     rawScores := raw; scoresLoading := isLoading; scoresError := err;
     scoreCache := scoreCache h; industriesRef := industriesRef h;
     inflight := inflight h; requested := requested h |}.

(** The clean-up of the previous effect run: [cancelled = true]. *)
Definition cleanup (h : Hook) : Hook :=
  {| selectedIndustryId := selectedIndustryId h;
     industries := industries h; industriesLoading := industriesLoading h;
     industriesError := industriesError h;
     rawScores := rawScores h; scoresLoading := scoresLoading h;
     scoresError := scoresError h;
     scoreCache := scoreCache h; industriesRef := industriesRef h;
     inflight := map (fun f => {| fetch_no := fetch_no f; fetch_key := fetch_key f;
                                  cancelled := true |}) (inflight h);
     requested := requested h |}.

(** [fetch(`/data/scores/${id}.json`)] issued by [loadScores]. *)
Definition start_fetch (key : string) (h : Hook) : Hook :=
  {| selectedIndustryId := selectedIndustryId h;
     industries := industries h; industriesLoading := industriesLoading h;
     industriesError := industriesError h;
     rawScores := rawScores h; scoresLoading := true; scoresError := None;
     scoreCache := scoreCache h; industriesRef := industriesRef h;
     inflight := (inflight h ++ [ {| fetch_no := List.length (requested h);
                                     fetch_key := key; cancelled := false |} ])%list;
     requested := (requested h ++ [key])%list |}.

(** The body of the effect that loads the scores. *)
Definition scoresEffectBody (h : Hook) : Hook :=
  match selectedIndustryId h with
  | None => set_scores None false None h
  | Some selected =>
      if String.eqb selected "" || industriesLoading h then
        set_scores None false None h
      else if negb (ID_FORMAT_test selected) then
        set_scores None false (Some "Unknown industry ID") h
      else if negb (existsb (fun ind => String.eqb (id ind) selected) (industriesRef h)) then
        set_scores None false (Some ("Unknown industry ID: " ++ selected)%string) h
      else
        match scoreCache h !! selected with
        | Some cached => set_scores (Some cached) false None h
        | None => start_fetch selected h
        end
  end.

(** A run of the effect: the clean-up of the previous run, then the body. *)
Definition scoresEffect (h : Hook) : Hook := scoresEffectBody (cleanup h).

Definition with_selected (selected : option string) (h : Hook) : Hook :=
  {| selectedIndustryId := selected;
     industries := industries h; industriesLoading := industriesLoading h;
     industriesError := industriesError h;
     rawScores := rawScores h; scoresLoading := scoresLoading h;
     scoresError := scoresError h;
     scoreCache := scoreCache h; industriesRef := industriesRef h;
     inflight := inflight h; requested := requested h |}.

(** A render with a new [selectedIndustryId] together with the run of
    the effect that follows it when the dependency changed.  In that
    render itself, before the effect has run, the hook returns the state
    of [with_selected selected h]: the new id with the scores, the
    loading flag and the error of the render before. *)
Definition select (selected : option string) (h : Hook) : Hook :=
  if decide (selected = selectedIndustryId h) then h
  else scoresEffect (with_selected selected h).

(** The answer to the catalog request arrives; [industriesLoading] turns
    false, which makes the score effect run again. *)
Definition catalogSettled (result : list Industry + string) (h : Hook) : Hook :=
  if industriesLoading h then
    scoresEffect
      match result with
      | inl catalog =>
          {| selectedIndustryId := selectedIndustryId h;
             industries := catalog; industriesLoading := false;
             industriesError := industriesError h;
             rawScores := rawScores h; scoresLoading := scoresLoading h;
             scoresError := scoresError h;
             scoreCache := scoreCache h; industriesRef := catalog;
             inflight := inflight h; requested := requested h |}
      | inr message =>
          {| selectedIndustryId := selectedIndustryId h;
             industries := industries h; industriesLoading := false;
             industriesError := Some message;
             rawScores := rawScores h; scoresLoading := scoresLoading h;
             scoresError := scoresError h;
             scoreCache := scoreCache h; industriesRef := industriesRef h;
             inflight := inflight h; requested := requested h |}
      end
  else h.

Definition find_fetch (n : nat) (h : Hook) : option Fetch :=
  List.find (fun f => Nat.eqb (fetch_no f) n) (inflight h).

Definition without_fetch (n : nat) (h : Hook) : list Fetch :=
  List.filter (fun f => negb (Nat.eqb (fetch_no f) n)) (inflight h).

(** The answer to score request number [n] arrives and [loadScores]
    resumes. *)
Definition scoresSettled (n : nat) (r : Response) (h : Hook) : Hook :=
  match find_fetch n h with
  | None => h
  | Some f =>
      let rest := without_fetch n h in
      if cancelled f then
        {| selectedIndustryId := selectedIndustryId h;
           industries := industries h; industriesLoading := industriesLoading h;
           industriesError := industriesError h;
           rawScores := rawScores h; scoresLoading := scoresLoading h;
           scoresError := scoresError h;
           scoreCache := scoreCache h; industriesRef := industriesRef h;
           inflight := rest; requested := requested h |}
      else
        match r with
        | Ok body =>
            {| selectedIndustryId := selectedIndustryId h;
               industries := industries h; industriesLoading := industriesLoading h;
               industriesError := industriesError h;
               rawScores := Some body; scoresLoading := false;
               scoresError := scoresError h;
               scoreCache := <[fetch_key f := body]> (scoreCache h);
               industriesRef := industriesRef h;
               inflight := rest; requested := requested h |}
        | Failed message =>
            {| selectedIndustryId := selectedIndustryId h;
               industries := industries h; industriesLoading := industriesLoading h;
               industriesError := industriesError h;
               rawScores := rawScores h; scoresLoading := false;
               scoresError := Some message;
               scoreCache := scoreCache h; industriesRef := industriesRef h;
               inflight := rest; requested := requested h |}
        end
  end.

(** The score requests for [key] that are outstanding. *)
Definition outstanding (key : string) (h : Hook) : nat :=
  List.length (List.filter (fun f => String.eqb (fetch_key f) key) (inflight h)).

End IndustryData.

(** ** MapView.tsx: the style-switch effect *)

Module StyleSwitch.

Inductive GeojsonStatus : Type := loading | loaded | error.

(** The state the effect touches: the two pieces of React state, the
    closure variable [settled], whether [onStyleLoad] is registered, the
    time remaining on the fallback timer (when it is armed), and the number of
    [setMapReady(true)] calls made so far. *)
Record Controller : Type := {
  mapReady : bool;
  geojsonStatus : GeojsonStatus;
  settled : bool;
  listener : bool;
  timer : option nat;
  commits : nat
}.

(** The delay passed to [setTimeout], in milliseconds. *)
Definition FALLBACK_TIMEOUT : nat := 5000.

(** The body of the effect for a map that exists; [isDark] tells whether
    the name of the current style contains "dark", [wantDark] whether the
    resolved theme is dark. *)
Definition switchStyle (isDark wantDark : bool) (c : Controller) : Controller :=
  if Bool.eqb isDark wantDark then c
  else
    {| mapReady := false;
       geojsonStatus := loading;
       settled := false;
       listener := true;
       timer := Some FALLBACK_TIMEOUT;
       commits := 0 |}.

(** [if (!settled) { settled = true; setMapReady(true); }], the body of
    both [onStyleLoad] and the timer callback. *)
Definition settle_ready (c : Controller) : Controller :=
  if settled c then c
  else
    {| mapReady := true;
       geojsonStatus := geojsonStatus c;
       settled := true;
       listener := listener c;
       timer := timer c;
       commits := S (commits c) |}.

Inductive Event : Type :=
| StyleLoad              (* the engine emits 'style.load' *)
| Elapse (ms : nat)      (* time passes *)
| Cleanup.               (* the effect is cleaned up *)

Definition unregister (c : Controller) : Controller :=
  {| mapReady := mapReady c; geojsonStatus := geojsonStatus c;
     settled := settled c; listener := false; timer := timer c;
     commits := commits c |}.

Definition set_timer (t : option nat) (c : Controller) : Controller :=
  {| mapReady := mapReady c; geojsonStatus := geojsonStatus c;
     settled := settled c; listener := listener c; timer := t;
     commits := commits c |}.

Definition step (e : Event) (c : Controller) : Controller :=
  match e with
  | StyleLoad =>
      (* registered with [map.once]: removed when it fires *)
      if listener c then settle_ready (unregister c) else c
  | Elapse ms =>
      match timer c with
      | None => c
      | Some remaining =>
          if Nat.leb remaining ms then settle_ready (set_timer None c)
          else set_timer (Some (remaining - ms)) c
      end
  | Cleanup => set_timer None (unregister c)
  end.

Definition run (es : list Event) (c : Controller) : Controller :=
  fold_left (fun c e => step e c) es c.

(** The theme changes: the previous run of the effect is cleaned up and
    the effect runs again. *)
Definition themeChanged (isDark wantDark : bool) (c : Controller) : Controller :=
  switchStyle isDark wantDark (step Cleanup c).







End StyleSwitch.

(** ** GeoJSON features, as the map components read them *)

Module GeoJSON.

(** [Position] is an array of numbers; every other coordinate array is
    an array of coordinate arrays. *)
#[warnings="-register-all"]
Inductive Coordinates : Type :=
| Position (components : list Qc)
| Nested (items : list Coordinates).

#[warnings="-register-all"]
Inductive Geometry : Type :=
| Shape (kind : string) (coordinates : Coordinates)
| GeometryCollection (geometries : list Geometry).

(** The properties the components read; an absent property is [None]. *)
Record Properties : Type := {
  GEOID : option string;
  NAME : option string;
  STATE : option string
}.

Record Feature : Type := {
  properties : option Properties;
  geometry : option Geometry
}.

Record FeatureCollection : Type := { features : list Feature }.

(** [feature.properties?.GEOID] and the like *)
Definition property (get : Properties -> option string) (f : Feature) : option string :=
  match properties f with
  | Some props => get props
  | None => None
  end.

End GeoJSON.

(** ** MapView.tsx: the fit-bounds effect *)

Module FitBounds.
Import GeoJSON.

(** An entry of [stateList]. *)
Record StateEntry : Type := {
  abbreviation : string;
  name : string;
  fips : string
}.

Record Box : Type := {
  minLng : num;
  minLat : num;
  maxLng : num;
  maxLat : num
}.

Definition empty_box : Box :=
  {| minLng := PosInf; minLat := PosInf; maxLng := NegInf; maxLat := NegInf |}.

(** [current[1]] of a position, [undefined] (which compares like NaN)
    when it has a single component. *)
Definition second (rest : list Qc) : num :=
  match rest with
  | lat :: _ => Fin lat
  | [] => NaN
  end.

(** The branch [typeof current[0] === 'number'] of the walk. *)
Definition extend (box : Box) (lng : num) (lat : num) : Box :=
  {| minLng := if js_lt lng (minLng box) then lng else minLng box;
     minLat := if js_lt lat (minLat box) then lat else minLat box;
     maxLng := if js_gt lng (maxLng box) then lng else maxLng box;
     maxLat := if js_gt lat (maxLat box) then lat else maxLat box |}.

Fixpoint coordinates_size (c : Coordinates) : nat :=
  match c with
  | Position _ => 1
  | Nested items =>
      S ((fix sum (l : list Coordinates) : nat :=
            match l with
            | [] => 0
            | x :: rest => coordinates_size x + sum rest
            end) items)
  end.

Definition stack_size (stack : list Coordinates) : nat :=
  list_sum (map coordinates_size stack).

Lemma stack_size_app (a b : list Coordinates) :
  stack_size (a ++ b) = stack_size a + stack_size b.
Proof. unfold stack_size. rewrite map_app, list_sum_app. reflexivity. Qed.

Lemma stack_size_rev (a : list Coordinates) : stack_size (rev a) = stack_size a.
Proof.
  induction a as [|x a IH]; [reflexivity|]. simpl.
  rewrite stack_size_app, IH. unfold stack_size. simpl. lia.
Qed.

Lemma coordinates_size_nested (items : list Coordinates) :
  coordinates_size (Nested items) = S (stack_size items).
Proof.
  simpl. f_equal. induction items as [|x items IH]; [reflexivity|].
  unfold stack_size in *. simpl. rewrite IH. reflexivity.
Qed.

(** The loop [while (stack.length > 0)].  The stack is a list whose head
    is the top: [stack.pop()] takes the head, and pushing the items of
    [current] one after the other leaves them on top in reverse order. *)
Equations? walk (stack : list Coordinates) (box : Box) : Box
    by wf (stack_size stack) lt :=
  walk [] box := box;
  walk (Position [] :: rest) box := walk rest box;
  walk (Position (lng :: more) :: rest) box :=
    walk rest (extend box (Fin lng) (second more));
  walk (Nested items :: rest) box := walk (rev items ++ rest) box.
Proof.
  - unfold stack_size. simpl. lia.
  - unfold stack_size. simpl. lia.
  - rewrite stack_size_app, stack_size_rev.
    change (stack_size (Nested items :: rest))
      with (coordinates_size (Nested items) + stack_size rest).
    rewrite coordinates_size_nested. lia.
Qed.

(** One turn of [for (const feature of features)]. *)
Definition walk_feature (box : Box) (feature : Feature) : Box :=
  match geometry feature with
  | None => box
  | Some (GeometryCollection _) => box
  | Some (Shape _ coordinates) => walk [coordinates] box
  end.

(** What the effect asks of the engine. *)
Inductive Command : Type :=
| flyTo (center : Qc * Qc) (zoom : Z)
| fitBounds (southWest northEast : num * num) (padding maxZoom : Z).

Section Effect.

(** The table [stateList] of data/stateList.ts. *)
Variable stateList : list StateEntry.

(** The effect that runs when [stateFilter] or [geojsonStatus] changes;
    [map] tells whether [mapRef.current] holds the engine and [geojson]
    is [geojsonRef.current]. *)
Definition fitEffect (map : bool) (stateFilter : option string)
    (geojson : option FeatureCollection) : option Command :=
  if negb map then None
  else
    match stateFilter with
    | None => Some (flyTo (Q2Qc (-985 # 10), Q2Qc (398 # 10)) 4)
    | Some filter =>
        if String.eqb filter "" then
          Some (flyTo (Q2Qc (-985 # 10), Q2Qc (398 # 10)) 4)
        else
          match List.find (fun s => String.eqb (abbreviation s) filter) stateList with
          | None => None
          | Some stateEntry =>
              match geojson with
              | None => None
              | Some collection =>
                  let matching :=
                    List.filter
                      (fun f => match property STATE f with
                                | Some code => String.eqb code (fips stateEntry)
                                | None => false
                                end)
                      (features collection) in
                  if Nat.eqb (List.length matching) 0 then None
                  else
                    let box := fold_left walk_feature matching empty_box in
                    if js_lt (minLng box) (maxLng box) && js_lt (minLat box) (maxLat box)
                    then Some (fitBounds (minLng box, minLat box)
                                         (maxLng box, maxLat box) 40 10)
                    else None
              end
          end
    end.

End Effect.

End FitBounds.

(** ** MapTooltip.tsx *)

Module MapTooltip.
Import GeoJSON.

(** [scoresRef.current?.[fips]] *)
Definition score_entry (scores : option IndustryScores) (fips : string) : option CountyScore :=
  match scores with
  | None => None
  | Some s => get_property s fips
  end.

(** [scoreEntry?.state ?? ''] and [scoreEntry?.score ?? null] *)
Definition entry_state (entry : option CountyScore) : string :=
  match entry with
  | Some e => state e
  | None => ""
  end.

Definition entry_score (entry : option CountyScore) : option Qc :=
  match entry with
  | Some e => Some (score e)
  | None => None
  end.

Record TooltipState : Type := {
  x : Qc;
  y : Qc;
  countyName : string;
  stateName : string;
  score : option Qc
}.

(** A pointer event on the layer: the features under the pointer, when
    the engine supplies them, and the position. *)
Record MapLayerMouseEvent : Type := {
  features : option (list Feature);
  point : Qc * Qc
}.

(** [e.features?.[0]] *)
Definition first_feature (e : MapLayerMouseEvent) : option Feature :=
  match features e with
  | Some (feature :: _) => Some feature
  | _ => None
  end.

(** The component: the tooltip state, the handle of the scheduled frame
    in [rafRef], the frame callbacks the browser still holds (each with
    the event it closes over), and the next handle the browser gives out. *)
Record Component : Type := {
  tooltip : option TooltipState;
  rafRef : option nat;
  frames : list (nat * MapLayerMouseEvent);
  nextHandle : nat
}.

Definition cancelAnimationFrame (handle : nat)
    (fs : list (nat * MapLayerMouseEvent)) : list (nat * MapLayerMouseEvent) :=
  List.filter (fun f => negb (Nat.eqb (fst f) handle)) fs.

(** The callback passed to [requestAnimationFrame]. *)
Definition frameUpdate (e : MapLayerMouseEvent) (scores : option IndustryScores)
    (c : Component) : Component :=
  let setTooltip t :=
    {| tooltip := t; rafRef := None; frames := frames c; nextHandle := nextHandle c |} in
  match first_feature e with
  | None => setTooltip None
  | Some feature =>
      let fips := property GEOID feature in
      let name := property NAME feature in
      if negb (truthy fips) || negb (truthy name) then setTooltip None
      else
        match fips, name with
        | Some fips, Some name =>
            let scoreEntry := score_entry scores fips in
            setTooltip (Some {| x := fst (point e);
                                y := snd (point e);
                                countyName := name;
                                stateName := entry_state scoreEntry;
                                score := entry_score scoreEntry |})
        | _, _ => setTooltip None   (* not reached: both are strings here *)
        end
  end.

Definition handleMouseMove (e : MapLayerMouseEvent) (c : Component) : Component :=
  let held :=
    match rafRef c with
    | Some handle => cancelAnimationFrame handle (frames c)
    | None => frames c
    end in
  {| tooltip := tooltip c;
     rafRef := Some (nextHandle c);
     frames := held ++ [(nextHandle c, e)];
     nextHandle := S (nextHandle c) |}.

Definition handleMouseLeave (c : Component) : Component :=
  {| tooltip := None;
     rafRef := None;
     frames := match rafRef c with
               | Some handle => cancelAnimationFrame handle (frames c)
               | None => frames c
               end;
     nextHandle := nextHandle c |}.

(** The browser runs the frame callback with handle [handle], if it
    still holds it. *)
Definition animationFrame (handle : nat) (scores : option IndustryScores)
    (c : Component) : Component :=
  match List.find (fun f => Nat.eqb (fst f) handle) (frames c) with
  | None => c
  | Some (_, e) =>
      frameUpdate e scores
        {| tooltip := tooltip c; rafRef := rafRef c;
           frames := cancelAnimationFrame handle (frames c);
           nextHandle := nextHandle c |}
  end.

Definition unmounted : Component :=
  {| tooltip := None; rafRef := None; frames := []; nextHandle := 0 |}.

End MapTooltip.

(** ** useIndustryData.ts: the hook over time *)

Module IndustryRun.
Import IndustryData.

(** [isValidIndustryId] *)
Definition isValidIndustryId (h : Hook) (candidate : string) : bool :=
  existsb (fun ind => String.eqb (id ind) candidate) (industries h).

(** What can happen to the hook after it was mounted. *)
Inductive Event : Type :=
| Select (selected : option string)
| CatalogSettled (result : list Industry + string)
| ScoresSettled (n : nat) (r : Response).

Definition step (e : Event) (h : Hook) : Hook :=
  match e with
  | Select selected => select selected h
  | CatalogSettled result => catalogSettled result h
  | ScoresSettled n r => scoresSettled n r h
  end.

Definition run (es : list Event) (h : Hook) : Hook :=
  fold_left (fun h e => step e h) es h.

(** What holds of the hook at every moment: nothing is requested before
    the catalog has arrived; every request made is for an id of the
    catalog that matches the identifier pattern; a request whose answer
    would still be committed is for the selected industry; and when the
    hook reports neither loading nor an error, the scores it holds are
    the cached scores of the selected industry. *)
Definition requests_validated (h : Hook) : Prop :=
  (industriesLoading h = true -> requested h = []) /\
  List.Forall (fun key => ID_FORMAT_test key = true /\
                          In key (map id (industriesRef h))) (requested h) /\
  (forall f, In f (inflight h) -> In (fetch_key f) (requested h)).

Definition consistent (h : Hook) : Prop :=
  requests_validated h /\
  (forall f, In f (inflight h) -> cancelled f = false ->
     selectedIndustryId h = Some (fetch_key f)) /\
  (scoresLoading h = false -> scoresError h = None ->
   forall body, rawScores h = Some body ->
     exists key, selectedIndustryId h = Some key /\ scoreCache h !! key = Some body).

End IndustryRun.

(** ** useCountyData.ts: [lookupByFips] *)

Module CountyLookup.
Import CountyData.

(** The members of [Object.prototype], which every object made from a
    JSON text inherits. *)
Definition Object_prototype : list string :=
  [ "constructor"; "__defineGetter__"; "__defineSetter__"; "hasOwnProperty";
    "__lookupGetter__"; "__lookupSetter__"; "isPrototypeOf";
    "propertyIsEnumerable"; "toString"; "valueOf"; "__proto__"; "toLocaleString" ].

(** What [table[key] ?? null] evaluates to: the record of an own
    property, else the member of [Object.prototype] of that name, else
    null. *)
Inductive Looked (V : Type) : Type :=
| Own (record : V)
| Inherited (member : string)
| Null.
Arguments Own {V} record.
Arguments Inherited {V} member.
Arguments Null {V}.

Definition read_property {V : Type} (table : gmap string V) (key : string) : Looked V :=
  match table !! key with
  | Some record => Own record
  | None => if existsb (String.eqb key) Object_prototype then Inherited key else Null
  end.

(** [lookupByFips], for a demographics table from fips to records of
    type [V]; the callback reads the data of the render that made it. *)
Definition lookupByFips {V : Type} (h : Hook (gmap string V)) (fips : string) : Looked V :=
  match data (stateRef h) with
  | None => Null
  | Some table => read_property table fips
  end.

(** The hook after a load succeeded and the component rendered again. *)
Definition loaded {D : Type} (h : Hook D) (d : D) : Prop :=
  state h = stateRef h /\ data (stateRef h) = Some d.

End CountyLookup.

(** ** MapTooltip.tsx: the component over time *)

Module TooltipRun.
Import MapTooltip.

(** The clean-up of the effect: the listeners are removed and a pending
    frame is cancelled. *)
Definition cleanup (c : Component) : Component :=
  {| tooltip := tooltip c;
     rafRef := None;
     frames := match rafRef c with
               | Some handle => cancelAnimationFrame handle (frames c)
               | None => frames c
               end;
     nextHandle := nextHandle c |}.

(** What can happen to the component while it is mounted; a frame runs
    with the scores of the last render. *)
Inductive Event : Type :=
| MouseMove (e : MapLayerMouseEvent)
| MouseLeave
| Frame (handle : nat) (scores : option IndustryScores).

Definition step (ev : Event) (c : Component) : Component :=
  match ev with
  | MouseMove e => handleMouseMove e c
  | MouseLeave => handleMouseLeave c
  | Frame handle scores => animationFrame handle scores c
  end.

Definition run (evs : list Event) (c : Component) : Component :=
  fold_left (fun c ev => step ev c) evs c.

Definition is_frame (ev : Event) : bool :=
  match ev with Frame _ _ => true | _ => false end.

(** At most one frame callback is held, and it is the one [rafRef]
    names. *)
Definition one_frame (c : Component) : Prop :=
  (rafRef c = None /\ frames c = []) \/
  (exists handle e, rafRef c = Some handle /\ frames c = [(handle, e)]).

End TooltipRun.

(** ** ChoroplethLayer.tsx: loading the geometry *)

Module ChoroplethLayer.

Definition SOURCE_ID : string := "counties".
Definition FILL_LAYER_ID : string := "county-fill".
Definition LINE_LAYER_ID : string := "county-line".

Inductive PaintLiteral : Type :=
| PaintString (s : string)
| PaintNumber (q : Qc).

(** A layer descriptor as passed to [map.addLayer]. *)
Record Layer : Type := {
  layer_id : string;
  layer_type : string;
  layer_source : string;
  layer_paint : list (string * PaintLiteral)
}.

Definition fill_layer : Layer :=
  {| layer_id := FILL_LAYER_ID; layer_type := "fill"; layer_source := SOURCE_ID;
     layer_paint := [ ("fill-color", PaintString NO_DATA_COLOR);
                      ("fill-opacity", PaintNumber (Q2Qc (8 # 10))) ] |}.

Definition line_layer : Layer :=
  {| layer_id := LINE_LAYER_ID; layer_type := "line"; layer_source := SOURCE_ID;
     layer_paint := [ ("line-color", PaintString "#94a3b8");
                      ("line-width", PaintNumber (Q2Qc (3 # 10))) ] |}.

Inductive Status : Type := loading | loaded | error.

(** What the request for the geometry comes back with, as [loadGeojson]
    sees it: a parsed body, or a failure (a response that is not ok, a
    rejected fetch, a body that does not parse). *)
Inductive Response : Type :=
| Parsed (body : JSON)
| Failure.

Section Engine.

(** The rendering engine, with the operations the component calls.  An
    operation that throws leaves the engine in the state it reached; the
    flag tells whether it returned normally. *)
Variable Engine : Type.
Variable getSource : Engine -> string -> bool.
Variable addSource : Engine -> string -> JSON -> Engine * bool.
Variable addLayer : Engine -> Layer -> Engine * bool.

Definition addSourceAndLayers (map : Engine) (geojson : JSON) : Engine * bool :=
  let (map1, returned1) := addSource map SOURCE_ID geojson in
  if negb returned1 then (map1, false)
  else
    let (map2, returned2) := addLayer map1 fill_layer in
    if negb returned2 then (map2, false)
    else addLayer map2 line_layer.

(** The engine, the status and the cached geometry MapView holds, the
    ref of the component, and the requests for the geometry: how many
    were made, and those not answered yet with the [cancelled] flag of
    the effect run that made them. *)
Record View : Type := {
  map : Engine;
  geojsonStatus : Status;
  geojsonRef : option JSON;
  loadedRef : bool;
  requests : nat;
  inflight : list (nat * bool)
}.

Definition set_status (status : Status) (isLoaded : bool) (v : View) : View :=
  {| map := map v; geojsonStatus := status; geojsonRef := geojsonRef v;
     loadedRef := isLoaded; requests := requests v; inflight := inflight v |}.

Definition set_map (engine : Engine) (v : View) : View :=
  {| map := engine; geojsonStatus := geojsonStatus v; geojsonRef := geojsonRef v;
     loadedRef := loadedRef v; requests := requests v; inflight := inflight v |}.

(** The clean-up of the previous run of the effect. *)
Definition cleanup (v : View) : View :=
  {| map := map v; geojsonStatus := geojsonStatus v; geojsonRef := geojsonRef v;
     loadedRef := loadedRef v; requests := requests v;
     inflight := List.map (fun r => (fst r, true)) (inflight v) |}.

(** [loadGeojson()] up to its first [await]. *)
Definition start_request (v : View) : View :=
  {| map := map v; geojsonStatus := geojsonStatus v; geojsonRef := geojsonRef v;
     loadedRef := loadedRef v; requests := S (requests v);
     inflight := inflight v ++ [(requests v, false)] |}.

(** The body of the effect; [mapPresent] tells whether the [map]
    property is set. *)
Definition loadEffectBody (mapPresent : bool) (v : View) : View :=
  if negb mapPresent then v
  else
    match geojsonStatus v with
    | loading =>
        if getSource (map v) SOURCE_ID then set_status loaded true v
        else
          match geojsonRef v with
          | Some cachedGeojson =>
              let (engine, returned) := addSourceAndLayers (map v) cachedGeojson in
              if returned then set_status loaded true (set_map engine v)
              else start_request (set_map engine v)
          | None => start_request v
          end
    | _ => v
    end.

Definition loadEffect (mapPresent : bool) (v : View) : View :=
  loadEffectBody mapPresent (cleanup v).

Definition without_request (n : nat) (v : View) : View :=
  {| map := map v; geojsonStatus := geojsonStatus v; geojsonRef := geojsonRef v;
     loadedRef := loadedRef v; requests := requests v;
     inflight := List.filter (fun r => negb (Nat.eqb (fst r) n)) (inflight v) |}.

(** The answer to request [n] arrives and [loadGeojson] resumes. *)
Definition geojsonSettled (n : nat) (r : Response) (v : View) : View :=
  match List.find (fun r => Nat.eqb (fst r) n) (inflight v) with
  | None => v
  | Some (_, cancelled) =>
      let v := without_request n v in
      match r with
      | Failure => if cancelled then v else set_status error (loadedRef v) v
      | Parsed geojson =>
          if cancelled then v
          else
            match validateGeoJSON geojson with
            | Returns true =>
                let (engine, returned) := addSourceAndLayers (map v) geojson in
                if returned then
                  {| map := engine; geojsonStatus := loaded;
                     geojsonRef := Some geojson; loadedRef := true;
                     requests := requests v; inflight := inflight v |}
                else set_status error (loadedRef v) (set_map engine v)
            | _ => set_status error (loadedRef v) v
            end
      end
  end.

(** The style switch of MapView as the layer sees it: the status is set
    back to loading, the engine has lost its sources and layers, and the
    component is mounted anew once the map is ready again, with a fresh
    [loadedRef]. *)
Definition restyled (engine : Engine) (v : View) : View :=
  {| map := engine; geojsonStatus := loading; geojsonRef := geojsonRef v;
     loadedRef := false; requests := requests v; inflight := inflight (cleanup v) |}.

(** [handleClick]: the join key of the clicked feature, or null. *)
Definition handleClick (features : option (list GeoJSON.Feature)) : option string :=
  match features with
  | Some (feature :: _) => GeoJSON.property GeoJSON.GEOID feature
  | _ => None
  end.

End Engine.

(** A small engine for examples: the ids of its sources and layers.
    Adding an id twice throws. *)
Definition ids_getSource (e : list string) (id : string) : bool :=
  existsb (String.eqb id) e.

Definition ids_addSource (e : list string) (id : string) (data : JSON) : list string * bool :=
  if existsb (String.eqb id) e then (e, false) else (id :: e, true).

Definition ids_addLayer (e : list string) (layer : Layer) : list string * bool :=
  if existsb (String.eqb (layer_id layer)) e then (e, false)
  else (layer_id layer :: e, true).

End ChoroplethLayer.

(** ** Notions used to state the properties *)

(** The smaller and the larger of two finite numbers, as the loop
    bodies [if (x < m) m = x] and [if (x > m) m = x] compute them. *)
Definition keep_min (m x : Qc) : Qc := if Qcltb x m then x else m.
Definition keep_max (m x : Qc) : Qc := if Qcltb m x then x else m.

Definition least (lo : Qc) (xs : list Qc) : Prop :=
  In lo xs /\ forall x, In x xs -> (lo <= x)%Qc.

Definition greatest (hi : Qc) (xs : list Qc) : Prop :=
  In hi xs /\ forall x, In x xs -> (x <= hi)%Qc.

(** The upper bound of the normalisation: the greatest value, forced to
    the least value plus one, as binary64 adds, when the two coincide. *)
Definition range_max (lo hi : Qc) : num :=
  if Qceqb hi lo then Binary64.add (Fin lo) (Fin 1) else Fin hi.

(** [(raw - min) / (max - min) * 100] in the arithmetic of the language. *)
Definition scaled (raw min max : num) : num :=
  Binary64.mul (Binary64.div (Binary64.sub raw min) (Binary64.sub max min))
               (Fin (Q2Qc 100)).

(** All values an object's entries carry for a metric. *)
Definition metric_values (scores : IndustryScores) (metric : MetricKey.t) : list Qc :=
  map (fun kv => metric_field metric (snd kv)) scores.

(** Descending order of scores. *)
Definition score_desc (a b : CountyScore) : Prop := (score b <= score a)%Qc.

(** The order a tie-break by fips would give: a higher score first and,
    for equal scores, the smaller fips first. *)
Definition fips_tiebreak_pair (a b : CountyScore) : bool :=
  Qcltb (score b) (score a)
  || (Qceqb (score a) (score b) && String.leb (fips a) (fips b)).

Fixpoint fips_tiebreak_order (l : list CountyScore) : bool :=
  match l with
  | a :: ((b :: _) as rest) => fips_tiebreak_pair a b && fips_tiebreak_order rest
  | _ => true
  end.

(** The entries of a list that carry the score [s], in their order. *)
Definition with_score (s : Qc) (l : list CountyScore) : list CountyScore :=
  List.filter (fun e => Qceqb (score e) s) l.

(** The comparator [(a, b) => b.score - a.score] of [topCounties]. *)
Definition by_score_desc (a b : CountyScore) : num :=
  js_sub (Fin (score b)) (Fin (score a)).

(** A feature that carries the join key and a nested geometry object. *)
Definition feature_has_key_and_geometry (f : JSON) : bool :=
  match f with
  | JNull => false
  | _ => is_string (optional_member (member f "properties") "GEOID")
         && is_object (member f "geometry")
  end.

(** The shape that requires the join key and the geometry of every
    feature of the collection. *)
Definition every_feature_shape (data : JSON) : bool :=
  is_object (Some data)
  && is_literal (member data "type") "FeatureCollection"
  && match member data "features" with
     | Some (JArray features) => forallb feature_has_key_and_geometry features
     | _ => false
     end.

(** The shape the validator checks: only the first feature is looked at,
    and it must also be tagged as a feature. *)
Definition first_feature_shape (data : JSON) : Prop :=
  exists props features,
    data = JObject props /\
    own_property props "type" = Some (JString "FeatureCollection") /\
    own_property props "features" = Some (JArray features) /\
    match features with
    | [] => True
    | first :: _ =>
        member first "type" = Some (JString "Feature") /\
        is_object (member first "geometry") = true /\
        exists geoid, optional_member (member first "properties") "GEOID"
                      = Some (JString geoid)
    end.

(** The hook after a load failed and the component rendered again: the
    failure is visible through the ref and nothing is in flight on its
    behalf. *)
Definition failed {D : Type} (h : CountyData.Hook D) : Prop :=
  CountyData.state h = CountyData.stateRef h /\
  CountyData.data (CountyData.stateRef h) = None /\
  truthy (CountyData.error (CountyData.stateRef h)) = true /\
  CountyData.fetchedRef h = true /\
  CountyData.promiseRef h = None.

(** The invariant of the demographics hook: at most one fetch is pending,
    it is the one [promiseRef] holds, and no data is present while it is
    pending. *)
Definition single_flight {D : Type} (h : CountyData.Hook D) : Prop :=
  (CountyData.pending h = [] \/
   exists p, CountyData.pending h = [p] /\
             CountyData.promiseRef h = Some p /\
             CountyData.data (CountyData.state h) = None /\
             CountyData.data (CountyData.stateRef h) = None) /\
  (CountyData.promiseRef h = None -> CountyData.data (CountyData.state h) = None).

(** The bounding box of a list of features, stated on the flat list of
    their positions. *)
Module BoundingBox.
Import GeoJSON FitBounds.

(** All positions below a coordinate array, at any depth. *)
Fixpoint positions (c : Coordinates) : list (list Qc) :=
  match c with
  | Position components => [components]
  | Nested items =>
      (fix all (l : list Coordinates) : list (list Qc) :=
         match l with
         | [] => []
         | x :: rest => (positions x ++ all rest)%list
         end) items
  end.

(** The positions the walk visits for a feature: none for a missing
    geometry or a geometry collection. *)
Definition walked (feature : Feature) : list (list Qc) :=
  match geometry feature with
  | Some (Shape _ coordinates) => positions coordinates
  | _ => []
  end.

(** A position the walk visits: a position of one of the features whose
    geometry carries coordinates. *)
Definition visited (features : list Feature) (position : list Qc) : Prop :=
  exists feature kind coordinates,
    In feature features /\
    geometry feature = Some (Shape kind coordinates) /\
    In position (positions coordinates).

Definition lng_of (position : list Qc) : list Qc :=
  match position with
  | lng :: _ => [lng]
  | [] => []
  end.

Definition lat_of (position : list Qc) : list Qc :=
  match position with
  | _ :: lat :: _ => [lat]
  | _ => []
  end.

(** The least and the greatest of a list of numbers; Infinity and
    -Infinity for the empty list. *)
Definition min_of (l : list Qc) : num :=
  match l with
  | [] => PosInf
  | x :: rest => Fin (fold_left keep_min rest x)
  end.

Definition max_of (l : list Qc) : num :=
  match l with
  | [] => NegInf
  | x :: rest => Fin (fold_left keep_max rest x)
  end.

Definition box_from (lngs lats : list Qc) : Box :=
  {| minLng := min_of lngs; minLat := min_of lats;
     maxLng := max_of lngs; maxLat := max_of lats |}.

Definition lngs (features : list Feature) : list Qc :=
  flat_map lng_of (flat_map walked features).

Definition lats (features : list Feature) : list Qc :=
  flat_map lat_of (flat_map walked features).

Definition bounding_box (features : list Feature) : Box :=
  box_from (lngs features) (lats features).

(** Min strictly less than max on both axes. *)
Definition non_degenerate (box : Box) : Prop :=
  js_lt (minLng box) (maxLng box) = true /\ js_lt (minLat box) (maxLat box) = true.

(** The features whose region code is [code]. *)
Definition in_region (code : string) (features : list Feature) : list Feature :=
  List.filter (fun f => match property STATE f with
                        | Some c => String.eqb c code
                        | None => false
                        end) features.

(** The entry the abbreviation resolves to in the table. *)
Definition resolve (stateList : list StateEntry) (abbr : string) : option StateEntry :=
  List.find (fun s => String.eqb (abbreviation s) abbr) stateList.

End BoundingBox.

(** ** Sample data, after the fixtures of the test suites *)

Definition makeCountyScore (fips0 : string) (score0 establishmentCount0
    populationPerBiz0 : Z) : CountyScore :=
  {| fips := fips0; name := "Test County"; state := "TX";
     score := Q2Qc (inject_Z score0);
     establishmentCount := Q2Qc (inject_Z establishmentCount0);
     populationPerBiz := Q2Qc (inject_Z populationPerBiz0) |}.

Definition same_value_scores : IndustryScores :=
  [ ("48001", makeCountyScore "48001" 50 10 200);
    ("48002", makeCountyScore "48002" 60 110 200) ].

(** Numbers of binary64 in the representation of the IEEE 754
    specification: significand and exponent. *)
Definition spec_samples : list spec_float :=
  [ S754_zero false;
    S754_finite false 4503599627370496 (-52);      (* 1 *)
    S754_finite false 6755399441055744 (-51);      (* 3 *)
    S754_finite false 7205759403792794 (-56);      (* 0.1 *)
    S754_finite true 7036874417766400 (-46);       (* -100 *)
    S754_finite false 4503599627370496 1;          (* 2^53 *)
    S754_finite false 9007199254740991 971;        (* the greatest number *)
    S754_finite true 8517228127235241 971;         (* about -1.7e308 *)
    S754_finite false 1 (-1074);                   (* the least positive number *)
    S754_infinity false ].

Definition same_number (a b : num) : bool :=
  match a, b with
  | NaN, NaN => true
  | _, _ => js_strict_eq a b
  end.

(** An operation of the specification and an operation of [Binary64]
    give the same number on every pair of samples. *)
Definition agrees_on_samples (spec : spec_float -> spec_float -> spec_float)
    (op : num -> num -> num) : bool :=
  forallb (fun a =>
             forallb (fun b => same_number (Binary64.of_spec (spec a b))
                                           (op (Binary64.of_spec a) (Binary64.of_spec b)))
                     spec_samples)
          spec_samples.

(** Two counties with 2^53 establishments each, and three counties
    whose establishment counts are 0, 1 and 3. *)
Definition absorbed_scores : IndustryScores :=
  [ ("48001", makeCountyScore "48001" 50 9007199254740992 200);
    ("48002", makeCountyScore "48002" 60 9007199254740992 200) ].

Definition third_scores : IndustryScores :=
  [ ("48001", makeCountyScore "48001" 50 0 200);
    ("48002", makeCountyScore "48002" 60 1 200);
    ("48003", makeCountyScore "48003" 70 3 200) ].

(** Two counties with equal scores.  The key 48201 is an array index and
    the key 06037, which starts with a zero, is not: whatever the order
    in which the two were written, the object enumerates 48201 first. *)
Definition tied_scores : IndustryScores :=
  [ ("48201", makeCountyScore "48201" 50 45 102000);
    ("06037", makeCountyScore "06037" 50 200 50000) ].

Definition feature_json (geoid : string) : JSON :=
  JObject [ ("type", JString "Feature");
            ("properties", JObject [("GEOID", JString geoid); ("NAME", JString "Harris");
                                    ("STATE", JString "48")]);
            ("geometry", JObject [("type", JString "Polygon"); ("coordinates", JArray [])]) ].

(** A second feature without join key and without geometry. *)
Definition bare_feature_json : JSON :=
  JObject [ ("type", JString "Feature"); ("properties", JObject []); ("geometry", JNull) ].

(** A feature with join key and geometry that lacks the feature tag. *)
Definition untagged_feature_json : JSON :=
  JObject [ ("properties", JObject [("GEOID", JString "48201")]);
            ("geometry", JObject [("type", JString "Polygon"); ("coordinates", JArray [])]) ].

Definition collection_json (features : list JSON) : JSON :=
  JObject [ ("type", JString "FeatureCollection"); ("features", JArray features) ].

(** A demographics table reduced to the population per fips. *)
Definition MOCK_DEMOGRAPHICS : list (string * Z) :=
  [ ("12011", 1944375%Z); ("48201", 4731145%Z) ].

Definition MOCK_INDUSTRIES : list IndustryData.Industry :=
  [ {| IndustryData.id := "coffee-shops"; IndustryData.label := "Coffee Shops";
       IndustryData.naicsCodes := ["722515"];
       IndustryData.description := "Coffee & snack bars" |};
    {| IndustryData.id := "gyms"; IndustryData.label := "Gyms & Fitness";
       IndustryData.naicsCodes := ["713940"];
       IndustryData.description := "Fitness centers" |} ].

(** The hook once the catalog has arrived, nothing selected. *)
Definition catalog_loaded : IndustryData.Hook :=
  IndustryData.catalogSettled (inl MOCK_INDUSTRIES) (IndustryData.mounted None).

(** Two entries of the state table and a collection with one county of
    the first state. *)
Definition sample_stateList : list FitBounds.StateEntry :=
  [ {| FitBounds.abbreviation := "TX"; FitBounds.name := "Texas"; FitBounds.fips := "48" |};
    {| FitBounds.abbreviation := "DC"; FitBounds.name := "District of Columbia";
       FitBounds.fips := "11" |} ].

Definition harris_feature : GeoJSON.Feature :=
  {| GeoJSON.properties :=
       Some {| GeoJSON.GEOID := Some "48201"; GeoJSON.NAME := Some "Harris";
               GeoJSON.STATE := Some "48" |};
     GeoJSON.geometry :=
       Some (GeoJSON.Shape "Polygon"
               (GeoJSON.Nested
                  [GeoJSON.Nested
                     [GeoJSON.Position [Q2Qc (-959 # 10); Q2Qc (295 # 10)];
                      GeoJSON.Position [Q2Qc (-949 # 10); Q2Qc (295 # 10)];
                      GeoJSON.Position [Q2Qc (-949 # 10); Q2Qc (302 # 10)];
                      GeoJSON.Position [Q2Qc (-959 # 10); Q2Qc (295 # 10)]]])) |}.

Definition sample_collection : GeoJSON.FeatureCollection :=
  {| GeoJSON.features := [harris_feature] |}.

(** A feature of the same state whose geometry is a geometry collection
    with one point far from the county. *)
Definition scattered_feature : GeoJSON.Feature :=
  {| GeoJSON.properties :=
       Some {| GeoJSON.GEOID := Some "48999"; GeoJSON.NAME := Some "Scattered";
               GeoJSON.STATE := Some "48" |};
     GeoJSON.geometry :=
       Some (GeoJSON.GeometryCollection
               [GeoJSON.Shape "Point" (GeoJSON.Position [Q2Qc 50; Q2Qc 50])]) |}.

(** A county without display name, and a pointer event over a feature. *)
Definition nameless_feature : GeoJSON.Feature :=
  {| GeoJSON.properties :=
       Some {| GeoJSON.GEOID := Some "48201"; GeoJSON.NAME := None;
               GeoJSON.STATE := Some "48" |};
     GeoJSON.geometry := None |}.

Definition pointer_over (feature : GeoJSON.Feature) : MapTooltip.MapLayerMouseEvent :=
  {| MapTooltip.features := Some [feature];
     MapTooltip.point := (Q2Qc 120, Q2Qc 80) |}.

(** The catalog arrives and the first industry is selected: request
    number 0 is under way. *)
Definition coffee_selected : list IndustryRun.Event :=
  [ IndustryRun.CatalogSettled (inl MOCK_INDUSTRIES);
    IndustryRun.Select (Some "coffee-shops") ].

Definition coffee_fetch (isCancelled : bool) : IndustryData.Fetch :=
  {| IndustryData.fetch_no := 0; IndustryData.fetch_key := "coffee-shops";
     IndustryData.cancelled := isCancelled |}.

(** A demographics table as a finite map from fips to population. *)
Definition population_table : gmap string Z :=
  <["12011" := 1944375%Z]> (<["48201" := 4731145%Z]> ∅).

(** The layer view at mount on the example engine, and a well-formed
    payload. *)
Definition fresh_view : ChoroplethLayer.View (list string) :=
  {| ChoroplethLayer.map := []; ChoroplethLayer.geojsonStatus := ChoroplethLayer.loading;
     ChoroplethLayer.geojsonRef := None; ChoroplethLayer.loadedRef := false;
     ChoroplethLayer.requests := 0; ChoroplethLayer.inflight := [] |}.

Definition requesting_view : ChoroplethLayer.View (list string) :=
  ChoroplethLayer.loadEffect (list string) ChoroplethLayer.ids_getSource
    ChoroplethLayer.ids_addSource ChoroplethLayer.ids_addLayer true fresh_view.

Definition counties_payload : JSON := collection_json [feature_json "48201"].

(** * Properties *)

(** ** Comparisons on finite numbers *)

Lemma Qcltb_lt (a b : Qc) : Qcltb a b = true <-> (a < b)%Qc.
Proof.
  unfold Qcltb, Qclt. rewrite negb_true_iff.
  split.
  - intros H. apply Qnot_le_lt. intros Hle.
    apply Qle_bool_iff in Hle. congruence.
  - intros H. destruct (Qle_bool b a) eqn:E; [|reflexivity].
    apply Qle_bool_iff in E. exfalso. exact (Qlt_not_le _ _ H E).
Qed.

Lemma Qcltb_ge (a b : Qc) : Qcltb a b = false <-> (b <= a)%Qc.
Proof.
  unfold Qcltb, Qcle. rewrite negb_false_iff. apply Qle_bool_iff.
Qed.

Lemma Qcltb_irrefl (a : Qc) : Qcltb a a = false.
Proof. apply Qcltb_ge, Qcle_refl. Qed.

Lemma Qceqb_eq (a b : Qc) : Qceqb a b = true <-> a = b.
Proof.
  unfold Qceqb. rewrite Qeq_bool_iff. split.
  - apply Qc_is_canon.
  - intros ->. reflexivity.
Qed.

Lemma Qceqb_refl (a : Qc) : Qceqb a a = true.
Proof. apply Qceqb_eq. reflexivity. Qed.

Lemma Qceqb_neq (a b : Qc) : Qceqb a b = false <-> a <> b.
Proof.
  split.
  - intros H E. apply Qceqb_eq in E. congruence.
  - intros H. destruct (Qceqb a b) eqn:E; [|reflexivity].
    apply Qceqb_eq in E. contradiction.
Qed.

Lemma Qc_one_neq_zero : (1 : Qc) <> 0%Qc.
Proof. intros H. discriminate H. Qed.

Lemma Qcminus_diag_zero (a b : Qc) : (a - b = 0)%Qc -> a = b.
Proof.
  intros H. replace a with ((a - b) + b)%Qc by ring. rewrite H. ring.
Qed.

Lemma keep_min_fold (xs : list Qc) (m : Qc) :
  let r := fold_left keep_min xs m in
  (r = m \/ In r xs) /\ (r <= m)%Qc /\ forall x, In x xs -> (r <= x)%Qc.
Proof.
  revert m. induction xs as [|x xs IH]; intros m; simpl.
  - split; [now left|]. split; [apply Qcle_refl|]. intros x [].
  - destruct (IH (keep_min m x)) as (Hin & Hle & Hall).
    assert (Hk : (keep_min m x <= m)%Qc /\ (keep_min m x <= x)%Qc
                 /\ (keep_min m x = m \/ keep_min m x = x)).
    { unfold keep_min. destruct (Qcltb x m) eqn:E.
      - apply Qcltb_lt in E. split; [now apply Qclt_le_weak|].
        split; [apply Qcle_refl|now right].
      - apply Qcltb_ge in E. split; [apply Qcle_refl|]. split; [exact E|now left]. }
    destruct Hk as (Hm & Hx & Hor).
    split; [|split].
    + destruct Hin as [-> | Hin]; [|now right; right].
      destruct Hor as [-> | ->]; [now left|now right; left].
    + eapply Qcle_trans; eauto.
    + intros y [<- | Hy]; [eapply Qcle_trans; eauto|now apply Hall].
Qed.

Lemma keep_max_fold (xs : list Qc) (m : Qc) :
  let r := fold_left keep_max xs m in
  (r = m \/ In r xs) /\ (m <= r)%Qc /\ forall x, In x xs -> (x <= r)%Qc.
Proof.
  revert m. induction xs as [|x xs IH]; intros m; simpl.
  - split; [now left|]. split; [apply Qcle_refl|]. intros x [].
  - destruct (IH (keep_max m x)) as (Hin & Hle & Hall).
    assert (Hk : (m <= keep_max m x)%Qc /\ (x <= keep_max m x)%Qc
                 /\ (keep_max m x = m \/ keep_max m x = x)).
    { unfold keep_max. destruct (Qcltb m x) eqn:E.
      - apply Qcltb_lt in E. split; [now apply Qclt_le_weak|].
        split; [apply Qcle_refl|now right].
      - apply Qcltb_ge in E. split; [apply Qcle_refl|]. split; [exact E|now left]. }
    destruct Hk as (Hm & Hx & Hor).
    split; [|split].
    + destruct Hin as [-> | Hin]; [|now right; right].
      destruct Hor as [-> | ->]; [now left|now right; left].
    + eapply Qcle_trans; eauto.
    + intros y [<- | Hy]; [eapply Qcle_trans; eauto|now apply Hall].
Qed.

Lemma least_fold (x : Qc) (xs : list Qc) :
  least (fold_left keep_min xs x) (x :: xs).
Proof.
  destruct (keep_min_fold xs x) as (Hin & Hle & Hall). split.
  - destruct Hin as [-> | Hin]; [now left|now right].
  - intros y [<- | Hy]; auto.
Qed.

Lemma greatest_fold (x : Qc) (xs : list Qc) :
  greatest (fold_left keep_max xs x) (x :: xs).
Proof.
  destruct (keep_max_fold xs x) as (Hin & Hle & Hall). split.
  - destruct Hin as [-> | Hin]; [now left|now right].
  - intros y [<- | Hy]; auto.
Qed.

Lemma least_unique (a b : Qc) (xs : list Qc) : least a xs -> least b xs -> a = b.
Proof. intros [Ha Ha'] [Hb Hb']. apply Qcle_antisym; auto. Qed.

Lemma greatest_unique (a b : Qc) (xs : list Qc) :
  greatest a xs -> greatest b xs -> a = b.
Proof. intros [Ha Ha'] [Hb Hb']. apply Qcle_antisym; auto. Qed.

(** ** Binary64 rounding *)

Module Binary64Facts.
Import Binary64.

Local Open Scope Q_scope.

Lemma two_nonzero : ~ (2 # 1) == 0.
Proof. discriminate. Qed.

Lemma pow2_pos (e : Z) : 0 < pow2 e.
Proof. apply Qpower_0_lt. reflexivity. Qed.

Lemma pow2_add (a b : Z) : pow2 (a + b) == pow2 a * pow2 b.
Proof. apply Qpower_plus, two_nonzero. Qed.

Lemma pow2_le (a b : Z) : (a <= b)%Z -> pow2 a <= pow2 b.
Proof. intros H. apply Qpower_le_compat_l; [exact H|discriminate]. Qed.

Lemma pow2_lt (a b : Z) : (a < b)%Z -> pow2 a < pow2 b.
Proof. intros H. apply Qpower_lt_compat_l; [exact H|reflexivity]. Qed.

Lemma pow2_Z (n : Z) : (0 <= n)%Z -> pow2 n == inject_Z (2 ^ n).
Proof. intros H. unfold pow2. rewrite Zpower_Qpower by exact H. reflexivity. Qed.

Lemma pow2_le_inv (a b : Z) : pow2 a <= pow2 b -> (a <= b)%Z.
Proof.
  intros H. destruct (Z.le_gt_cases a b) as [Hle | Hgt]; [exact Hle|].
  exfalso. apply (Qlt_not_le _ _ (pow2_lt b a Hgt)). exact H.
Qed.

Lemma log2_bounds (a : Z) :
  (0 < a)%Z -> pow2 (Z.log2 a) <= inject_Z a /\ inject_Z a < pow2 (Z.log2 a + 1).
Proof.
  intros Ha. destruct (Z.log2_spec a Ha) as [Hlo Hhi].
  pose proof (Z.log2_nonneg a) as Hnn.
  rewrite !pow2_Z by lia. split.
  - rewrite <- Zle_Qle. exact Hlo.
  - rewrite <- Zlt_Qlt. replace (Z.log2 a + 1)%Z with (Z.succ (Z.log2 a)) by lia. exact Hhi.
Qed.

Lemma Qabs_times_den (x : Q) :
  Qabs x * inject_Z (Zpos (Qden x)) == inject_Z (Z.abs (Qnum x)).
Proof.
  destruct x as [n d]. unfold Qabs, Qeq. simpl. lia.
Qed.

Lemma num_abs_pos (x : Q) : ~ x == 0 -> (0 < Z.abs (Qnum x))%Z.
Proof.
  intros Hx. destruct x as [n d]. simpl. unfold Qeq in Hx. simpl in Hx. lia.
Qed.

(** The exponent is the integer part of the binary logarithm. *)
Lemma exponent_spec (x : Q) :
  ~ x == 0 -> pow2 (exponent x) <= Qabs x /\ Qabs x < pow2 (exponent x + 1).
Proof.
  intros Hx. unfold exponent.
  set (a := Z.abs (Qnum x)). set (b := Zpos (Qden x)).
  assert (Ha : (0 < a)%Z) by (apply num_abs_pos, Hx).
  assert (Hb : (0 < b)%Z) by reflexivity.
  destruct (log2_bounds a Ha) as [Hal Hau]. destruct (log2_bounds b Hb) as [Hbl Hbu].
  pose proof (Qabs_times_den x) as Hab. fold a b in Hab.
  assert (HB : 0 < inject_Z b) by (rewrite (Zlt_Qlt 0 b) in Hb; exact Hb).
  set (e := (Z.log2 a - Z.log2 b)%Z).
  assert (Hup : Qabs x < pow2 (e + 1)).
  { apply (Qmult_lt_r _ _ (inject_Z b) HB). rewrite Hab.
    assert (E : pow2 (Z.log2 a + 1) == pow2 (e + 1) * pow2 (Z.log2 b)).
    { rewrite <- pow2_add. unfold e. replace (Z.log2 a - Z.log2 b + 1 + Z.log2 b)%Z
        with (Z.log2 a + 1)%Z by lia. reflexivity. }
    pose proof (pow2_pos (e + 1)) as Hp.
    assert (Hm : pow2 (e + 1) * pow2 (Z.log2 b) <= pow2 (e + 1) * inject_Z b)
      by (apply Qmult_le_l; assumption).
    lra. }
  assert (Hlow : pow2 (e - 1) < Qabs x).
  { apply (Qmult_lt_r _ _ (inject_Z b) HB). rewrite Hab.
    assert (E : pow2 (Z.log2 a) == pow2 (e - 1) * pow2 (Z.log2 b + 1)).
    { rewrite <- pow2_add. unfold e. replace (Z.log2 a - Z.log2 b - 1 + (Z.log2 b + 1))%Z
        with (Z.log2 a) by lia. reflexivity. }
    pose proof (pow2_pos (e - 1)) as Hp.
    assert (Hm : pow2 (e - 1) * inject_Z b < pow2 (e - 1) * pow2 (Z.log2 b + 1))
      by (apply Qmult_lt_l; assumption).
    lra. }
  destruct (Qle_bool (pow2 e) (Qabs x)) eqn:E.
  - apply Qle_bool_iff in E. split; assumption.
  - split; [apply Qlt_le_weak, Hlow|].
    replace (e - 1 + 1)%Z with e by lia.
    apply Qnot_le_lt. intros H. apply Qle_bool_iff in H. congruence.
Qed.

Lemma exponent_ge (x : Q) (k : Z) : pow2 k <= Qabs x -> (k <= exponent x)%Z.
Proof.
  intros H.
  assert (Hx : ~ x == 0).
  { intros E. rewrite E in H. pose proof (pow2_pos k).
    change (Qabs 0) with 0 in H. lra. }
  destruct (exponent_spec x Hx) as [_ Hu].
  assert (Hlt : pow2 k < pow2 (exponent x + 1)) by lra.
  destruct (Z.le_gt_cases k (exponent x)) as [Hle | Hgt]; [exact Hle|].
  exfalso. assert (pow2 (exponent x + 1) <= pow2 k) by (apply pow2_le; lia). lra.
Qed.

Lemma exponent_lt (x : Q) (k : Z) : ~ x == 0 -> Qabs x < pow2 k -> (exponent x < k)%Z.
Proof.
  intros Hx H. destruct (exponent_spec x Hx) as [Hl _].
  destruct (Z.lt_ge_cases (exponent x) k) as [Hlt | Hge]; [exact Hlt|].
  exfalso. assert (pow2 k <= pow2 (exponent x)) by (apply pow2_le; lia). lra.
Qed.

(** The nearest integer lies between the floor and its successor. *)
Lemma rne_bounds (x : Q) : (Qfloor x <= rne x <= Qfloor x + 1)%Z.
Proof.
  unfold rne. destruct (Qcompare _ _); [destruct (Z.even _)|..]; lia.
Qed.

Lemma rne_ge (x : Q) (k : Z) : inject_Z k <= x -> (k <= rne x)%Z.
Proof.
  intros H. apply Qfloor_resp_le in H. rewrite Qfloor_Z in H.
  pose proof (rne_bounds x). lia.
Qed.

Lemma rne_le (x : Q) (k : Z) : x <= inject_Z k -> (rne x <= k)%Z.
Proof.
  intros H. pose proof (Qfloor_resp_le _ _ H) as Hf. rewrite Qfloor_Z in Hf.
  destruct (Z.eq_dec (Qfloor x) k) as [E | N].
  - unfold rne. rewrite E.
    assert (Hc : (x - inject_Z k ?= 1 # 2) = Lt).
    { apply (proj1 (Qlt_alt _ _)). lra. }
    rewrite Hc. lia.
  - pose proof (rne_bounds x). lia.
Qed.

Lemma rne_Z (k : Z) : rne (inject_Z k) = k.
Proof.
  apply Z.le_antisymm; [apply rne_le|apply rne_ge]; apply Qle_refl.
Qed.

(** *** The rounded value *)

Lemma round_zero : round 0 = Fin 0.
Proof. reflexivity. Qed.

Lemma Qceqb_zero (x : Qc) : Qceqb x 0 = false -> ~ x == 0.
Proof.
  intros H E. apply Qceqb_neq in H. apply H. apply Qc_is_canon. exact E.
Qed.

Lemma round_nonzero_eq (x : Qc) :
  Qceqb x 0 = false ->
  round x =
  let n := rne (x / pow2 (quantum x)) in
  let y := inject_Z n * pow2 (quantum x) in
  if Qle_bool (pow2 1024) (Qabs y) then inf_of_sign (0 <? n)%Z else Fin (Q2Qc y).
Proof. intros H. unfold round. rewrite H. reflexivity. Qed.

Lemma round_not_NaN (x : Qc) : round x <> NaN.
Proof.
  unfold round. destruct (Qceqb x 0); [discriminate|].
  cbv zeta. destruct (Qle_bool _ _); [|discriminate].
  destruct (0 <? _)%Z; discriminate.
Qed.

Lemma quantum_ge (x : Q) : (-1074 <= quantum x)%Z.
Proof. unfold quantum. lia. Qed.

Lemma quantum_le_exponent (x : Q) :
  (-1074 <= exponent x)%Z -> (quantum x <= exponent x)%Z.
Proof. unfold quantum. lia. Qed.

Lemma pow2_quantum (q : Z) :
  (-1074 <= q)%Z -> pow2 q == inject_Z (2 ^ (q + 1074)) * pow2 (-1074).
Proof.
  intros H. rewrite <- pow2_Z by lia. rewrite <- pow2_add.
  replace (q + 1074 + -1074)%Z with q by lia. reflexivity.
Qed.

Lemma round_grid (x y : Qc) : round x = Fin y -> grid y.
Proof.
  unfold round. destruct (Qceqb x 0).
  - intros E. inversion E; subst. exists 0%Z. reflexivity.
  - cbv zeta. destruct (Qle_bool _ _).
    + destruct (0 <? _)%Z; discriminate.
    + intros E. inversion E; subst. clear E.
      set (n := rne (x / pow2 (quantum x))).
      exists (n * 2 ^ (quantum x + 1074))%Z.
      change (Qred (inject_Z n * pow2 (quantum x))
              == inject_Z (n * 2 ^ (quantum x + 1074)) * pow2 (-1074)).
      rewrite Qred_correct, inject_Z_mult.
      rewrite (pow2_quantum (quantum x)) by apply quantum_ge. ring.
Qed.

Lemma grid_minus (a b : Q) : grid a -> grid b -> grid (a - b).
Proof.
  intros [m Hm] [n Hn]. exists (m - n)%Z. rewrite Hm, Hn.
  unfold Zminus. rewrite inject_Z_plus, inject_Z_opp. ring.
Qed.

Lemma grid_nonzero (y : Q) :
  grid y -> ~ y == 0 -> pow2 (-1074) <= y \/ y <= - pow2 (-1074).
Proof.
  intros [m Hm] Hy. pose proof (pow2_pos (-1074)) as Hp.
  assert (Hm0 : m <> 0%Z).
  { intros ->. apply Hy. rewrite Hm. ring. }
  destruct (Z.lt_trichotomy m 0) as [Hlt | [E | Hgt]]; [|contradiction|].
  - right. assert (inject_Z m <= -1)
      by (change (inject_Z m <= inject_Z (-1)); rewrite <- Zle_Qle; lia).
    rewrite Hm. nra.
  - left. assert (1 <= inject_Z m)
      by (change (inject_Z 1 <= inject_Z m); rewrite <- Zle_Qle; lia).
    rewrite Hm. nra.
Qed.

(** A number of magnitude at least [2^-1074] does not round to zero,
    and rounding keeps its sign. *)
Lemma round_positive (x : Qc) :
  pow2 (-1074) <= x ->
  round x = PosInf \/ exists y : Qc, round x = Fin y /\ 0 < y.
Proof.
  intros Hx. pose proof (pow2_pos (-1074)) as Hp.
  assert (Hpos : 0 < x) by lra.
  assert (Habs : Qabs x == x) by (apply Qabs_pos; lra).
  assert (Hne : Qceqb x 0 = false).
  { apply Qceqb_neq. intros E. rewrite E in Hpos. discriminate Hpos. }
  rewrite (round_nonzero_eq x Hne). cbv zeta.
  assert (He : (-1074 <= exponent x)%Z) by (apply exponent_ge; lra).
  pose proof (quantum_le_exponent x He) as Hq.
  destruct (exponent_spec x (Qceqb_zero x Hne)) as [Hl _].
  pose proof (pow2_le _ _ Hq) as Hqe. pose proof (pow2_pos (quantum x)) as Hqp.
  assert (Hn : (1 <= rne (x / pow2 (quantum x)))%Z).
  { apply rne_ge. apply Qle_shift_div_l; [exact Hqp|].
    change (inject_Z 1) with 1. lra. }
  destruct (Qle_bool _ _).
  - left. destruct (0 <? _)%Z eqn:E; [reflexivity|]. apply Z.ltb_ge in E. lia.
  - right. eexists. split; [reflexivity|]. simpl. rewrite Qred_correct.
    assert (1 <= inject_Z (rne (x / pow2 (quantum x))))
      by (change 1 with (inject_Z 1); rewrite <- Zle_Qle; exact Hn).
    nra.
Qed.

Lemma round_negative (x : Qc) :
  x <= - pow2 (-1074) ->
  round x = NegInf \/ exists y : Qc, round x = Fin y /\ y < 0.
Proof.
  intros Hx. pose proof (pow2_pos (-1074)) as Hp.
  assert (Hneg : x < 0) by lra.
  assert (Habs : Qabs x == - x) by (apply Qabs_neg; lra).
  assert (Hne : Qceqb x 0 = false).
  { apply Qceqb_neq. intros E. rewrite E in Hneg. discriminate Hneg. }
  rewrite (round_nonzero_eq x Hne). cbv zeta.
  assert (He : (-1074 <= exponent x)%Z) by (apply exponent_ge; lra).
  pose proof (quantum_le_exponent x He) as Hq.
  destruct (exponent_spec x (Qceqb_zero x Hne)) as [Hl _].
  pose proof (pow2_le _ _ Hq) as Hqe. pose proof (pow2_pos (quantum x)) as Hqp.
  assert (Hn : (rne (x / pow2 (quantum x)) <= -1)%Z).
  { apply rne_le. apply Qle_shift_div_r; [exact Hqp|].
    change (inject_Z (-1)) with (-1). lra. }
  destruct (Qle_bool _ _).
  - left. destruct (0 <? _)%Z eqn:E; [|reflexivity]. apply Z.ltb_lt in E. lia.
  - right. eexists. split; [reflexivity|]. simpl. rewrite Qred_correct.
    assert (inject_Z (rne (x / pow2 (quantum x))) <= -1)
      by (change (-1) with (inject_Z (-1)); rewrite <- Zle_Qle; exact Hn).
    nra.
Qed.

Lemma double_grid (v : Qc) : double v -> grid v.
Proof. intros H. exact (round_grid v v H). Qed.

Lemma Qcminus_this (a b : Qc) : this (a - b)%Qc == a - b.
Proof.
  unfold Qcminus, Qcplus, Qcopp, Q2Qc, this. rewrite !Qred_correct. reflexivity.
Qed.

Lemma sign_of_Fin (d : Qc) : sign_of (Fin d) = (d ?= 0)%Q.
Proof.
  unfold sign_of, js_lt, js_strict_eq.
  destruct (d ?= 0)%Q eqn:E.
  - apply Qeq_alt in E. apply (Qc_is_canon d 0%Qc) in E. subst.
    rewrite Qcltb_irrefl, Qceqb_refl. reflexivity.
  - apply Qlt_alt in E. assert (H : Qcltb d 0 = true) by (apply Qcltb_lt; exact E).
    rewrite H. reflexivity.
  - apply Qgt_alt in E. assert (H : Qcltb d 0 = false).
    { apply Qcltb_ge. apply Qlt_le_weak. exact E. }
    assert (H' : Qceqb d 0 = false).
    { apply Qceqb_neq. intros ->. discriminate E. }
    rewrite H, H'. reflexivity.
Qed.

(** Rounding keeps the sign of a multiple of [2^-1074]. *)
Lemma round_sign (x : Qc) : grid x -> sign_of (round x) = (x ?= 0)%Q.
Proof.
  intros Hg. destruct (Qceqb x 0) eqn:E.
  - apply Qceqb_eq in E. subst. reflexivity.
  - destruct (grid_nonzero x Hg (Qceqb_zero x E)) as [Hpos | Hneg].
    + pose proof (pow2_pos (-1074)) as Hp.
      assert (Hc : (x ?= 0)%Q = Gt) by (apply (proj1 (Qgt_alt _ _)); lra).
      rewrite Hc. destruct (round_positive x Hpos) as [-> | (y & -> & Hy)]; [reflexivity|].
      rewrite sign_of_Fin. apply (proj1 (Qgt_alt _ _)). exact Hy.
    + pose proof (pow2_pos (-1074)) as Hp.
      assert (Hc : (x ?= 0)%Q = Lt) by (apply (proj1 (Qlt_alt _ _)); lra).
      rewrite Hc. destruct (round_negative x Hneg) as [-> | (y & -> & Hy)]; [reflexivity|].
      rewrite sign_of_Fin. apply (proj1 (Qlt_alt _ _)). exact Hy.
Qed.

(** The binary64 difference of two binary64 numbers has the sign of
    their difference as real numbers: a comparator that subtracts
    orders binary64 numbers as the real difference does. *)
Lemma sub_sign (a b : Qc) :
  double a -> double b ->
  sign_of (sub (Fin a) (Fin b)) = sign_of (js_sub (Fin a) (Fin b)).
Proof.
  intros Ha Hb.
  change (sub (Fin a) (Fin b)) with (round (a - b)%Qc).
  change (js_sub (Fin a) (Fin b)) with (Fin (a - b)%Qc).
  rewrite sign_of_Fin. apply round_sign.
  destruct (grid_minus a b (double_grid a Ha) (double_grid b Hb)) as [m Hm].
  exists m. rewrite Qcminus_this. exact Hm.
Qed.

(** *** Numbers that rounding leaves alone *)

Lemma rne_proper (x y : Q) : x == y -> rne x = rne y.
Proof.
  intros H. unfold rne.
  assert (Hf : Qfloor x = Qfloor y) by (apply Qfloor_comp; exact H).
  assert (Hc : (x - inject_Z (Qfloor x) ?= 1 # 2) = (y - inject_Z (Qfloor y) ?= 1 # 2)).
  { apply Qcompare_comp; [|reflexivity]. rewrite Hf. apply Qplus_comp; [exact H|reflexivity]. }
  rewrite Hc, Hf. reflexivity.
Qed.

Lemma Qabs_inject_Z (n : Z) : Qabs (inject_Z n) == inject_Z (Z.abs n).
Proof. reflexivity. Qed.

Lemma Qabs_pow2 (e : Z) : Qabs (pow2 e) == pow2 e.
Proof. apply Qabs_pos, Qlt_le_weak, pow2_pos. Qed.

Lemma pow2_split (q k : Z) :
  (k <= q)%Z -> pow2 q == inject_Z (2 ^ (q - k)) * pow2 k.
Proof.
  intros H. rewrite <- pow2_Z by lia. rewrite <- pow2_add.
  replace (q - k + k)%Z with q by lia. reflexivity.
Qed.

(** A number [n * 2^q] with a significand below 2^53 and an exponent of
    at least -1074, of magnitude below 2^1024, is a binary64 number. *)
Lemma round_exact (x : Qc) (n q : Z) :
  x == inject_Z n * pow2 q ->
  (Z.abs n < 2 ^ 53)%Z -> (-1074 <= q)%Z -> Qabs x < pow2 1024 ->
  double x.
Proof.
  intros Hx Hn Hq Hmax. unfold double.
  destruct (Qceqb x 0) eqn:E.
  - apply Qceqb_eq in E. subst. reflexivity.
  - rewrite (round_nonzero_eq x E). cbv zeta.
    pose proof (Qceqb_zero x E) as Hx0.
    assert (Habs : Qabs x == inject_Z (Z.abs n) * pow2 q).
    { rewrite Hx, Qabs_Qmult, Qabs_inject_Z, Qabs_pow2. reflexivity. }
    assert (Hlt : Qabs x < pow2 (53 + q)).
    { rewrite Habs, pow2_add. apply Qmult_lt_r; [apply pow2_pos|].
      rewrite pow2_Z by lia. rewrite <- Zlt_Qlt. exact Hn. }
    pose proof (exponent_lt x (53 + q) Hx0 Hlt) as He.
    assert (Hqq : (quantum x <= q)%Z) by (unfold quantum; lia).
    set (k := quantum x) in *.
    assert (Hdiv : x / pow2 k == inject_Z (n * 2 ^ (q - k))).
    { rewrite Hx, (pow2_split q k Hqq), inject_Z_mult.
      pose proof (pow2_pos k). field. lra. }
    rewrite (rne_proper _ _ Hdiv), rne_Z.
    assert (Hy : inject_Z (n * 2 ^ (q - k)) * pow2 k == x).
    { rewrite Hx, (pow2_split q k Hqq), inject_Z_mult. ring. }
    destruct (Qle_bool _ _) eqn:Eo.
    + apply Qle_bool_iff in Eo. rewrite Hy in Eo. lra.
    + f_equal. apply Qc_is_canon. simpl. rewrite Qred_correct. exact Hy.
Qed.

(** Integers of magnitude up to 2^53 are binary64 numbers. *)
Lemma double_Z (n : Z) : (Z.abs n <= 2 ^ 53)%Z -> double (Q2Qc (inject_Z n)).
Proof.
  intros Hn.
  assert (Hthis : this (Q2Qc (inject_Z n)) == inject_Z n) by (simpl; apply Qred_correct).
  assert (Hmax : Qabs (Q2Qc (inject_Z n)) < pow2 1024).
  { rewrite Hthis, Qabs_inject_Z, (pow2_Z 1024) by lia. rewrite <- Zlt_Qlt.
    apply Z.le_lt_trans with (2 ^ 53)%Z; [exact Hn|]. apply Z.pow_lt_mono_r; lia. }
  destruct (Z.eq_dec (Z.abs n) (2 ^ 53)%Z) as [E | N].
  - assert (Hcase : n = (2 ^ 53)%Z \/ n = (- 2 ^ 53)%Z) by lia.
    destruct Hcase as [-> | ->].
    + apply (round_exact _ (2 ^ 52)%Z 1); [reflexivity|reflexivity|lia|exact Hmax].
    + apply (round_exact _ (- 2 ^ 52)%Z 1); [reflexivity|reflexivity|lia|exact Hmax].
  - apply (round_exact _ n 0); [|lia|lia|exact Hmax].
    rewrite Hthis. change (pow2 0) with 1. ring.
Qed.

Lemma Q2Qc_Z_plus (n m : Z) :
  (Q2Qc (inject_Z n) + Q2Qc (inject_Z m))%Qc = Q2Qc (inject_Z (n + m)).
Proof.
  apply Qc_is_canon. simpl. rewrite !Qred_correct, inject_Z_plus. reflexivity.
Qed.

Lemma Q2Qc_Z_inj (n m : Z) : Q2Qc (inject_Z n) = Q2Qc (inject_Z m) -> n = m.
Proof.
  intros H. apply (f_equal this) in H. simpl in H.
  assert (E : inject_Z n == inject_Z m).
  { rewrite <- (Qred_correct (inject_Z n)), <- (Qred_correct (inject_Z m)), H. reflexivity. }
  apply inject_Z_injective. exact E.
Qed.

(** Below 2^53 adding one to an integer is exact. *)
Lemma add_one_Z (n : Z) :
  (Z.abs n < 2 ^ 53)%Z ->
  add (Fin (Q2Qc (inject_Z n))) (Fin 1) = Fin (Q2Qc (inject_Z (n + 1))) /\
  add (Fin (Q2Qc (inject_Z n))) (Fin 1) <> Fin (Q2Qc (inject_Z n)).
Proof.
  intros Hn.
  assert (E : add (Fin (Q2Qc (inject_Z n))) (Fin 1) = Fin (Q2Qc (inject_Z (n + 1)))).
  { unfold add. change (1%Qc) with (Q2Qc (inject_Z 1)). rewrite Q2Qc_Z_plus.
    apply double_Z. lia. }
  split; [exact E|]. rewrite E. intros H.
  assert (H' : Q2Qc (inject_Z (n + 1)) = Q2Qc (inject_Z n)) by congruence.
  apply Q2Qc_Z_inj in H'. lia.
Qed.

(** *** Rounding is monotone *)

Lemma rne_mono (x y : Q) : x <= y -> (rne x <= rne y)%Z.
Proof.
  intros H. pose proof (Qfloor_resp_le _ _ H) as Hf.
  pose proof (rne_bounds x) as Hx. pose proof (rne_bounds y) as Hy.
  destruct (Z.eq_dec (Qfloor x) (Qfloor y)) as [E | N]; [|lia].
  unfold rne in *. rewrite <- E in *.
  set (f := Qfloor x) in *.
  destruct (Qcompare_spec (x - inject_Z f) (1 # 2)) as [Ex | Ex | Ex];
    destruct (Qcompare_spec (y - inject_Z f) (1 # 2)) as [Ey | Ey | Ey];
    try lia; try (destruct (Z.even f); lia); exfalso; lra.
Qed.

Lemma exponent_mono (x y : Q) : 0 < x -> x <= y -> (exponent x <= exponent y)%Z.
Proof.
  intros Hx Hxy. apply exponent_ge.
  assert (Hx0 : ~ x == 0) by lra.
  destruct (exponent_spec x Hx0) as [Hl _].
  rewrite (Qabs_pos x) in Hl by lra. rewrite (Qabs_pos y) by lra. lra.
Qed.

Lemma exponent_mono_neg (x y : Q) : y < 0 -> x <= y -> (exponent y <= exponent x)%Z.
Proof.
  intros Hy Hxy. apply exponent_ge.
  assert (Hy0 : ~ y == 0) by lra.
  destruct (exponent_spec y Hy0) as [Hl _].
  rewrite (Qabs_neg y) in Hl by lra. rewrite (Qabs_neg x) by lra. lra.
Qed.

Lemma rnd_nonneg (x : Q) : 0 <= x -> 0 <= rnd x.
Proof.
  intros H. unfold rnd. pose proof (pow2_pos (quantum x)) as Hp.
  assert (Hn : (0 <= rne (x / pow2 (quantum x)))%Z).
  { apply rne_ge. change (inject_Z 0) with 0. apply Qle_shift_div_l; [exact Hp|]. lra. }
  assert (0 <= inject_Z (rne (x / pow2 (quantum x))))
    by (change 0 with (inject_Z 0); rewrite <- Zle_Qle; exact Hn).
  nra.
Qed.

Lemma rnd_nonpos (x : Q) : x <= 0 -> rnd x <= 0.
Proof.
  intros H. unfold rnd. pose proof (pow2_pos (quantum x)) as Hp.
  assert (Hn : (rne (x / pow2 (quantum x)) <= 0)%Z).
  { apply rne_le. change (inject_Z 0) with 0. apply Qle_shift_div_r; [exact Hp|]. lra. }
  assert (inject_Z (rne (x / pow2 (quantum x))) <= 0)
    by (change 0 with (inject_Z 0); rewrite <- Zle_Qle; exact Hn).
  nra.
Qed.

(** A bound that is a multiple of the quantum bounds the rounded value. *)
Lemma rnd_le_pow2 (x : Q) (e : Z) :
  (quantum x <= e)%Z -> x <= pow2 e -> rnd x <= pow2 e.
Proof.
  intros Hq Hx. unfold rnd. set (k := quantum x) in *.
  pose proof (pow2_pos k) as Hp.
  assert (Hn : (rne (x / pow2 k) <= 2 ^ (e - k))%Z).
  { apply rne_le. apply Qle_shift_div_r; [exact Hp|].
    rewrite <- (pow2_split e k Hq). exact Hx. }
  rewrite (pow2_split e k Hq). apply Qmult_le_r; [exact Hp|].
  rewrite <- Zle_Qle. exact Hn.
Qed.

Lemma rnd_ge_pow2 (x : Q) (e : Z) :
  (quantum x <= e)%Z -> pow2 e <= x -> pow2 e <= rnd x.
Proof.
  intros Hq Hx. unfold rnd. set (k := quantum x) in *.
  pose proof (pow2_pos k) as Hp.
  assert (Hn : (2 ^ (e - k) <= rne (x / pow2 k))%Z).
  { apply rne_ge. apply Qle_shift_div_l; [exact Hp|].
    rewrite <- (pow2_split e k Hq). exact Hx. }
  rewrite (pow2_split e k Hq). apply Qmult_le_r; [exact Hp|].
  rewrite <- Zle_Qle. exact Hn.
Qed.

Lemma rnd_ge_opp_pow2 (x : Q) (e : Z) :
  (quantum x <= e)%Z -> - pow2 e <= x -> - pow2 e <= rnd x.
Proof.
  intros Hq Hx. unfold rnd. set (k := quantum x) in *.
  pose proof (pow2_pos k) as Hp. pose proof (pow2_split e k Hq) as E.
  assert (Hn : (- 2 ^ (e - k) <= rne (x / pow2 k))%Z).
  { apply rne_ge. apply Qle_shift_div_l; [exact Hp|]. rewrite inject_Z_opp. nra. }
  assert (HN : - inject_Z (2 ^ (e - k)) <= inject_Z (rne (x / pow2 k)))
    by (rewrite <- inject_Z_opp, <- Zle_Qle; exact Hn).
  nra.
Qed.

Lemma rnd_le_opp_pow2 (x : Q) (e : Z) :
  (quantum x <= e)%Z -> x <= - pow2 e -> rnd x <= - pow2 e.
Proof.
  intros Hq Hx. unfold rnd. set (k := quantum x) in *.
  pose proof (pow2_pos k) as Hp. pose proof (pow2_split e k Hq) as E.
  assert (Hn : (rne (x / pow2 k) <= - 2 ^ (e - k))%Z).
  { apply rne_le. apply Qle_shift_div_r; [exact Hp|]. rewrite inject_Z_opp. nra. }
  assert (HN : inject_Z (rne (x / pow2 k)) <= - inject_Z (2 ^ (e - k)))
    by (rewrite <- inject_Z_opp, <- Zle_Qle; exact Hn).
  nra.
Qed.

Lemma rnd_same_quantum (x y : Q) :
  quantum x = quantum y -> x <= y -> rnd x <= rnd y.
Proof.
  intros Hq Hxy. unfold rnd. rewrite Hq. pose proof (pow2_pos (quantum y)) as Hp.
  apply Qmult_le_r; [exact Hp|]. rewrite <- Zle_Qle. apply rne_mono.
  apply Qmult_le_r; [apply Qinv_lt_0_compat; exact Hp|exact Hxy].
Qed.

Lemma rnd_mono_pos (x y : Q) : 0 < x -> x <= y -> rnd x <= rnd y.
Proof.
  intros Hx Hxy. pose proof (exponent_mono x y Hx Hxy) as He.
  destruct (Z.eq_dec (quantum x) (quantum y)) as [E | N];
    [apply rnd_same_quantum; assumption|].
  assert (Hy0 : ~ y == 0) by lra.
  destruct (exponent_spec y Hy0) as [Hl _]. rewrite (Qabs_pos y) in Hl by lra.
  assert (Hx0 : ~ x == 0) by lra.
  destruct (exponent_spec x Hx0) as [_ Hu]. rewrite (Qabs_pos x) in Hu by lra.
  assert (Hlt : (exponent x < exponent y)%Z) by (unfold quantum in N; lia).
  assert (Hle : pow2 (exponent x + 1) <= pow2 (exponent y)) by (apply pow2_le; lia).
  apply Qle_trans with (pow2 (exponent y)).
  - apply rnd_le_pow2; [unfold quantum in *; lia|lra].
  - apply rnd_ge_pow2; [unfold quantum in *; lia|exact Hl].
Qed.

Lemma rnd_mono_neg (x y : Q) : y < 0 -> x <= y -> rnd x <= rnd y.
Proof.
  intros Hy Hxy. pose proof (exponent_mono_neg x y Hy Hxy) as He.
  destruct (Z.eq_dec (quantum x) (quantum y)) as [E | N];
    [apply rnd_same_quantum; assumption|].
  assert (Hx0 : ~ x == 0) by lra.
  destruct (exponent_spec x Hx0) as [Hl _]. rewrite (Qabs_neg x) in Hl by lra.
  assert (Hy0 : ~ y == 0) by lra.
  destruct (exponent_spec y Hy0) as [_ Hu]. rewrite (Qabs_neg y) in Hu by lra.
  assert (Hlt : (exponent y < exponent x)%Z) by (unfold quantum in N; lia).
  assert (Hle : pow2 (exponent y + 1) <= pow2 (exponent x)) by (apply pow2_le; lia).
  apply Qle_trans with (- pow2 (exponent x)).
  - apply rnd_le_opp_pow2; [unfold quantum in *; lia|lra].
  - apply rnd_ge_opp_pow2; [unfold quantum in *; lia|lra].
Qed.

Lemma rnd_mono (x y : Q) : x <= y -> rnd x <= rnd y.
Proof.
  intros Hxy. destruct (Qlt_le_dec 0 x) as [Hx | Hx].
  - apply rnd_mono_pos; assumption.
  - destruct (Qlt_le_dec y 0) as [Hy | Hy].
    + apply rnd_mono_neg; assumption.
    + apply Qle_trans with 0; [apply rnd_nonpos|apply rnd_nonneg]; assumption.
Qed.

Lemma rnd_zero : rnd 0 == 0.
Proof. reflexivity. Qed.

Lemma round_rnd (x : Qc) :
  round x =
  if Qle_bool (pow2 1024) (Qabs (rnd x))
  then inf_of_sign (0 <? rne (x / pow2 (quantum x)))%Z
  else Fin (Q2Qc (rnd x)).
Proof.
  destruct (Qceqb x 0) eqn:E.
  - apply Qceqb_eq in E. subst x.
    assert (Hs : Qle_bool (pow2 1024) (Qabs (rnd 0%Qc)) = false) by (vm_compute; reflexivity).
    rewrite Hs. rewrite round_zero. f_equal. apply Qc_is_canon. reflexivity.
  - rewrite (round_nonzero_eq x E). reflexivity.
Qed.

Lemma round_Fin_inv (x y : Qc) :
  round x = Fin y -> y == rnd x /\ Qabs (rnd x) < pow2 1024.
Proof.
  rewrite round_rnd. destruct (Qle_bool _ _) eqn:E.
  - destruct (0 <? _)%Z; discriminate.
  - intros H. inversion H; subst. split; [simpl; apply Qred_correct|].
    apply Qnot_le_lt. intros Hle. apply Qle_bool_iff in Hle. congruence.
Qed.

Lemma round_small (x : Qc) : Qabs (rnd x) < pow2 1024 -> round x = Fin (Q2Qc (rnd x)).
Proof.
  intros H. rewrite round_rnd. destruct (Qle_bool _ _) eqn:E; [|reflexivity].
  apply Qle_bool_iff in E. lra.
Qed.

(** A number between two numbers that round to finite values rounds to
    a finite value between these. *)
Lemma round_sandwich (a x b ra rb : Qc) :
  round a = Fin ra -> round b = Fin rb -> (a <= x)%Qc -> (x <= b)%Qc ->
  exists y : Qc, round x = Fin y /\ (ra <= y)%Qc /\ (y <= rb)%Qc.
Proof.
  intros Ha Hb Hax Hxb.
  destruct (round_Fin_inv a ra Ha) as [Ea Hba].
  destruct (round_Fin_inv b rb Hb) as [Eb Hbb].
  pose proof (rnd_mono a x Hax) as H1. pose proof (rnd_mono x b Hxb) as H2.
  apply Qabs_Qlt_condition in Hba. apply Qabs_Qlt_condition in Hbb.
  assert (Hsmall : Qabs (rnd x) < pow2 1024) by (apply Qabs_Qlt_condition; lra).
  exists (Q2Qc (rnd x)). split; [apply round_small, Hsmall|].
  unfold Qcle. simpl. rewrite Qred_correct. lra.
Qed.

Lemma double_zero : double 0.
Proof. reflexivity. Qed.

Lemma double_one : double 1.
Proof. apply (double_Z 1). vm_compute. discriminate. Qed.

Lemma double_hundred : double (Q2Qc 100).
Proof. apply (double_Z 100). vm_compute. discriminate. Qed.

(** *** Zero in quotients and products *)

Lemma sub_diag (v : Qc) : sub (Fin v) (Fin v) = Fin 0.
Proof.
  change (sub (Fin v) (Fin v)) with (round (v - v)%Qc).
  replace (v - v)%Qc with 0%Qc by ring. reflexivity.
Qed.

Lemma div_zero_l (d : num) :
  d <> NaN -> d <> Fin 0 -> div (Fin 0) d = Fin 0.
Proof.
  intros Hn Hz. destruct d as [y| | |]; try reflexivity; [|contradiction].
  unfold div. destruct (Qceqb y 0) eqn:E.
  - apply Qceqb_eq in E. subst. contradiction.
  - replace (0 / y)%Qc with 0%Qc; [reflexivity|].
    unfold Qcdiv. ring.
Qed.

Lemma mul_zero_l (q : Qc) : mul (Fin 0) (Fin q) = Fin 0.
Proof.
  unfold mul. replace (0 * q)%Qc with 0%Qc by ring. reflexivity.
Qed.

Lemma div_zero_zero : div (Fin 0) (Fin 0) = NaN.
Proof. reflexivity. Qed.

Lemma mul_NaN_l (b : num) : mul NaN b = NaN.
Proof. reflexivity. Qed.

(** The difference of two distinct binary64 numbers is not zero. *)
Lemma sub_nonzero (a b : Qc) :
  grid a -> grid b -> a <> b -> sub (Fin a) (Fin b) <> Fin 0 /\ sub (Fin a) (Fin b) <> NaN.
Proof.
  intros Ha Hb Hne.
  change (sub (Fin a) (Fin b)) with (round (a - b)%Qc).
  split; [|apply round_not_NaN].
  assert (Hg : grid (a - b)%Qc).
  { destruct (grid_minus a b Ha Hb) as [m Hm]. exists m. rewrite Qcminus_this. exact Hm. }
  pose proof (round_sign (a - b)%Qc Hg) as Hs.
  intros E. rewrite E in Hs.
  change (sign_of (Fin 0)) with Eq in Hs. symmetry in Hs.
  apply Qeq_alt in Hs. apply (Qc_is_canon (a - b)%Qc 0%Qc) in Hs.
  apply Hne. now apply Qcminus_diag_zero.
Qed.

(** *** Scaling to the range from 0 to 100 *)

Lemma Qcdiv_this (t d : Qc) : this (t / d)%Qc == t / d.
Proof.
  unfold Qcdiv, Qcmult, Qcinv, Q2Qc, this. rewrite !Qred_correct. reflexivity.
Qed.

Lemma Qcmult_this (r q : Qc) : this (r * q)%Qc == r * q.
Proof. unfold Qcmult, Q2Qc, this. apply Qred_correct. Qed.

Lemma scale_zero (d : num) :
  d <> NaN -> d <> Fin 0 -> mul (div (Fin 0) d) (Fin (Q2Qc 100)) = Fin 0.
Proof. intros Hn Hz. rewrite (div_zero_l d Hn Hz). apply mul_zero_l. Qed.

Lemma scale_full (d : Qc) :
  d <> 0%Qc -> mul (div (Fin d) (Fin d)) (Fin (Q2Qc 100)) = Fin (Q2Qc 100).
Proof.
  intros Hd. unfold div. apply Qceqb_neq in Hd. rewrite Hd. apply Qceqb_neq in Hd.
  replace (d / d)%Qc with 1%Qc by (field; exact Hd).
  rewrite double_one. unfold mul.
  replace (1 * Q2Qc 100)%Qc with (Q2Qc 100) by ring. apply double_hundred.
Qed.

Lemma scale_within (t d : Qc) :
  (0 <= t)%Qc -> (t <= d)%Qc -> (0 < d)%Qc ->
  exists w : Qc, mul (div (Fin t) (Fin d)) (Fin (Q2Qc 100)) = Fin w /\
                 (0 <= w)%Qc /\ (w <= Q2Qc 100)%Qc.
Proof.
  intros H0 Htd Hd.
  assert (Hd0 : Qceqb d 0 = false).
  { apply Qceqb_neq. intros ->. discriminate Hd. }
  unfold div. rewrite Hd0.
  unfold Qcle, Qclt in H0, Htd, Hd. change (this 0%Qc) with 0 in H0, Hd.
  destruct (round_sandwich 0 (t / d)%Qc 1 0 1 double_zero double_one) as (r & Hr & Hr0 & Hr1).
  { unfold Qcle. rewrite Qcdiv_this. change (this 0%Qc) with 0.
    apply Qle_shift_div_l; lra. }
  { unfold Qcle. rewrite Qcdiv_this. change (this 1%Qc) with 1.
    apply Qle_shift_div_r; lra. }
  rewrite Hr. unfold mul.
  unfold Qcle in Hr0, Hr1. change (this 0%Qc) with 0 in Hr0. change (this 1%Qc) with 1 in Hr1.
  apply (round_sandwich 0 (r * Q2Qc 100)%Qc (Q2Qc 100) 0 (Q2Qc 100) double_zero double_hundred).
  - unfold Qcle. rewrite Qcmult_this. change (this 0%Qc) with 0.
    change (this (Q2Qc 100)) with 100. nra.
  - unfold Qcle. rewrite Qcmult_this. change (this (Q2Qc 100)) with 100. nra.
Qed.

(** *** Agreement with the IEEE 754 specification *)

(** On zero, numbers across the whole range of exponents and
    infinity, the four operations give what the operations of the
    IEEE 754 specification of the standard library give for binary64. *)
Example agrees_with_specification :
  agrees_on_samples (SFadd 53 1024) add = true /\
  agrees_on_samples (SFsub 53 1024) sub = true /\
  agrees_on_samples (SFmul 53 1024) mul = true /\
  agrees_on_samples (SFdiv 53 1024) div = true.
Proof.
  split; [vm_compute; reflexivity|]. split; [vm_compute; reflexivity|].
  split; vm_compute; reflexivity.
Qed.

End Binary64Facts.
(** ** buildFillColorExpression *)

Lemma range_step_fin (lo hi x : Qc) :
  range_step (Fin lo, Fin hi) (Fin x) = (Fin (keep_min lo x), Fin (keep_max hi x)).
Proof.
  unfold range_step, keep_min, keep_max, js_gt. simpl.
  destruct (Qcltb x lo), (Qcltb hi x); reflexivity.
Qed.

Lemma range_fold_fin (xs : list Qc) (lo hi : Qc) :
  fold_left range_step (map Fin xs) (Fin lo, Fin hi)
  = (Fin (fold_left keep_min xs lo), Fin (fold_left keep_max xs hi)).
Proof.
  revert lo hi. induction xs as [|x xs IH]; intros lo hi.
  - reflexivity.
  - cbn [map fold_left]. rewrite range_step_fin. apply IH.
Qed.

Lemma range_fold_start (x : Qc) (xs : list Qc) :
  fold_left range_step (map Fin (x :: xs)) (PosInf, NegInf)
  = (Fin (fold_left keep_min xs x), Fin (fold_left keep_max xs x)).
Proof. cbn [map fold_left]. apply range_fold_fin. Qed.

(** The bounds the normalisation uses for a metric other than the score:
    the least value, and the greatest value or, when both coincide, the
    least value plus one. *)
Lemma metric_range_nonscore (scores : IndustryScores) (metric : MetricKey.t) :
  scores <> [] ->
  is_score metric = false ->
  exists lo hi : Qc,
    least lo (map (fun kv => metric_field metric (snd kv)) scores) /\
    greatest hi (map (fun kv => metric_field metric (snd kv)) scores) /\
    metric_range (Object_entries scores) metric = (Fin lo, range_max lo hi).
Proof.
  intros Hne Hm. destruct scores as [|kv rest]; [congruence|].
  set (xs := map (fun kv => metric_field metric (snd kv)) rest).
  exists (fold_left keep_min xs (metric_field metric (snd kv))),
         (fold_left keep_max xs (metric_field metric (snd kv))).
  split; [apply least_fold|]. split; [apply greatest_fold|].
  unfold metric_range, Object_entries, range_max. rewrite Hm.
  replace (map (fun kv0 => metric_value metric (snd kv0)) (kv :: rest))
    with (map Fin (metric_field metric (snd kv) :: xs)).
  - rewrite range_fold_start. simpl.
    destruct (Qceqb _ _); reflexivity.
  - unfold xs. simpl. f_equal. rewrite map_map. reflexivity.
Qed.

Lemma normalised_nonscore (metric : MetricKey.t) (min max raw : num) :
  is_score metric = false ->
  normalised metric min max raw = scaled raw min max.
Proof. intros Hm. unfold normalised. rewrite Hm. reflexivity. Qed.

Lemma match_lookup_pairs {A} (f : string * A -> num) (l : list (string * A))
    (k : string) (a : A) :
  List.NoDup (map fst l) -> In (k, a) l ->
  match_lookup (map (fun kv => (fst kv, f kv)) l) k = Some (f (k, a)).
Proof.
  induction l as [|[k' a'] l IH]; intros Hnd Hin; [destruct Hin|].
  simpl in *. inversion Hnd as [|? ? Hnotin Hnd']; subst.
  destruct Hin as [E | Hin].
  - inversion E; subst. rewrite String.eqb_refl. reflexivity.
  - destruct (String.eqb k' k) eqn:E.
    + apply String.eqb_eq in E; subst. exfalso. apply Hnotin.
      apply (in_map fst) in Hin. exact Hin.
    + apply IH; assumption.
Qed.

Lemma match_lookup_absent {A} (f : string * A -> num) (l : list (string * A))
    (k : string) :
  ~ In k (map fst l) -> match_lookup (map (fun kv => (fst kv, f kv)) l) k = None.
Proof.
  induction l as [|[k' a'] l IH]; intros Hnotin; [reflexivity|]. simpl in *.
  destruct (String.eqb k' k) eqn:E.
  - apply String.eqb_eq in E. exfalso. apply Hnotin. now left.
  - apply IH. intros H. apply Hnotin. now right.
Qed.

Lemma buildFillColorExpression_unfold (scores : IndustryScores) (metric : MetricKey.t) :
  buildFillColorExpression scores metric =
  {| interpolate_kind := linear;
     interpolate_input :=
       {| match_get := "GEOID";
          match_pairs :=
            map (fun kv => (fst kv,
                            normalised metric
                              (fst (metric_range (Object_entries scores) metric))
                              (snd (metric_range (Object_entries scores) metric))
                              (metric_value metric (snd kv))))
                (Object_entries scores);
          match_default := Fin 0 |};
     interpolate_stops := [stop_at 0; stop_at 1; stop_at 2] |}.
Proof.
  unfold buildFillColorExpression.
  destruct (metric_range (Object_entries scores) metric); reflexivity.
Qed.

Lemma is_score_false (metric : MetricKey.t) :
  metric <> MetricKey.score -> is_score metric = false.
Proof. destruct metric; [congruence|reflexivity|reflexivity]. Qed.

Lemma stops_are_choroplethScale :
  [stop_at 0; stop_at 1; stop_at 2]
  = [(Fin 0, "#e5e7eb"); (Fin (Q2Qc 50), "#a5b4fc"); (Fin (Q2Qc 100), "#3730a3")].
Proof. reflexivity. Qed.

(** C3. The forced bound does not always keep the divisor from being
    zero.  When every entry carries 2^53 establishments, [min + 1] is
    [min] again in binary64, so after [max = min + 1] the bounds still
    coincide, the divisor [max - min] is zero and every entry is paired
    with [0 / 0 * 100], which is NaN and not the value 0 of the minimum
    colour. *)
Theorem buildFillColorExpression_uniform_absorbed :
  let range := metric_range (Object_entries absorbed_scores) MetricKey.establishmentCount in
  let e := buildFillColorExpression absorbed_scores MetricKey.establishmentCount in
  metric_values absorbed_scores MetricKey.establishmentCount
  = [Q2Qc (inject_Z (2 ^ 53)); Q2Qc (inject_Z (2 ^ 53))] /\
  js_strict_eq (snd range) (fst range) = true /\
  js_is_zero (Binary64.sub (snd range) (fst range)) = true /\
  match_pairs (interpolate_input e) = [("48001", NaN); ("48002", NaN)] /\
  eval_match (interpolate_input e) "48001" = NaN /\
  eval_match (interpolate_input e) "48002" = NaN.
Proof.
  split; [reflexivity|]. split; [vm_compute; reflexivity|].
  split; [vm_compute; reflexivity|].
  assert (Hpairs : match_pairs (interpolate_input
                      (buildFillColorExpression absorbed_scores
                         MetricKey.establishmentCount))
                   = [("48001", NaN); ("48002", NaN)])
    by (vm_compute; reflexivity).
  split; [exact Hpairs|].
  unfold eval_match. rewrite Hpairs. split; reflexivity.
Qed.

(** C4. For a non-empty scores mapping, the expression pairs each entry's
    join key with the raw value when the metric is the score, and
    otherwise with [(raw - min) / (max - min) * 100] as the language
    computes it, where [min] is the least and [max] the greatest value
    over all entries for that metric ([max] being [min + 1] when the two
    coincide); a feature whose key is absent from the mapping evaluates
    to the default 0; the value is the input of a linear interpolation
    over exactly the three stops 0, 50 and 100 with their colours. *)
Theorem buildFillColorExpression_normalises
    (scores : IndustryScores) (metric : MetricKey.t) :
  scores <> [] ->
  List.NoDup (Object_keys scores) ->
  let e := buildFillColorExpression scores metric in
  (metric = MetricKey.score ->
   forall k entry, In (k, entry) scores ->
     eval_match (interpolate_input e) k = Fin (score entry)) /\
  (metric <> MetricKey.score ->
   exists lo hi : Qc,
     least lo (metric_values scores metric) /\
     greatest hi (metric_values scores metric) /\
     forall k entry, In (k, entry) scores ->
       eval_match (interpolate_input e) k
       = Binary64.mul
           (Binary64.div (Binary64.sub (Fin (metric_field metric entry)) (Fin lo))
                         (Binary64.sub (range_max lo hi) (Fin lo)))
           (Fin (Q2Qc 100))) /\
  (forall g, ~ In g (Object_keys scores) ->
     eval_match (interpolate_input e) g = Fin 0) /\
  match_get (interpolate_input e) = "GEOID" /\
  interpolate_kind e = linear /\
  interpolate_stops e
  = [(Fin 0, "#e5e7eb"); (Fin (Q2Qc 50), "#a5b4fc"); (Fin (Q2Qc 100), "#3730a3")].
Proof.
  intros Hne Hnd e.
  pose (f := fun kv : string * CountyScore =>
              normalised metric (fst (metric_range (Object_entries scores) metric))
                (snd (metric_range (Object_entries scores) metric))
                (metric_value metric (snd kv))).
  assert (He : e =
    {| interpolate_kind := linear;
       interpolate_input :=
         {| match_get := "GEOID";
            match_pairs := map (fun kv => (fst kv, f kv)) scores;
            match_default := Fin 0 |};
       interpolate_stops := [stop_at 0; stop_at 1; stop_at 2] |})
    by apply buildFillColorExpression_unfold.
  assert (Hin : forall k entry, In (k, entry) scores ->
            eval_match (interpolate_input e) k = f (k, entry)).
  { intros k entry Hk. rewrite He. unfold eval_match. cbn [interpolate_input match_pairs match_default].
    rewrite (match_lookup_pairs f scores k entry Hnd Hk). reflexivity. }
  split; [|split; [|split]].
  - intros -> k entry Hk. rewrite (Hin k entry Hk). reflexivity.
  - intros Hm. apply is_score_false in Hm.
    destruct (metric_range_nonscore scores metric Hne Hm) as (lo & hi & Hlo & Hhi & Hr).
    exists lo, hi. split; [exact Hlo|]. split; [exact Hhi|].
    intros k entry Hk. rewrite (Hin k entry Hk). unfold f. rewrite Hr.
    cbn [fst snd]. rewrite (normalised_nonscore _ _ _ _ Hm). reflexivity.
  - intros g Hg. rewrite He. unfold eval_match. cbn [interpolate_input match_pairs match_default].
    rewrite (match_lookup_absent f scores g Hg). reflexivity.
  - rewrite He. simpl. auto.
Qed.

Lemma buildFillColorExpression_normalises_witness :
  let e := buildFillColorExpression same_value_scores MetricKey.establishmentCount in
  (MetricKey.establishmentCount = MetricKey.score ->
   forall k entry, In (k, entry) same_value_scores ->
     eval_match (interpolate_input e) k = Fin (score entry)) /\
  (MetricKey.establishmentCount <> MetricKey.score ->
   exists lo hi : Qc,
     least lo (metric_values same_value_scores MetricKey.establishmentCount) /\
     greatest hi (metric_values same_value_scores MetricKey.establishmentCount) /\
     forall k entry, In (k, entry) same_value_scores ->
       eval_match (interpolate_input e) k
       = Binary64.mul
           (Binary64.div
              (Binary64.sub (Fin (metric_field MetricKey.establishmentCount entry)) (Fin lo))
              (Binary64.sub (range_max lo hi) (Fin lo)))
           (Fin (Q2Qc 100))) /\
  (forall g, ~ In g (Object_keys same_value_scores) ->
     eval_match (interpolate_input e) g = Fin 0) /\
  match_get (interpolate_input e) = "GEOID" /\
  interpolate_kind e = linear /\
  interpolate_stops e
  = [(Fin 0, "#e5e7eb"); (Fin (Q2Qc 50), "#a5b4fc"); (Fin (Q2Qc 100), "#3730a3")].
Proof.
  apply (buildFillColorExpression_normalises same_value_scores
           MetricKey.establishmentCount).
  - discriminate.
  - repeat constructor; simpl; intuition discriminate.
Defined.

(** The scenario of the test suite: establishment counts 10 and 110
    normalise to 0 and 100. *)
Example normalises_10_110 :
  map (fun kv => js_strict_eq (snd kv) (Fin (Q2Qc 0)) || js_strict_eq (snd kv) (Fin (Q2Qc 100)))
      (match_pairs (interpolate_input
         (buildFillColorExpression same_value_scores MetricKey.establishmentCount)))
  = [true; true]
  /\ map (fun kv => js_strict_eq (snd kv) (Fin (Q2Qc 0)))
      (match_pairs (interpolate_input
         (buildFillColorExpression same_value_scores MetricKey.establishmentCount)))
  = [true; false].
Proof. split; vm_compute; reflexivity. Qed.

(** Establishment counts 0, 1 and 3: the middle entry is given
    33.33333333333333, the binary64 number 0x10AAAAAAAAAAAA * 2^-47, and
    not the binary64 number nearest to 100/3. *)
Example normalises_one_third :
  let v := eval_match (interpolate_input
             (buildFillColorExpression third_scores MetricKey.establishmentCount))
             "48002" in
  js_strict_eq v (Fin (Q2Qc (4691249611844266 # 140737488355328))) = true /\
  js_strict_eq v (Binary64.round (Q2Qc (100 # 3))) = false.
Proof. split; vm_compute; reflexivity. Qed.
(** ** topCounties *)

Lemma by_score_desc_le0 (x y : CountyScore) :
  compare_le0 by_score_desc x y = true <-> (score y <= score x)%Qc.
Proof.
  unfold compare_le0, by_score_desc. simpl.
  set (d := (score y + - score x)%Qc).
  rewrite orb_true_iff, Qcltb_lt, Qceqb_eq. split.
  - intros H.
    assert (Hd : (d <= 0)%Qc).
    { destruct H as [H | ->]; [now apply Qclt_le_weak|apply Qcle_refl]. }
    replace (score y) with (d + score x)%Qc by (unfold d; ring).
    replace (score x) with (0 + score x)%Qc at 2 by ring.
    apply Qcplus_le_compat; [exact Hd|apply Qcle_refl].
  - intros H. apply Qcle_lt_or_eq.
    replace 0%Qc with (score x + - score x)%Qc by ring.
    unfold d. apply Qcplus_le_compat; [exact H|apply Qcle_refl].
Qed.

Lemma sort_insert_perm {A} (cmp : A -> A -> num) (x : A) (l : list A) :
  Permutation (sort_insert cmp x l) (x :: l).
Proof.
  induction l as [|y l IH]; simpl; [reflexivity|].
  destruct (compare_le0 cmp x y); [reflexivity|].
  rewrite IH. apply perm_swap.
Qed.

Lemma Array_sort_perm {A} (cmp : A -> A -> num) (l : list A) :
  Permutation (Array_sort cmp l) l.
Proof.
  induction l as [|x l IH]; simpl; [reflexivity|].
  rewrite sort_insert_perm. now constructor.
Qed.

Lemma sort_insert_sorted (x : CountyScore) (l : list CountyScore) :
  StronglySorted score_desc l ->
  StronglySorted score_desc (sort_insert by_score_desc x l).
Proof.
  induction 1 as [|y l Hs IH Hall]; simpl.
  - repeat constructor.
  - destruct (compare_le0 by_score_desc x y) eqn:E.
    + apply by_score_desc_le0 in E.
      constructor; [constructor; assumption|].
      constructor; [exact E|].
      eapply List.Forall_impl; [|exact Hall]. intros z Hz. unfold score_desc in *.
      eapply Qcle_trans; eauto.
    + constructor; [exact IH|].
      assert (Hxy : (score x <= score y)%Qc).
      { destruct (Qclt_le_dec (score y) (score x)) as [Hlt | Hle]; [|exact Hle].
        apply Qclt_le_weak in Hlt. apply by_score_desc_le0 in Hlt. congruence. }
      rewrite (List.Forall_forall (score_desc y)). intros z Hz.
      apply (Permutation_in _ (sort_insert_perm by_score_desc x l)) in Hz.
      destruct Hz as [<- | Hz]; [exact Hxy|].
      rewrite (List.Forall_forall (score_desc y)) in Hall. now apply Hall.
Qed.

Lemma Array_sort_sorted (l : list CountyScore) :
  StronglySorted score_desc (Array_sort by_score_desc l).
Proof.
  induction l as [|x l IH]; simpl; [constructor|].
  now apply sort_insert_sorted.
Qed.

Lemma sort_insert_with_score (s : Qc) (x : CountyScore) (l : list CountyScore) :
  with_score s (sort_insert by_score_desc x l) = with_score s (x :: l).
Proof.
  induction l as [|y l IH]; [reflexivity|].
  cbn [sort_insert]. destruct (compare_le0 by_score_desc x y) eqn:E; [reflexivity|].
  unfold with_score in *. cbn [List.filter] in *. rewrite IH.
  destruct (Qceqb (score x) s) eqn:Ex; [|reflexivity].
  destruct (Qceqb (score y) s) eqn:Ey; [|reflexivity].
  apply Qceqb_eq in Ex, Ey.
  assert (Hle : (score y <= score x)%Qc) by (rewrite Ex, Ey; apply Qcle_refl).
  apply by_score_desc_le0 in Hle. congruence.
Qed.

Lemma Array_sort_with_score (s : Qc) (l : list CountyScore) :
  with_score s (Array_sort by_score_desc l) = with_score s l.
Proof.
  induction l as [|x l IH]; [reflexivity|].
  cbn [Array_sort]. rewrite sort_insert_with_score.
  unfold with_score in *. cbn [List.filter]. rewrite IH. reflexivity.
Qed.

(** C2 as the code has it: the top counties are the first 10 entries of
    the values sorted by score descending, where entries of equal score
    keep the order in which the mapping enumerates them; there is no
    parameter [n] and the fips plays no part in the order. *)
Theorem topCounties_sorted_stable (scores : IndustryScores) :
  exists sorted : list CountyScore,
    topCounties (Some scores) = firstn 10 sorted /\
    Permutation sorted (Object_values scores) /\
    StronglySorted score_desc sorted /\
    (forall s : Qc, with_score s sorted = with_score s (Object_values scores)).
Proof.
  exists (Array_sort by_score_desc (Object_values scores)).
  split; [reflexivity|]. split; [apply Array_sort_perm|].
  split; [apply Array_sort_sorted|]. intros s. apply Array_sort_with_score.
Qed.

(** C2 fails as stated: two counties with the same score come out in the
    order of the mapping, here with the larger fips first. *)
Lemma topCounties_ties_not_by_fips :
  enumeration_order tied_scores = true /\
  map fips (topCounties (Some tied_scores)) = ["48201"; "06037"] /\
  map score (topCounties (Some tied_scores)) = [Q2Qc 50; Q2Qc 50] /\
  String.ltb "06037" "48201" = true /\
  fips_tiebreak_order (topCounties (Some tied_scores)) = false.
Proof. repeat split; vm_compute; reflexivity. Qed.

(** ** validateGeoJSON *)

Lemma is_literal_eq (v : option JSON) (s : string) :
  is_literal v s = true <-> v = Some (JString s).
Proof.
  destruct v as [[| | |s'| |]|]; simpl; split; try discriminate.
  - intros H. apply String.eqb_eq in H. now subst.
  - intros H. inversion H. apply String.eqb_refl.
Qed.

Lemma is_string_eq (v : option JSON) :
  is_string v = true <-> exists s, v = Some (JString s).
Proof.
  destruct v as [[| | |s'| |]|]; simpl; split; try discriminate;
    try (intros [s H]; discriminate).
  - eauto.
  - reflexivity.
Qed.

(** C5 as the code has it: the validator accepts a payload exactly when it
    is an object tagged as a feature collection with an array of features
    whose first feature, if there is one, is tagged as a feature and
    carries a geometry object and a string join key; the features after
    the first are not inspected, and an empty collection is accepted. *)
Theorem validateGeoJSON_spot_check (data : JSON) :
  (validateGeoJSON data = Returns true <-> first_feature_shape data) /\
  validateGeoJSON (collection_json []) = Returns true.
Proof.
  split; [|reflexivity]. unfold validateGeoJSON, first_feature_shape. split.
  - destruct data as [| | | | |props]; simpl; try discriminate.
    destruct (is_literal (own_property props "type") "FeatureCollection") eqn:Et;
      simpl; [|discriminate].
    apply is_literal_eq in Et.
    destruct (own_property props "features") as [[| | | |features|]|] eqn:Ef;
      try discriminate.
    intros H. exists props, features. repeat split; auto.
    destruct features as [|first rest]; [exact I|].
    assert (Hfirst :
      (if negb (is_literal (member first "type") "Feature") then Returns false
       else if negb (is_object (member first "geometry")) then Returns false
       else if negb (is_string (optional_member (member first "properties") "GEOID"))
            then Returns false else Returns true) = Returns true).
    { destruct first; try exact H. discriminate H. }
    clear H.
    destruct (is_literal (member first "type") "Feature") eqn:E1; [|discriminate].
    destruct (is_object (member first "geometry")) eqn:E2; [|discriminate].
    destruct (is_string (optional_member (member first "properties") "GEOID")) eqn:E3;
      [|discriminate].
    apply is_literal_eq in E1. apply is_string_eq in E3. auto.
  - intros (props & features & -> & Ht & Hf & Hfirst).
    cbn [is_object negb member]. rewrite Ht, Hf.
    cbn [is_literal]. rewrite String.eqb_refl. cbn [negb].
    destruct features as [|first rest]; [reflexivity|].
    destruct Hfirst as (H1 & H2 & geoid & H3).
    destruct first; try discriminate H1.
    rewrite H1, H2, H3. cbn [is_literal]. rewrite String.eqb_refl. reflexivity.
Qed.

(** C5 fails as stated, in both directions: a collection whose second
    feature has neither join key nor geometry is accepted, and a
    collection whose only feature has both but lacks the feature tag is
    rejected. *)
Lemma validateGeoJSON_not_every_feature :
  validateGeoJSON (collection_json [feature_json "48201"; bare_feature_json]) = Returns true /\
  every_feature_shape (collection_json [feature_json "48201"; bare_feature_json]) = false /\
  validateGeoJSON (collection_json [untagged_feature_json]) = Returns false /\
  every_feature_shape (collection_json [untagged_feature_json]) = true.
Proof. repeat split; reflexivity. Qed.

(** ** useCountyData *)

Module CountyDataFacts.
Import CountyData.
Section Facts.
Context {D : Type}.
Implicit Types (h : Hook D) (es : list (Event D)).

Lemma failed_ensureLoaded h : failed h -> ensureLoaded h = (h, Now None).
Proof.
  intros (_ & Hd & He & Hf & Hp). unfold ensureLoaded.
  rewrite Hd, Hp, Hf, He. reflexivity.
Qed.

Lemma failed_render h : failed h -> render h = h.
Proof.
  intros (Hs & _). destruct h as [s r f p pe i]; simpl in *. subst. reflexivity.
Qed.

Lemma failed_run h es :
  failed h -> forallb is_call_or_render es = true ->
  run es h = h /\ List.Forall (fun r => r = Now None) (returns es h).
Proof.
  intros Hf. induction es as [|e es IH]; intros Hes; [split; [reflexivity|constructor]|].
  simpl in Hes. apply andb_true_iff in Hes. destruct Hes as [He Hes].
  destruct (IH Hes) as [IH1 IH2].
  destruct e; try discriminate; unfold run in *; simpl.
  - rewrite (failed_ensureLoaded h Hf). simpl. split; [exact IH1|].
    constructor; [reflexivity|exact IH2].
  - rewrite (failed_render h Hf). split; assumption.
Qed.

Lemma is_pending_app h p : is_pending p h = true <-> In p (pending h).
Proof.
  unfold is_pending. rewrite existsb_exists. split.
  - intros (q & Hq & E). apply Nat.eqb_eq in E. now subst.
  - intros H. exists p. split; [exact H|apply Nat.eqb_refl].
Qed.

Lemma ensureLoaded_owner h h1 p :
  ensureLoaded h = (h1, Owner p) ->
  p = issued h /\ issued h1 = S (issued h) /\ pending h1 = (pending h ++ [p])%list /\
  fetchedRef h1 = true /\ promiseRef h1 = Some p /\ stateRef h1 = stateRef h.
Proof.
  unfold ensureLoaded.
  destruct (data (stateRef h)); [discriminate|].
  destruct (promiseRef h); [discriminate|].
  destruct (fetchedRef h && truthy (error (stateRef h))); [discriminate|].
  intros E. inversion E; subst. simpl. auto 10.
Qed.

Lemma settle_rejected_failed h p err :
  In p (pending h) -> fetchedRef h = true ->
  failure_message err <> "" ->
  failed (render (settle p (Rejected err) h)).
Proof.
  intros Hin Hf Hm. unfold settle.
  apply is_pending_app in Hin. rewrite Hin. unfold failed, render. simpl.
  repeat split; auto.
  destruct (failure_message err); [congruence|reflexivity].
Qed.

Lemma settle_fulfilled_cached h p d :
  In p (pending h) ->
  let h' := render (settle p (Fulfilled d) h) in
  stateRef h' = {| data := Some d; loading := false; error := None |} /\
  ensureLoaded h' = (h', Now (Some d)) /\
  issued h' = issued h.
Proof.
  intros Hin. apply is_pending_app in Hin. unfold settle. rewrite Hin.
  simpl. repeat split; reflexivity.
Qed.

Lemma armed_ensureLoaded h :
  data (stateRef h) = None -> promiseRef h = None -> fetchedRef h = false ->
  exists h1, ensureLoaded h = (h1, Owner (issued h)) /\
             issued h1 = S (issued h) /\
             In (issued h) (pending h1) /\
             fetchedRef h1 = true.
Proof.
  intros Hd Hp Hf. unfold ensureLoaded. rewrite Hd, Hp, Hf. simpl.
  eexists. split; [reflexivity|]. simpl. repeat split; auto.
  apply in_or_app. right. now left.
Qed.

(** X23. A load is started and fails with an error message, and React
    renders the component again for the state update, which copies the
    error state into [stateRef].  From then on calls of [ensureLoaded],
    whatever renders come between them, leave the hook as it is, issue no
    fetch and return null.
    [retry] clears the error; the next call of [ensureLoaded], before or
    after a render, issues exactly one fetch.  If that load succeeds the
    data is cached and the error is cleared; if it fails as well, again
    no further fetch is issued. *)
Theorem ensureLoaded_no_retry_until_retry
    h h1 (p : PromiseId) (err : Failure) es (rendered : bool) :
  ensureLoaded h = (h1, Owner p) ->
  failure_message err <> "" ->
  forallb is_call_or_render es = true ->
  let hf := render (settle p (Rejected err) h1) in
  let hr := if rendered then render (retry hf) else retry hf in
  run es hf = hf /\
  List.Forall (fun r => r = Now None) (returns es hf) /\
  issued (run es hf) = issued h1 /\
  error (state (retry hf)) = None /\
  exists h2,
    ensureLoaded hr = (h2, Owner (issued hf)) /\
    issued h2 = S (issued hf) /\
    (forall d,
       let hs := render (settle (issued hf) (Fulfilled d) h2) in
       data (stateRef hs) = Some d /\ error (stateRef hs) = None /\
       ensureLoaded hs = (hs, Now (Some d)) /\ issued hs = S (issued hf)) /\
    (forall err' es',
       failure_message err' <> "" ->
       forallb is_call_or_render es' = true ->
       let hf' := render (settle (issued hf) (Rejected err') h2) in
       issued (run es' hf') = S (issued hf) /\
       List.Forall (fun r => r = Now None) (returns es' hf')).
Proof.
  intros Hstart Hmsg Hes hf hr.
  destruct (ensureLoaded_owner h h1 p Hstart) as (-> & Hi & Hpend & Hf & Hp & Hs).
  assert (Hin : In (issued h) (pending h1)).
  { rewrite Hpend. apply in_or_app. right. now left. }
  assert (Hfailed : failed hf) by (apply settle_rejected_failed; assumption).
  destruct (failed_run hf es Hfailed Hes) as [Hrun Hret].
  assert (Hissued : issued hf = issued h1).
  { unfold hf, settle. apply is_pending_app in Hin. rewrite Hin. reflexivity. }
  split; [exact Hrun|]. split; [exact Hret|].
  split; [rewrite Hrun; exact Hissued|]. split; [reflexivity|].
  assert (Harmed : data (stateRef hr) = None /\ promiseRef hr = None
                   /\ fetchedRef hr = false /\ issued hr = issued hf).
  { destruct Hfailed as (_ & Hd & _). unfold hr.
    destruct rendered; simpl; auto. }
  destruct Harmed as (Hd & Hpr & Hfr & Hir).
  destruct (armed_ensureLoaded hr Hd Hpr Hfr) as (h2 & He & Hi2 & Hin2 & Hf2).
  rewrite Hir in He, Hi2, Hin2.
  exists h2. split; [exact He|]. split; [exact Hi2|]. split.
  - intros d hs.
    destruct (settle_fulfilled_cached h2 (issued hf) d Hin2) as (Hst & Hcall & Hiss).
    fold hs in Hst, Hcall, Hiss. rewrite Hst. cbn [data error].
    split; [reflexivity|]. split; [reflexivity|]. split; [exact Hcall|].
    rewrite Hiss. exact Hi2.
  - intros err' es' Hmsg' Hes' hf'.
    assert (Hfailed' : failed hf') by (apply settle_rejected_failed; assumption).
    destruct (failed_run hf' es' Hfailed' Hes') as [Hrun' Hret'].
    split; [|exact Hret']. rewrite Hrun'.
    unfold hf', settle. apply is_pending_app in Hin2. rewrite Hin2. simpl. exact Hi2.
Qed.

End Facts.

Lemma ensureLoaded_no_retry_until_retry_witness :
  let h : Hook (list (string * Z)) := initial in
  let h1 := fst (ensureLoaded h) in
  let es := [Call; Render; Call] in
  let hf := render (settle 0 (Rejected (NotOk "500")) h1) in
  let hr := retry hf in
  run es hf = hf /\
  List.Forall (fun r => r = Now None) (returns es hf) /\
  issued (run es hf) = issued h1 /\
  error (state (retry hf)) = None /\
  exists h2,
    ensureLoaded hr = (h2, Owner (issued hf)) /\
    issued h2 = S (issued hf) /\
    (forall d,
       let hs := render (settle (issued hf) (Fulfilled d) h2) in
       data (stateRef hs) = Some d /\ error (stateRef hs) = None /\
       ensureLoaded hs = (hs, Now (Some d)) /\ issued hs = S (issued hf)) /\
    (forall err' es',
       failure_message err' <> "" ->
       forallb is_call_or_render es' = true ->
       let hf' := render (settle (issued hf) (Rejected err') h2) in
       issued (run es' hf') = S (issued hf) /\
       List.Forall (fun r => r = Now None) (returns es' hf')).
Proof.
  apply (ensureLoaded_no_retry_until_retry initial (fst (ensureLoaded initial)) 0
           (NotOk "500") [Call; Render; Call] false).
  - reflexivity.
  - discriminate.
  - reflexivity.
Defined.

(** The scenario of the test suite: a failure, [retry], then a success. *)
Example allows_retry_after_failure :
  let h : Hook (list (string * Z)) :=
    run [Call; Settle 0 (Rejected (NotOk "500")); Render; Call; Retry; Render;
         Call; Settle 1 (Fulfilled MOCK_DEMOGRAPHICS); Render] initial in
  data (stateRef h) = Some MOCK_DEMOGRAPHICS /\ error (stateRef h) = None /\ issued h = 2.
Proof. repeat split; reflexivity. Qed.

End CountyDataFacts.

(** C7. The guard against an automatic retry reads the error through
    [stateRef], which holds the state of the last render.  After a load
    has failed and before the component has rendered again, the state
    carries the error but the ref does not: a call of [ensureLoaded] made
    then issues a second fetch although [retry] was never invoked.  Once
    the component has rendered, the same call issues none. *)
Theorem ensureLoaded_fetches_again_before_render {D : Type} (status : string) :
  let h : CountyData.Hook D :=
    CountyData.run [CountyData.Call;
                    CountyData.Settle 0 (CountyData.Rejected (CountyData.NotOk status))]
                   CountyData.initial in
  CountyData.error (CountyData.state h)
  = Some ("Failed to load demographics: " ++ status)%string /\
  CountyData.error (CountyData.stateRef h) = None /\
  CountyData.issued h = 1 /\
  snd (CountyData.ensureLoaded h) = CountyData.Owner 1 /\
  CountyData.issued (fst (CountyData.ensureLoaded h)) = 2 /\
  CountyData.ensureLoaded (CountyData.render h)
  = (CountyData.render h, CountyData.Now None).
Proof. repeat split. Qed.
Module SingleFlight.
Import CountyData.
Section Facts.
Context {D : Type}.
Implicit Types (h : Hook D) (es : list (Event D)).

Lemma single_flight_initial : single_flight (initial (AllCountyDemographics := D)).
Proof. split; [now left|reflexivity]. Qed.

Lemma drop_single (p : PromiseId) : drop p [p] = [].
Proof. unfold drop. simpl. rewrite Nat.eqb_refl. reflexivity. Qed.

Lemma single_flight_call h : single_flight h -> single_flight (fst (ensureLoaded h)).
Proof.
  intros Hinv. unfold ensureLoaded.
  destruct (data (stateRef h)) eqn:Er; [exact Hinv|].
  destruct (promiseRef h) eqn:Ep; [exact Hinv|].
  destruct (fetchedRef h && truthy (error (stateRef h))); [exact Hinv|].
  destruct Hinv as [Hp Hd]. rewrite Er, Ep in *.
  simpl. split; [|discriminate].
  destruct Hp as [Hp | (p & _ & Hp & _)]; [|congruence].
  right. exists (issued h). simpl. rewrite Hp. auto.
Qed.

Lemma single_flight_settle h p o : single_flight h -> single_flight (settle p o h).
Proof.
  intros Hinv. unfold settle.
  destruct (is_pending p h) eqn:E; [|exact Hinv]. destruct Hinv as [Hp Hd].
  apply CountyDataFacts.is_pending_app in E.
  assert (Hdrop : drop p (pending h) = []).
  { destruct Hp as [Hp | (q & Hp & _)]; rewrite Hp in *; [destruct E|].
    destruct E as [-> | []]. apply drop_single. }
  destruct o; split; cbn [pending promiseRef state data]; auto.
  intros Hnone. destruct Hp as [Hp | (q & _ & Hq & _)]; [|congruence].
  rewrite Hp in E. destruct E.
Qed.

Lemma single_flight_retry h : pending h = [] -> single_flight (retry h).
Proof. intros Hp. split; simpl; auto. Qed.

Lemma single_flight_render h : single_flight h -> single_flight (render h).
Proof.
  intros [Hp Hd]. split; simpl; auto.
  destruct Hp as [Hp | (p & Hp & Hr & Hs & _)]; [now left|].
  right. exists p. auto.
Qed.

Lemma single_flight_run es h :
  single_flight h -> retry_when_idle es h = true -> single_flight (run es h).
Proof.
  revert h. induction es as [|e es IH]; intros h Hinv Hok; [exact Hinv|].
  simpl in Hok. apply andb_true_iff in Hok. destruct Hok as [He Hok].
  unfold run. simpl. apply IH; [|exact Hok].
  destruct e; simpl.
  - now apply single_flight_call.
  - now apply single_flight_settle.
  - apply single_flight_retry. destruct (pending h); [reflexivity|discriminate].
  - now apply single_flight_render.
Qed.

Lemma single_flight_shared h p :
  single_flight h -> In p (pending h) -> ensureLoaded h = (h, Shared p).
Proof.
  intros [[Hp | (q & Hp & Hr & Hs & Hd)] _] Hin; rewrite Hp in Hin; [destruct Hin|].
  destruct Hin as [-> | []]. unfold ensureLoaded. rewrite Hd, Hr. reflexivity.
Qed.

End Facts.
End SingleFlight.

(** C1 as the code has it, for the demographics key: along every run of
    the hook from its initial state in which [retry] is not invoked while
    a fetch is pending, at most one fetch is outstanding at any time;
    a call of [ensureLoaded] made while the fetch is pending issues no
    fetch and is handed the pending promise itself, so that on success
    the call that started the fetch and every call that joined it
    resolve to the one response body.  Score requests, in contrast,
    are not shared while in flight. *)
Theorem demographics_single_flight {D : Type} (es : list (CountyData.Event D)) :
  CountyData.retry_when_idle es CountyData.initial = true ->
  let h := CountyData.run es CountyData.initial in
  (List.length (CountyData.pending h) <= 1)%nat /\
  forall p, In p (CountyData.pending h) ->
    CountyData.ensureLoaded h = (h, CountyData.Shared p) /\
    forall (r : CountyData.Returned D) (d : D),
      In r [CountyData.Owner p; CountyData.Shared p] ->
      CountyData.resolution r (CountyData.Fulfilled d) = CountyData.Value (Some d).
Proof.
  intros Hok h.
  assert (Hinv : single_flight h).
  { apply SingleFlight.single_flight_run; [apply SingleFlight.single_flight_initial|exact Hok]. }
  split.
  - destruct Hinv as [[Hp | (p & Hp & _)] _]; rewrite Hp; simpl; lia.
  - intros p Hin. split; [now apply SingleFlight.single_flight_shared|].
    intros r d [<- | [<- | []]]; reflexivity.
Qed.

Lemma demographics_single_flight_witness :
  let es : list (CountyData.Event (list (string * Z))) :=
    [CountyData.Call; CountyData.Call; CountyData.Render; CountyData.Call] in
  let h := CountyData.run es CountyData.initial in
  (List.length (CountyData.pending h) <= 1)%nat /\
  forall p, In p (CountyData.pending h) ->
    CountyData.ensureLoaded h = (h, CountyData.Shared p) /\
    forall (r : CountyData.Returned (list (string * Z))) (d : list (string * Z)),
      In r [CountyData.Owner p; CountyData.Shared p] ->
      CountyData.resolution r (CountyData.Fulfilled d) = CountyData.Value (Some d).
Proof.
  apply (demographics_single_flight
           [CountyData.Call; CountyData.Call; CountyData.Render; CountyData.Call]).
  reflexivity.
Defined.

(** Two concurrent calls: one fetch, and both resolve to the body. *)
Example ensureLoaded_twice :
  let h0 : CountyData.Hook (list (string * Z)) := CountyData.initial in
  let (h1, r1) := CountyData.ensureLoaded h0 in
  let (h2, r2) := CountyData.ensureLoaded h1 in
  CountyData.issued h2 = 1 /\ r1 = CountyData.Owner 0 /\ r2 = CountyData.Shared 0 /\
  CountyData.resolution r1 (CountyData.Fulfilled MOCK_DEMOGRAPHICS)
  = CountyData.resolution r2 (CountyData.Fulfilled MOCK_DEMOGRAPHICS).
Proof. repeat split; reflexivity. Qed.

(** Outside the amended statement: [retry] during a pending fetch lets a
    second fetch start, and when the fetch fails the call that started it
    resolves to null while a call that joined it is rejected. *)
Example retry_while_pending :
  let h : CountyData.Hook (list (string * Z)) :=
    CountyData.run [CountyData.Call; CountyData.Retry; CountyData.Call] CountyData.initial in
  CountyData.pending h = [0; 1].
Proof. reflexivity. Qed.

Example rejection_not_shared :
  CountyData.resolution (CountyData.Owner 0)
    (CountyData.Rejected (AllCountyDemographics := list (string * Z)) (CountyData.NotOk "500"))
  = CountyData.Value None /\
  CountyData.resolution (CountyData.Shared 0)
    (CountyData.Rejected (AllCountyDemographics := list (string * Z)) (CountyData.NotOk "500"))
  = CountyData.Raises (CountyData.NotOk "500").
Proof. split; reflexivity. Qed.

(** ** useIndustryData *)

Module IndustryDataFacts.
Import IndustryData.


Lemma catalog_has_id (catalog : list Industry) (selected : string) :
  existsb (fun ind => String.eqb (id ind) selected) catalog = true
  <-> In selected (map id catalog).
Proof.
  rewrite existsb_exists, in_map_iff. split.
  - intros (ind & Hin & E). apply String.eqb_eq in E. eauto.
  - intros (ind & E & Hin). exists ind. split; [exact Hin|].
    apply String.eqb_eq. exact E.
Qed.


End IndustryDataFacts.



(** The scenario of the test suite: an unknown id is rejected with its
    message and nothing is requested. *)
Example rejects_unknown_industry :
  let h := IndustryData.select (Some "unknown-industry") catalog_loaded in
  IndustryData.scoresError h = Some "Unknown industry ID: unknown-industry" /\
  IndustryData.rawScores h = None /\ IndustryData.requested h = [].
Proof. repeat split; vm_compute; reflexivity. Qed.


(** C1 fails as stated for industry ids: selecting an id, switching away
    and switching back before the first answer arrives issues a second
    request for the same id while the first is still outstanding. *)
Lemma score_fetches_not_shared :
  let h := IndustryData.select (Some "coffee-shops")
             (IndustryData.select (Some "gyms")
                (IndustryData.select (Some "coffee-shops") catalog_loaded)) in
  IndustryData.requested h = ["coffee-shops"; "gyms"; "coffee-shops"] /\
  IndustryData.outstanding "coffee-shops" h = 2.
Proof. split; vm_compute; reflexivity. Qed.

(** ** The style switch of MapView *)

Module StyleSwitchFacts.
Import StyleSwitch.









End StyleSwitchFacts.



(** A late style-load signal after the timeout does not commit again. *)
Example late_signal_commits_once :
  let c0 := StyleSwitch.switchStyle false true
              {| StyleSwitch.mapReady := true;
                 StyleSwitch.geojsonStatus := StyleSwitch.loaded;
                 StyleSwitch.settled := false; StyleSwitch.listener := false;
                 StyleSwitch.timer := None; StyleSwitch.commits := 0 |} in
  let c' := StyleSwitch.run [StyleSwitch.Elapse 5000; StyleSwitch.StyleLoad] c0 in
  StyleSwitch.mapReady c' = true /\ StyleSwitch.commits c' = 1.
Proof. split; reflexivity. Qed.

(** After its clean-up the effect has neither listener nor timer. *)
Lemma cleaned_up_step (e : StyleSwitch.Event) (c : StyleSwitch.Controller) :
  StyleSwitch.listener c = false -> StyleSwitch.timer c = None ->
  StyleSwitch.step e c = c.
Proof.
  intros Hl Ht. destruct e; simpl.
  - rewrite Hl. reflexivity.
  - rewrite Ht. reflexivity.
  - destruct c; simpl in *. subst. reflexivity.
Qed.

(** C8. A second change of the theme while a swap is under way leaves
    the map stuck.  The first change (to dark, from a style that is not
    dark) starts a swap.  The second change (back to light) cleans up the
    first run, which removes the listener and clears the timer, and the
    effect, run again while the engine reports no dark style, finds the
    style as wanted and returns.  From then on neither the style-load
    signal nor any passing of time makes the map ready. *)
Theorem style_swap_stuck_after_second_change
    (c : StyleSwitch.Controller) (es : list StyleSwitch.Event) :
  let swapping := StyleSwitch.switchStyle false true c in
  let back := StyleSwitch.themeChanged false false swapping in
  StyleSwitch.mapReady swapping = false /\
  StyleSwitch.listener back = false /\
  StyleSwitch.timer back = None /\
  StyleSwitch.mapReady (StyleSwitch.run es back) = false /\
  StyleSwitch.commits (StyleSwitch.run es back) = 0.
Proof.
  intros swapping back.
  assert (Hrun : StyleSwitch.run es back = back).
  { induction es as [|e es IH]; [reflexivity|].
    unfold StyleSwitch.run in *. simpl.
    rewrite (cleaned_up_step e back); [exact IH|reflexivity|reflexivity]. }
  rewrite Hrun. repeat split.
Qed.
(** ** The fit-bounds effect of MapView *)

Module BoundingBoxFacts.
Import GeoJSON FitBounds BoundingBox.

Lemma positions_nested (items : list Coordinates) :
  positions (Nested items) = flat_map positions items.
Proof.
  simpl. induction items as [|x items IH]; [reflexivity|].
  simpl. rewrite IH. reflexivity.
Qed.

Lemma min_of_snoc (l : list Qc) (x : Qc) :
  (if js_lt (Fin x) (min_of l) then Fin x else min_of l) = min_of (l ++ [x]).
Proof.
  destruct l as [|y l]; [reflexivity|]. simpl.
  rewrite fold_left_app. simpl. set (m := fold_left keep_min l y).
  unfold keep_min. destruct (Qcltb x m); reflexivity.
Qed.

Lemma max_of_snoc (l : list Qc) (x : Qc) :
  (if js_gt (Fin x) (max_of l) then Fin x else max_of l) = max_of (l ++ [x]).
Proof.
  destruct l as [|y l]; [reflexivity|]. simpl.
  rewrite fold_left_app. simpl. set (m := fold_left keep_max l y).
  unfold keep_max, js_gt. simpl. destruct (Qcltb m x); reflexivity.
Qed.

Lemma min_of_nan (l : list Qc) : (if js_lt NaN (min_of l) then NaN else min_of l) = min_of l.
Proof. reflexivity. Qed.

Lemma max_of_nan (l : list Qc) : (if js_gt NaN (max_of l) then NaN else max_of l) = max_of l.
Proof. unfold js_gt. destruct (max_of l); reflexivity. Qed.

Lemma extend_box_from (xs ys : list Qc) (lng : Qc) (more : list Qc) :
  extend (box_from xs ys) (Fin lng) (second more)
  = box_from (xs ++ [lng]) (ys ++ lat_of (lng :: more)).
Proof.
  unfold extend, box_from. cbn [minLng minLat maxLng maxLat].
  destruct more as [|lat more]; cbn [second lat_of].
  - rewrite app_nil_r, min_of_snoc, max_of_snoc, min_of_nan, max_of_nan.
    reflexivity.
  - rewrite !min_of_snoc, !max_of_snoc. reflexivity.
Qed.

Lemma min_of_ext (l l' : list Qc) :
  (forall x, In x l <-> In x l') -> min_of l = min_of l'.
Proof.
  intros H. destruct l as [|x l], l' as [|x' l']; simpl.
  - reflexivity.
  - exfalso. apply (H x'). now left.
  - exfalso. apply (H x). now left.
  - f_equal. apply (least_unique _ _ (x :: l)); [apply least_fold|].
    destruct (least_fold x' l') as [Hin Hle]. split.
    + apply H. exact Hin.
    + intros y Hy. apply Hle. apply H. exact Hy.
Qed.

Lemma max_of_ext (l l' : list Qc) :
  (forall x, In x l <-> In x l') -> max_of l = max_of l'.
Proof.
  intros H. destruct l as [|x l], l' as [|x' l']; simpl.
  - reflexivity.
  - exfalso. apply (H x'). now left.
  - exfalso. apply (H x). now left.
  - f_equal. apply (greatest_unique _ _ (x :: l)); [apply greatest_fold|].
    destruct (greatest_fold x' l') as [Hin Hle]. split.
    + apply H. exact Hin.
    + intros y Hy. apply Hle. apply H. exact Hy.
Qed.

Lemma box_from_ext (xs ys xs' ys' : list Qc) :
  (forall x, In x xs <-> In x xs') -> (forall y, In y ys <-> In y ys') ->
  box_from xs ys = box_from xs' ys'.
Proof.
  intros Hx Hy. unfold box_from.
  rewrite (min_of_ext xs xs' Hx), (max_of_ext xs xs' Hx),
          (min_of_ext ys ys' Hy), (max_of_ext ys ys' Hy). reflexivity.
Qed.

(** The numbers of one kind ([lng_of] or [lat_of]) on a stack. *)
Definition on_stack (pick : list Qc -> list Qc) (stack : list Coordinates) : list Qc :=
  flat_map pick (flat_map positions stack).

Lemma on_stack_cons pick c stack :
  on_stack pick (c :: stack) = (flat_map pick (positions c) ++ on_stack pick stack)%list.
Proof. unfold on_stack. simpl. rewrite flat_map_app. reflexivity. Qed.

Lemma on_stack_app pick a b :
  on_stack pick (a ++ b) = (on_stack pick a ++ on_stack pick b)%list.
Proof. unfold on_stack. rewrite !flat_map_app. reflexivity. Qed.

Lemma on_stack_rev pick a x : In x (on_stack pick (rev a)) <-> In x (on_stack pick a).
Proof.
  unfold on_stack. rewrite !in_flat_map. split.
  - intros (p & Hp & Hx). exists p. split; [|exact Hx].
    apply in_flat_map in Hp. destruct Hp as (c & Hc & Hp).
    apply in_flat_map. exists c. split; [now apply in_rev|exact Hp].
  - intros (p & Hp & Hx). exists p. split; [|exact Hx].
    apply in_flat_map in Hp. destruct Hp as (c & Hc & Hp).
    apply in_flat_map. exists c. split; [now apply in_rev in Hc|exact Hp].
Qed.

Lemma on_stack_nested pick items rest x :
  In x (on_stack pick (rev items ++ rest)) <-> In x (on_stack pick (Nested items :: rest)).
Proof.
  rewrite on_stack_app, on_stack_cons, positions_nested, !in_app_iff, on_stack_rev.
  reflexivity.
Qed.

(** The walk of a stack extends a box over the numbers seen so far to
    the box over these numbers and the numbers on the stack. *)
Lemma walk_box_from (stack : list Coordinates) (box : Box) :
  forall xs ys, box = box_from xs ys ->
  exists xs' ys',
    walk stack box = box_from xs' ys' /\
    (forall x, In x xs' <-> In x xs \/ In x (on_stack lng_of stack)) /\
    (forall y, In y ys' <-> In y ys \/ In y (on_stack lat_of stack)).
Proof.
  funelim (walk stack box); intros xs ys Hbox.
  - exists xs, ys. simp walk. split; [exact Hbox|].
    split; intros z; simpl; tauto.
  - destruct (H xs ys Hbox) as (xs' & ys' & Hw & Hx & Hy).
    exists xs', ys'. simp walk. split; [exact Hw|].
    rewrite !on_stack_cons. simpl. split; assumption.
  - destruct (H (xs ++ [lng]) (ys ++ lat_of (lng :: more)))
      as (xs' & ys' & Hw & Hx & Hy).
    { rewrite Hbox. apply extend_box_from. }
    exists xs', ys'. simp walk. split; [exact Hw|].
    rewrite !on_stack_cons. cbn [positions flat_map]. rewrite !app_nil_r.
    split; intros z; [rewrite Hx|rewrite Hy]; rewrite !in_app_iff; simpl; tauto.
  - destruct (H xs ys Hbox) as (xs' & ys' & Hw & Hx & Hy).
    exists xs', ys'. simp walk. split; [exact Hw|].
    split; intros z; [rewrite Hx|rewrite Hy]; rewrite on_stack_nested; reflexivity.
Qed.

Lemma walk_features_box_from (fs : list Feature) :
  forall box xs ys, box = box_from xs ys ->
  exists xs' ys',
    fold_left walk_feature fs box = box_from xs' ys' /\
    (forall x, In x xs' <-> In x xs \/ In x (lngs fs)) /\
    (forall y, In y ys' <-> In y ys \/ In y (lats fs)).
Proof.
  induction fs as [|f fs IH]; intros box xs ys Hbox.
  - exists xs, ys. split; [exact Hbox|]. split; intros z; simpl; tauto.
  - cbn [fold_left].
    assert (Hf : exists xs1 ys1,
               walk_feature box f = box_from xs1 ys1 /\
               (forall x, In x xs1 <-> In x xs \/ In x (flat_map lng_of (walked f))) /\
               (forall y, In y ys1 <-> In y ys \/ In y (flat_map lat_of (walked f)))).
    { unfold walk_feature, walked.
      destruct (geometry f) as [[kind c | gs]|].
      - destruct (walk_box_from [c] box xs ys Hbox) as (xs1 & ys1 & Hw & Hx & Hy).
        exists xs1, ys1. split; [exact Hw|].
        unfold on_stack in Hx, Hy. simpl in Hx, Hy. rewrite app_nil_r in Hx, Hy.
        split; assumption.
      - exists xs, ys. split; [exact Hbox|]. split; intros z; simpl; tauto.
      - exists xs, ys. split; [exact Hbox|]. split; intros z; simpl; tauto. }
    destruct Hf as (xs1 & ys1 & Hw & Hx & Hy).
    destruct (IH (walk_feature box f) xs1 ys1 Hw) as (xs' & ys' & Hw' & Hx' & Hy').
    exists xs', ys'. split; [exact Hw'|].
    unfold lngs, lats in *. cbn [flat_map]. rewrite !flat_map_app.
    split; intros z; [rewrite Hx', Hx|rewrite Hy', Hy]; rewrite in_app_iff; tauto.
Qed.

(** The loops of the effect compute the bounding box of the features. *)
Lemma walk_features_bounding_box (fs : list Feature) :
  fold_left walk_feature fs empty_box = bounding_box fs.
Proof.
  destruct (walk_features_box_from fs empty_box [] [] eq_refl)
    as (xs & ys & Hw & Hx & Hy).
  rewrite Hw. apply box_from_ext.
  - intros x. rewrite Hx. simpl. tauto.
  - intros y. rewrite Hy. simpl. tauto.
Qed.

End BoundingBoxFacts.

(** C9. For a state filter that is set, and an engine that exists, the
    effect requests a fit with a given box and options exactly when the
    abbreviation resolves in the state table, the cached geometry is
    loaded, at least one feature carries the region code of the state,
    and the bounding box of these features (least and greatest longitude
    and latitude over all positions of their geometries, geometry
    collections left out) has min strictly less than max on both axes;
    the box requested is that bounding box, the padding 40 and the
    maximum zoom 10.  The abbreviations of the table are not empty. *)
Theorem fitEffect_requests_fit (stateList : list FitBounds.StateEntry)
    (filter : string) (geojson : option GeoJSON.FeatureCollection)
    (southWest northEast : num * num) (padding maxZoom : Z) :
  (forall s, In s stateList -> FitBounds.abbreviation s <> "") ->
  FitBounds.fitEffect stateList true (Some filter) geojson
  = Some (FitBounds.fitBounds southWest northEast padding maxZoom)
  <->
  exists stateEntry collection,
    BoundingBox.resolve stateList filter = Some stateEntry /\
    geojson = Some collection /\
    let matching :=
      BoundingBox.in_region (FitBounds.fips stateEntry) (GeoJSON.features collection) in
    let box := BoundingBox.bounding_box matching in
    matching <> [] /\
    BoundingBox.non_degenerate box /\
    southWest = (FitBounds.minLng box, FitBounds.minLat box) /\
    northEast = (FitBounds.maxLng box, FitBounds.maxLat box) /\
    padding = 40%Z /\ maxZoom = 10%Z.
Proof.
  intros Habbr. unfold FitBounds.fitEffect, BoundingBox.resolve. cbn [negb].
  destruct (String.eqb filter "") eqn:Eempty.
  { apply String.eqb_eq in Eempty. subst filter. split; [discriminate|].
    intros (stateEntry & collection & Hfind & _).
    apply find_some in Hfind. destruct Hfind as [Hin Heq].
    apply String.eqb_eq in Heq. exfalso. exact (Habbr stateEntry Hin Heq). }
  destruct (List.find _ stateList) as [stateEntry|]; cycle 1.
  { split; [discriminate|]. intros (? & ? & Hfind & _). discriminate. }
  destruct geojson as [collection|]; cycle 1.
  { split; [discriminate|]. intros (? & ? & _ & Hg & _). discriminate. }
  fold (BoundingBox.in_region (FitBounds.fips stateEntry) (GeoJSON.features collection)).
  set (matching := BoundingBox.in_region (FitBounds.fips stateEntry)
                     (GeoJSON.features collection)).
  rewrite BoundingBoxFacts.walk_features_bounding_box.
  set (box := BoundingBox.bounding_box matching).
  destruct (Nat.eqb (List.length matching) 0) eqn:Elen.
  { apply Nat.eqb_eq in Elen. split; [discriminate|].
    intros (e & c & He & Hc & Hm & _). inversion He; inversion Hc; subst.
    fold matching in Hm. destruct matching; [congruence|discriminate]. }
  destruct (js_lt (FitBounds.minLng box) (FitBounds.maxLng box)) eqn:Elng; cycle 1.
  { cbn [andb]. split; [discriminate|].
    intros (e & c & He & Hc & _ & [Hnd _] & _). inversion He; inversion Hc; subst.
    fold matching box in Hnd. congruence. }
  destruct (js_lt (FitBounds.minLat box) (FitBounds.maxLat box)) eqn:Elat; cycle 1.
  { cbn [andb]. split; [discriminate|].
    intros (e & c & He & Hc & _ & [_ Hnd] & _). inversion He; inversion Hc; subst.
    fold matching box in Hnd. congruence. }
  cbn [andb]. split.
  - intros H. inversion H; subst. exists stateEntry, collection.
    fold matching box. repeat split; auto.
    intros Hnil. rewrite Hnil in Elen. discriminate.
  - intros (e & c & He & Hc & _ & _ & -> & -> & -> & ->).
    inversion He; inversion Hc; subst. reflexivity.
Qed.

Lemma fitEffect_requests_fit_witness :
  FitBounds.fitEffect sample_stateList true (Some "TX") (Some sample_collection)
  = Some (FitBounds.fitBounds
            (Fin (Q2Qc (-959 # 10)), Fin (Q2Qc (295 # 10)))
            (Fin (Q2Qc (-949 # 10)), Fin (Q2Qc (302 # 10))) 40 10)
  <->
  exists stateEntry collection,
    BoundingBox.resolve sample_stateList "TX" = Some stateEntry /\
    Some sample_collection = Some collection /\
    let matching :=
      BoundingBox.in_region (FitBounds.fips stateEntry) (GeoJSON.features collection) in
    let box := BoundingBox.bounding_box matching in
    matching <> [] /\
    BoundingBox.non_degenerate box /\
    (Fin (Q2Qc (-959 # 10)), Fin (Q2Qc (295 # 10)))
    = (FitBounds.minLng box, FitBounds.minLat box) /\
    (Fin (Q2Qc (-949 # 10)), Fin (Q2Qc (302 # 10)))
    = (FitBounds.maxLng box, FitBounds.maxLat box) /\
    40%Z = 40%Z /\ 10%Z = 10%Z.
Proof.
  apply (fitEffect_requests_fit sample_stateList "TX" (Some sample_collection)).
  intros s [<- | [<- | []]]; discriminate.
Defined.

(** The effect on the sample data: Texas is fitted to the box of its
    county, an unknown abbreviation and a missing geometry request
    nothing, and no filter flies back to the default view. *)
Example fitEffect_samples :
  FitBounds.fitEffect sample_stateList true (Some "TX") (Some sample_collection)
  = Some (FitBounds.fitBounds
            (Fin (Q2Qc (-959 # 10)), Fin (Q2Qc (295 # 10)))
            (Fin (Q2Qc (-949 # 10)), Fin (Q2Qc (302 # 10))) 40 10) /\
  FitBounds.fitEffect sample_stateList true (Some "ZZ") (Some sample_collection) = None /\
  FitBounds.fitEffect sample_stateList true (Some "DC") (Some sample_collection) = None /\
  FitBounds.fitEffect sample_stateList true (Some "TX") None = None /\
  FitBounds.fitEffect sample_stateList true None (Some sample_collection)
  = Some (FitBounds.flyTo (Q2Qc (-985 # 10), Q2Qc (398 # 10)) 4).
Proof. repeat split; vm_compute; reflexivity. Qed.

(** ** The hover update of MapTooltip *)

(** C10. When the frame update finds a feature under the pointer whose
    properties lack the join key GEOID or the display name NAME, the
    tooltip state is set to null.  A tooltip is set only when both are
    present; it then carries the position of the pointer, the name, and
    the score of the entry the scores hold for the join key, which is
    null when there is no such entry. *)
Theorem frameUpdate_partial_feature (e : MapTooltip.MapLayerMouseEvent)
    (scores : option IndustryScores) (c : MapTooltip.Component)
    (feature : GeoJSON.Feature) :
  MapTooltip.first_feature e = Some feature ->
  let c' := MapTooltip.frameUpdate e scores c in
  (GeoJSON.property GeoJSON.GEOID feature = None \/
   GeoJSON.property GeoJSON.NAME feature = None ->
   MapTooltip.tooltip c' = None) /\
  (forall t, MapTooltip.tooltip c' = Some t ->
     exists fips name,
       GeoJSON.property GeoJSON.GEOID feature = Some fips /\
       GeoJSON.property GeoJSON.NAME feature = Some name /\
       MapTooltip.countyName t = name /\
       (MapTooltip.x t, MapTooltip.y t) = MapTooltip.point e /\
       MapTooltip.score t = MapTooltip.entry_score (MapTooltip.score_entry scores fips) /\
       (MapTooltip.score_entry scores fips = None -> MapTooltip.score t = None)).
Proof.
  intros Hfirst c'. unfold c', MapTooltip.frameUpdate. rewrite Hfirst.
  destruct (GeoJSON.property GeoJSON.GEOID feature) as [fips|] eqn:Ef;
    destruct (GeoJSON.property GeoJSON.NAME feature) as [name|] eqn:En.
  - split; [intros [H | H]; discriminate|].
    destruct (negb (truthy (Some fips)) || negb (truthy (Some name)));
      cbn [MapTooltip.tooltip]; intros t Ht; [discriminate|].
    inversion Ht; subst t. exists fips, name. cbn.
    repeat split; auto.
    + destruct (MapTooltip.point e); reflexivity.
    + intros ->. reflexivity.
  - destruct (negb (truthy (Some fips)) || negb (truthy None));
      (split; [reflexivity|]; intros t Ht; discriminate).
  - split; [reflexivity|]. intros t Ht. discriminate.
  - split; [reflexivity|]. intros t Ht. discriminate.
Qed.

Lemma frameUpdate_partial_feature_witness :
  let e := pointer_over nameless_feature in
  let c' := MapTooltip.frameUpdate e (Some same_value_scores) MapTooltip.unmounted in
  (GeoJSON.property GeoJSON.GEOID nameless_feature = None \/
   GeoJSON.property GeoJSON.NAME nameless_feature = None ->
   MapTooltip.tooltip c' = None) /\
  (forall t, MapTooltip.tooltip c' = Some t ->
     exists fips name,
       GeoJSON.property GeoJSON.GEOID nameless_feature = Some fips /\
       GeoJSON.property GeoJSON.NAME nameless_feature = Some name /\
       MapTooltip.countyName t = name /\
       (MapTooltip.x t, MapTooltip.y t) = MapTooltip.point e /\
       MapTooltip.score t = MapTooltip.entry_score
                              (MapTooltip.score_entry (Some same_value_scores) fips) /\
       (MapTooltip.score_entry (Some same_value_scores) fips = None ->
        MapTooltip.score t = None)).
Proof.
  apply (frameUpdate_partial_feature (pointer_over nameless_feature)
           (Some same_value_scores) MapTooltip.unmounted nameless_feature).
  reflexivity.
Defined.

(** A pointer move over a county without score entry, then the frame:
    the tooltip names the county and has no score. *)
Example hover_without_score :
  let c := MapTooltip.animationFrame 0 (Some same_value_scores)
             (MapTooltip.handleMouseMove (pointer_over harris_feature)
                MapTooltip.unmounted) in
  option_map MapTooltip.countyName (MapTooltip.tooltip c) = Some "Harris" /\
  option_map MapTooltip.score (MapTooltip.tooltip c) = Some None /\
  MapTooltip.rafRef c = None.
Proof. repeat split; reflexivity. Qed.

(** * Further properties *)

(** ** The derived values of useIndustryData *)

Lemma truthy_some (s : string) : s <> "" -> truthy (Some s) = true.
Proof.
  intros H. unfold truthy. destruct (String.eqb s "") eqn:E; [|reflexivity].
  apply String.eqb_eq in E. contradiction.
Qed.

Lemma in_firstn {A} (n : nat) (l : list A) (x : A) : In x (firstn n l) -> In x l.
Proof.
  intros H. rewrite <- (firstn_skipn n l). apply in_or_app. now left.
Qed.

Lemma filterScores_some (raw : IndustryScores) (st : string) :
  st <> "" ->
  exists filtered,
    filterScores (Some raw) (Some st) = Some filtered /\
    forall k e, In (k, e) filtered
                <-> In (k, e) raw /\ state e = st /\ k <> "__proto__".
Proof.
  intros Hst. unfold filterScores. rewrite (truthy_some st Hst). cbn [negb].
  eexists. split; [reflexivity|]. intros k e. unfold Object_entries, adds_property.
  rewrite filter_In. cbn [fst snd].
  rewrite andb_true_iff, negb_true_iff, String.eqb_eq, String.eqb_neq. reflexivity.
Qed.

Lemma topCounties_unfold (scores : IndustryScores) :
  topCounties (Some scores)
  = firstn 10 (Array_sort by_score_desc (Object_values scores)).
Proof. reflexivity. Qed.

Lemma topCounties_members (scores : IndustryScores) (c : CountyScore) :
  In c (topCounties (Some scores)) -> exists k, In (k, c) scores.
Proof.
  rewrite topCounties_unfold. intros Hc. apply in_firstn in Hc.
  apply (Permutation_in _ (Array_sort_perm by_score_desc (Object_values scores))) in Hc.
  unfold Object_values in Hc. apply in_map_iff in Hc.
  destruct Hc as ([k e] & <- & Hin). exists k. exact Hin.
Qed.

(** X1. Without a state filter (null or the empty string) the scores are
    passed through unchanged, and without scores the result is null.
    With a filter the own properties of the result are exactly the
    entries of the raw scores whose state is the filter, under their
    keys, except an entry under the key "__proto__", which the assignment
    turns into the prototype of the result instead of a property. *)
Theorem filterScores_by_state (raw : IndustryScores) (st : string) :
  filterScores (Some raw) None = Some raw /\
  filterScores (Some raw) (Some "") = Some raw /\
  filterScores None (Some st) = None /\
  (st <> "" ->
   exists filtered,
     filterScores (Some raw) (Some st) = Some filtered /\
     forall k e, In (k, e) filtered
                 <-> In (k, e) raw /\ state e = st /\ k <> "__proto__").
Proof.
  split; [reflexivity|]. split; [reflexivity|]. split; [reflexivity|].
  apply filterScores_some.
Qed.

(** X2. The top counties are at most 10, as many as there are entries
    when these are fewer, and each of them is a value of the scores;
    without scores the list is empty. *)
Theorem topCounties_length_members (scores : IndustryScores) :
  topCounties None = [] /\
  List.length (topCounties (Some scores)) = Nat.min 10 (List.length scores) /\
  forall c, In c (topCounties (Some scores)) -> exists k, In (k, c) scores.
Proof.
  split; [reflexivity|]. split; [|apply topCounties_members].
  rewrite topCounties_unfold, length_firstn.
  rewrite (Permutation_length (Array_sort_perm by_score_desc (Object_values scores))).
  unfold Object_values. rewrite length_map. reflexivity.
Qed.

(** X3. When there are scores, the first of the top counties carries the
    highest score of all entries. *)
Theorem topCounties_head_is_maximum (scores : IndustryScores)
    (top : CountyScore) (rest : list CountyScore) :
  topCounties (Some scores) = top :: rest ->
  forall k e, In (k, e) scores -> (score e <= score top)%Qc.
Proof.
  rewrite topCounties_unfold. intros Htop k e Hin.
  pose proof (Array_sort_sorted (Object_values scores)) as Hsorted.
  pose proof (Array_sort_perm by_score_desc (Object_values scores)) as Hperm.
  destruct (Array_sort by_score_desc (Object_values scores)) as [|first sorted] eqn:Es;
    [discriminate|].
  simpl in Htop. inversion Htop; subst first.
  assert (He : In e (top :: sorted)).
  { apply (Permutation_in _ (Permutation_sym Hperm)).
    unfold Object_values. apply in_map_iff. exists (k, e). auto. }
  destruct He as [<- | He]; [apply Qcle_refl|].
  apply StronglySorted_inv in Hsorted. destruct Hsorted as [_ Hall].
  rewrite List.Forall_forall in Hall. exact (Hall e He).
Qed.

Lemma topCounties_head_is_maximum_witness :
  topCounties (Some same_value_scores)
  = [makeCountyScore "48002" 60 110 200; makeCountyScore "48001" 50 10 200] /\
  (score (makeCountyScore "48001" 50 10 200)
   <= score (makeCountyScore "48002" 60 110 200))%Qc.
Proof.
  split; [reflexivity|].
  apply (topCounties_head_is_maximum same_value_scores
           (makeCountyScore "48002" 60 110 200)
           [makeCountyScore "48001" 50 10 200] eq_refl "48001").
  left. reflexivity.
Defined.

(** X4. Under a state filter every top county lies in that state and is
    an entry of the raw scores. *)
Theorem topCounties_of_filtered (raw : IndustryScores) (st : string) :
  st <> "" ->
  forall c, In c (topCounties (filterScores (Some raw) (Some st))) ->
    state c = st /\ exists k, In (k, c) raw.
Proof.
  intros Hst c Hc.
  destruct (filterScores_some raw st Hst) as (filtered & Heq & Hmem). rewrite Heq in Hc.
  destruct (topCounties_members filtered c Hc) as (k & Hk).
  apply Hmem in Hk. destruct Hk as (Hraw & Hs & _).
  split; [exact Hs|]. exists k. exact Hraw.
Qed.

Lemma topCounties_of_filtered_witness :
  state (makeCountyScore "48002" 60 110 200) = "TX" /\
  exists k, In (k, makeCountyScore "48002" 60 110 200) same_value_scores.
Proof.
  apply (topCounties_of_filtered same_value_scores "TX").
  - discriminate.
  - left. reflexivity.
Defined.

(** ** The range of the normalised values *)

Lemma eval_match_nonscore (scores : IndustryScores) (metric : MetricKey.t) :
  scores <> [] -> List.NoDup (Object_keys scores) -> is_score metric = false ->
  exists lo hi : Qc,
    least lo (metric_values scores metric) /\
    greatest hi (metric_values scores metric) /\
    metric_range (Object_entries scores) metric = (Fin lo, range_max lo hi) /\
    forall k entry, In (k, entry) scores ->
      eval_match (interpolate_input (buildFillColorExpression scores metric)) k
      = scaled (Fin (metric_field metric entry)) (Fin lo) (range_max lo hi).
Proof.
  intros Hne Hnd Hm.
  destruct (metric_range_nonscore scores metric Hne Hm) as (lo & hi & Hlo & Hhi & Hr).
  exists lo, hi. split; [exact Hlo|]. split; [exact Hhi|]. split; [exact Hr|].
  intros k entry Hk. rewrite buildFillColorExpression_unfold.
  unfold eval_match. cbn [interpolate_input match_pairs match_default].
  unfold Object_entries at 3.
  rewrite (match_lookup_pairs
             (fun kv => normalised metric
                          (fst (metric_range (Object_entries scores) metric))
                          (snd (metric_range (Object_entries scores) metric))
                          (metric_value metric (snd kv)))
             scores k entry Hnd Hk).
  rewrite Hr. cbn [fst snd]. unfold metric_value.
  apply normalised_nonscore. exact Hm.
Qed.

(** X5. For a metric other than the score and a non-empty scores
    mapping, whenever the divisor [max - min] that the function computes
    is a finite number other than zero, every entry is given a value
    between 0 and 100; an entry with the least value of the metric is
    given 0, and an entry with the greatest value is given 100 unless all
    values are equal. *)
Theorem normalised_within_scale (scores : IndustryScores) (metric : MetricKey.t)
    (d : Qc) :
  scores <> [] ->
  List.NoDup (Object_keys scores) ->
  metric <> MetricKey.score ->
  let range := metric_range (Object_entries scores) metric in
  Binary64.sub (snd range) (fst range) = Fin d ->
  d <> 0%Qc ->
  let input := interpolate_input (buildFillColorExpression scores metric) in
  forall k entry, In (k, entry) scores ->
    (exists v : Qc, eval_match input k = Fin v /\ (0 <= v)%Qc /\ (v <= Q2Qc 100)%Qc) /\
    (least (metric_field metric entry) (metric_values scores metric) ->
     eval_match input k = Fin 0) /\
    (greatest (metric_field metric entry) (metric_values scores metric) ->
     ~ least (metric_field metric entry) (metric_values scores metric) ->
     eval_match input k = Fin (Q2Qc 100)).
Proof.
  intros Hne Hnd Hm range Hd Hd0 input k entry Hk. apply is_score_false in Hm.
  destruct (eval_match_nonscore scores metric Hne Hnd Hm)
    as (lo & hi & Hlo & Hhi & Hr & Hev).
  fold input in Hev. rewrite (Hev k entry Hk). unfold range in Hd. rewrite Hr in Hd.
  cbn [fst snd] in Hd. unfold scaled. rewrite Hd.
  set (v := metric_field metric entry).
  assert (Hin : In v (metric_values scores metric)).
  { unfold metric_values. apply in_map_iff. exists (k, entry). auto. }
  assert (Hlov : (lo <= v)%Qc) by (apply Hlo, Hin).
  assert (Hvhi : (v <= hi)%Qc) by (apply Hhi, Hin).
  assert (HdF : Fin d <> Fin 0) by congruence.
  assert (Hzero : v = lo ->
            Binary64.mul (Binary64.div (Binary64.sub (Fin v) (Fin lo)) (Fin d))
                         (Fin (Q2Qc 100)) = Fin 0).
  { intros ->. rewrite Binary64Facts.sub_diag.
    apply Binary64Facts.scale_zero; [discriminate|exact HdF]. }
  destruct (Qceqb hi lo) eqn:E.
  - (* all values are equal *)
    apply Qceqb_eq in E. subst hi.
    assert (Hv : v = lo) by (apply Qcle_antisym; assumption).
    rewrite (Hzero Hv). split; [|split].
    + exists 0%Qc. split; [reflexivity|]. split; discriminate.
    + reflexivity.
    + intros _ Hnot. exfalso. apply Hnot. fold v. rewrite Hv. exact Hlo.
  - unfold range_max in Hd. rewrite E in Hd.
    change (Binary64.sub (Fin hi) (Fin lo)) with (Binary64.round (hi - lo)%Qc) in Hd.
    destruct (Binary64Facts.round_sandwich 0 (v - lo)%Qc (hi - lo)%Qc 0 d
                Binary64Facts.double_zero Hd) as (t & Ht & Ht0 & Htd).
    { apply Qcle_minus_iff in Hlov. exact Hlov. }
    { apply Qcplus_le_compat; [exact Hvhi|apply Qcle_refl]. }
    assert (Hdpos : (0 < d)%Qc).
    { assert (H0d : (0 <= d)%Qc) by (eapply Qcle_trans; eassumption).
      destruct (Qcle_lt_or_eq _ _ H0d) as [H | H]; [exact H|congruence]. }
    change (Binary64.sub (Fin v) (Fin lo)) with (Binary64.round (v - lo)%Qc) in *.
    split; [|split].
    + rewrite Ht. apply Binary64Facts.scale_within; assumption.
    + intros Hleast. apply Hzero. exact (least_unique _ _ _ Hleast Hlo).
    + intros Hgreatest _. fold v in Hgreatest.
      rewrite (greatest_unique _ _ _ Hgreatest Hhi), Hd.
      apply Binary64Facts.scale_full. exact Hd0.
Qed.

Lemma normalised_within_scale_witness :
  let input := interpolate_input
                 (buildFillColorExpression same_value_scores MetricKey.establishmentCount) in
  let entry := makeCountyScore "48002" 60 110 200 in
  (exists v : Qc, eval_match input "48002" = Fin v /\ (0 <= v)%Qc /\ (v <= Q2Qc 100)%Qc) /\
  (least (metric_field MetricKey.establishmentCount entry)
         (metric_values same_value_scores MetricKey.establishmentCount) ->
   eval_match input "48002" = Fin 0) /\
  (greatest (metric_field MetricKey.establishmentCount entry)
            (metric_values same_value_scores MetricKey.establishmentCount) ->
   ~ least (metric_field MetricKey.establishmentCount entry)
           (metric_values same_value_scores MetricKey.establishmentCount) ->
   eval_match input "48002" = Fin (Q2Qc 100)).
Proof.
  apply (normalised_within_scale same_value_scores MetricKey.establishmentCount
           (Q2Qc 100)).
  - discriminate.
  - repeat constructor; simpl; intuition discriminate.
  - discriminate.
  - apply (Binary64Facts.double_Z 100). vm_compute. discriminate.
  - discriminate.
  - right. left. reflexivity.
Defined.

(** X25. When every entry carries the same binary64 value [v] for a
    metric other than the score, the bounds are [v] and [v + 1] as
    binary64 adds.  If that sum differs from [v], the divisor is not
    zero, every entry is paired with 0 and every feature evaluates to 0;
    if the sum is [v] again, the divisor is zero and every entry is
    paired with NaN.  For an integer [v] of magnitude below 2^53 the sum
    differs from [v]. *)
Theorem uniform_metric_zero_unless_absorbed
    (scores : IndustryScores) (metric : MetricKey.t) (v : Qc) :
  scores <> [] ->
  metric <> MetricKey.score ->
  (forall k e, In (k, e) scores -> metric_field metric e = v) ->
  Binary64.double v ->
  let e := buildFillColorExpression scores metric in
  let forced := Binary64.add (Fin v) (Fin 1) in
  metric_range (Object_entries scores) metric = (Fin v, forced) /\
  (forced <> Fin v ->
   js_is_zero (Binary64.sub forced (Fin v)) = false /\
   match_pairs (interpolate_input e) = map (fun kv => (fst kv, Fin 0)) scores /\
   forall g, eval_match (interpolate_input e) g = Fin 0) /\
  (forced = Fin v ->
   js_is_zero (Binary64.sub forced (Fin v)) = true /\
   match_pairs (interpolate_input e) = map (fun kv => (fst kv, NaN)) scores) /\
  (forall n : Z, v = Q2Qc (inject_Z n) -> (Z.abs n < 2 ^ 53)%Z -> forced <> Fin v).
Proof.
  intros Hne Hm Hall Hdouble e forced.
  apply is_score_false in Hm.
  destruct (metric_range_nonscore scores metric Hne Hm) as (lo & hi & Hlo & Hhi & Hr).
  assert (Hv : forall x, In x (map (fun kv => metric_field metric (snd kv)) scores) -> x = v).
  { intros x Hx. apply in_map_iff in Hx. destruct Hx as ([k e0] & <- & Hin).
    simpl. eapply Hall; eauto. }
  assert (lo = v) by (apply Hv, Hlo). assert (hi = v) by (apply Hv, Hhi). subst lo hi.
  unfold range_max in Hr. rewrite Qceqb_refl in Hr. fold forced in Hr.
  assert (Hpairs : forall out,
            scaled (Fin v) (Fin v) forced = out ->
            match_pairs (interpolate_input e) = map (fun kv => (fst kv, out)) scores).
  { intros out Hout. unfold e. rewrite buildFillColorExpression_unfold.
    cbn [interpolate_input match_pairs]. rewrite Hr. cbn [fst snd]. unfold Object_entries.
    apply map_ext_in. intros [k e0] Hin. cbn [fst snd]. f_equal.
    unfold metric_value. rewrite (Hall k e0 Hin).
    rewrite (normalised_nonscore _ _ _ _ Hm). exact Hout. }
  split; [exact Hr|]. split; [|split].
  - intros Hforced.
    assert (Hd : Binary64.sub forced (Fin v) <> Fin 0 /\ Binary64.sub forced (Fin v) <> NaN).
    { unfold forced in *. unfold Binary64.add in *.
      destruct (Binary64.round (v + 1)) as [m| | |] eqn:Em.
      - apply Binary64Facts.sub_nonzero.
        + exact (Binary64Facts.round_grid _ _ Em).
        + exact (Binary64Facts.double_grid v Hdouble).
        + congruence.
      - split; discriminate.
      - split; discriminate.
      - exfalso. exact (Binary64Facts.round_not_NaN _ Em). }
    destruct Hd as [Hd0 HdN].
    assert (Hout : scaled (Fin v) (Fin v) forced = Fin 0).
    { unfold scaled. rewrite Binary64Facts.sub_diag.
      apply Binary64Facts.scale_zero; assumption. }
    split.
    { unfold js_is_zero. destruct (Binary64.sub forced (Fin v)) as [q| | |];
        try reflexivity. simpl. apply Qceqb_neq. congruence. }
    split; [exact (Hpairs _ Hout)|].
    intros g. unfold eval_match. rewrite (Hpairs _ Hout).
    assert (Hdef : match_default (interpolate_input e) = Fin 0).
    { unfold e. rewrite buildFillColorExpression_unfold. reflexivity. }
    rewrite Hdef. clear. induction scores as [|[k e0] rest IH]; [reflexivity|].
    simpl. destruct (String.eqb k g); [reflexivity|exact IH].
  - intros Hforced. rewrite Hforced, Binary64Facts.sub_diag.
    split; [reflexivity|]. apply Hpairs.
    unfold scaled. rewrite Hforced, Binary64Facts.sub_diag. reflexivity.
  - intros n -> Hn. exact (proj2 (Binary64Facts.add_one_Z n Hn)).
Qed.

Lemma uniform_metric_zero_unless_absorbed_witness :
  let e := buildFillColorExpression same_value_scores MetricKey.populationPerBiz in
  match_pairs (interpolate_input e) = map (fun kv => (fst kv, Fin 0)) same_value_scores /\
  eval_match (interpolate_input e) "48001" = Fin 0.
Proof.
  assert (Hdouble : Binary64.double (Q2Qc (inject_Z 200)))
    by (apply Binary64Facts.double_Z; vm_compute; discriminate).
  pose proof (uniform_metric_zero_unless_absorbed same_value_scores
                MetricKey.populationPerBiz (Q2Qc (inject_Z 200))) as H.
  destruct H as (_ & Hzero & _ & Hint).
  - discriminate.
  - discriminate.
  - intros k e [E | [E | []]]; inversion E; reflexivity.
  - exact Hdouble.
  - destruct Hzero as (_ & Hpairs & Heval).
    + apply (Hint 200%Z); [reflexivity|vm_compute; reflexivity].
    + split; [exact Hpairs|apply Heval].
Defined.

(** ** The comparator of topCounties on binary64 scores *)

Lemma compare_le0_sign {A} (compare : A -> A -> num) (x y : A) :
  compare_le0 compare x y
  = match Binary64.sign_of (compare x y) with Gt => false | _ => true end.
Proof.
  unfold compare_le0, Binary64.sign_of.
  destruct (js_lt (compare x y) (Fin 0)); [reflexivity|].
  destruct (js_strict_eq (compare x y) (Fin 0)); reflexivity.
Qed.

Lemma sort_insert_ext {A} (c1 c2 : A -> A -> num) (x : A) (l : list A) :
  (forall y, In y l -> compare_le0 c1 x y = compare_le0 c2 x y) ->
  sort_insert c1 x l = sort_insert c2 x l.
Proof.
  induction l as [|y l IH]; intros H; [reflexivity|]. simpl.
  rewrite (H y) by now left.
  destruct (compare_le0 c2 x y); [reflexivity|].
  f_equal. apply IH. intros z Hz. apply H. now right.
Qed.

Lemma Array_sort_ext {A} (c1 c2 : A -> A -> num) (l : list A) :
  (forall x y, In x l -> In y l -> compare_le0 c1 x y = compare_le0 c2 x y) ->
  Array_sort c1 l = Array_sort c2 l.
Proof.
  induction l as [|x l IH]; intros H; [reflexivity|]. simpl.
  rewrite IH by (intros a b Ha Hb; apply H; now right).
  apply sort_insert_ext. intros y Hy. apply H; [now left|right].
  exact (Permutation_in _ (Array_sort_perm c2 l) Hy).
Qed.

(** X26. On scores that are binary64 numbers, sorting with the
    comparator [(a, b) => b.score - a.score] as binary64 subtracts gives
    the list that sorting by the difference as a real number gives: the
    rounded difference is never zero for different scores and has the
    sign of the real one. *)
Theorem topCounties_binary64_comparator (scores : IndustryScores) :
  (forall k e, In (k, e) scores -> Binary64.double (score e)) ->
  slice0 10
    (Array_sort (fun a b => Binary64.sub (Fin (score b)) (Fin (score a)))
                (Object_values scores))
  = topCounties (Some scores).
Proof.
  intros Hdouble. rewrite topCounties_unfold. unfold slice0. f_equal.
  apply Array_sort_ext. intros x y Hx Hy.
  rewrite !compare_le0_sign. unfold by_score_desc.
  assert (Hd : forall c, In c (Object_values scores) -> Binary64.double (score c)).
  { intros c Hc. unfold Object_values in Hc. apply in_map_iff in Hc.
    destruct Hc as ([k e] & <- & Hin). exact (Hdouble k e Hin). }
  rewrite (Binary64Facts.sub_sign (score y) (score x) (Hd y Hy) (Hd x Hx)).
  reflexivity.
Qed.

Lemma topCounties_binary64_comparator_witness :
  slice0 10
    (Array_sort (fun a b => Binary64.sub (Fin (score b)) (Fin (score a)))
                (Object_values same_value_scores))
  = topCounties (Some same_value_scores).
Proof.
  apply topCounties_binary64_comparator.
  intros k e [E | [E | []]]; inversion E; subst; cbn [score makeCountyScore];
    apply Binary64Facts.double_Z; vm_compute; discriminate.
Defined.
(** ** The industry hook over time *)

Module IndustryRunFacts.
Import IndustryData IndustryRun.

Lemma consistent_mounted (selected : option string) : consistent (mounted selected).
Proof.
  repeat split; simpl; auto; try (intros f []); try discriminate.
Qed.

Lemma scoresEffect_consistent h : requests_validated h -> consistent (scoresEffect h).
Proof.
  intros (Hload & Hreq & Hin).
  assert (Hclean : requests_validated (cleanup h)).
  { split; [exact Hload|]. split; [exact Hreq|].
    intros f Hf. simpl in Hf. apply in_map_iff in Hf.
    destruct Hf as (f0 & <- & Hf0). simpl. now apply Hin. }
  assert (Hcancel : forall f, In f (inflight (cleanup h)) -> cancelled f = false -> False).
  { intros f Hf. simpl in Hf. apply in_map_iff in Hf.
    destruct Hf as (f0 & <- & _). discriminate. }
  assert (Hset : forall raw err,
            (forall body, err = None -> raw = Some body ->
               exists key, selectedIndustryId h = Some key /\ scoreCache h !! key = Some body) ->
            consistent (set_scores raw false err (cleanup h))).
  { intros raw err Hraw. split; [exact Hclean|]. split.
    - intros f Hf Hc. exfalso. exact (Hcancel f Hf Hc).
    - simpl. intros _ He body Hb. now apply Hraw. }
  unfold scoresEffect, scoresEffectBody.
  change (selectedIndustryId (cleanup h)) with (selectedIndustryId h).
  change (industriesLoading (cleanup h)) with (industriesLoading h).
  change (industriesRef (cleanup h)) with (industriesRef h).
  change (scoreCache (cleanup h)) with (scoreCache h).
  destruct (selectedIndustryId h) as [selected|] eqn:Es;
    [|apply Hset; intros; discriminate].
  destruct (String.eqb selected "" || industriesLoading h) eqn:Eg;
    [apply Hset; intros; discriminate|].
  apply orb_false_iff in Eg. destruct Eg as [_ El].
  destruct (ID_FORMAT_test selected) eqn:Ef; cbn [negb];
    [|apply Hset; intros; discriminate].
  destruct (existsb _ (industriesRef h)) eqn:Ex; cbn [negb];
    [|apply Hset; intros; discriminate].
  apply IndustryDataFacts.catalog_has_id in Ex.
  destruct (scoreCache h !! selected) as [cached|] eqn:Ec.
  - apply Hset. intros body _ Hb. inversion Hb; subst. exists selected. auto.
  - destruct Hclean as (Hl' & Hr' & Hi').
    split; [split; [|split]|split].
    + simpl. intros Ht. congruence.
    + simpl. apply Forall_app. split; [exact Hr'|]. constructor; [|constructor]. auto.
    + simpl. intros f Hf. apply in_app_or in Hf. apply in_or_app.
      destruct Hf as [Hf | [<- | []]]; [left; now apply Hi'|right; now left].
    + simpl. intros f Hf Hc. apply in_app_or in Hf.
      destruct Hf as [Hf | [<- | []]]; [|exact Es].
      exfalso. exact (Hcancel f Hf Hc).
    + simpl. discriminate.
Qed.

Lemma find_fetch_in n h f : find_fetch n h = Some f -> In f (inflight h).
Proof. intros H. apply find_some in H. tauto. Qed.

Lemma without_fetch_in n h f : In f (without_fetch n h) -> In f (inflight h).
Proof. intros H. apply filter_In in H. tauto. Qed.

Lemma step_consistent e h : consistent h -> consistent (step e h).
Proof.
  intros Hc. pose proof Hc as ((Hload & Hreq & Hin) & Hsel & Hraw).
  destruct e as [selected | result | n r]; simpl.
  - unfold select. destruct (decide (selected = selectedIndustryId h)); [exact Hc|].
    apply scoresEffect_consistent. repeat split; assumption.
  - unfold catalogSettled. destruct (industriesLoading h) eqn:El; [|exact Hc].
    assert (Hnone : requested h = []) by auto.
    apply scoresEffect_consistent.
    destruct result as [catalog | message]; (split; [discriminate|]; split; simpl).
    + rewrite Hnone. constructor.
    + exact Hin.
    + rewrite Hnone. constructor.
    + exact Hin.
  - unfold scoresSettled. destruct (find_fetch n h) as [f|] eqn:Ef; [|exact Hc].
    pose proof (find_fetch_in n h f Ef) as Hf.
    destruct (cancelled f) eqn:Ecan.
    + split; [split; [exact Hload|split; [exact Hreq|]]|split].
      * simpl. intros g Hg. apply Hin. now apply without_fetch_in in Hg.
      * simpl. intros g Hg. apply Hsel. now apply without_fetch_in in Hg.
      * exact Hraw.
    + pose proof (Hsel f Hf Ecan) as Hkey.
      destruct r as [body | message].
      * split; [split; [exact Hload|split; [exact Hreq|]]|split].
        -- simpl. intros g Hg. apply Hin. now apply without_fetch_in in Hg.
        -- simpl. intros g Hg. apply Hsel. now apply without_fetch_in in Hg.
        -- simpl. intros _ _ b Hb. inversion Hb; subst b.
           exists (fetch_key f). split; [exact Hkey|apply lookup_insert_eq].
      * split; [split; [exact Hload|split; [exact Hreq|]]|split].
        -- simpl. intros g Hg. apply Hin. now apply without_fetch_in in Hg.
        -- simpl. intros g Hg. apply Hsel. now apply without_fetch_in in Hg.
        -- simpl. discriminate.
Qed.

Lemma run_consistent es h : consistent h -> consistent (run es h).
Proof.
  revert h. induction es as [|e es IH]; intros h Hc; [exact Hc|].
  apply IH, step_consistent, Hc.
Qed.

Lemma step_industries_ref e h :
  industries h = industriesRef h -> industries (step e h) = industriesRef (step e h).
Proof.
  intros H. destruct e as [selected | result | n r]; simpl.
  - unfold select. destruct (decide _); [exact H|].
    unfold scoresEffect, scoresEffectBody. simpl.
    repeat (match goal with |- context [match ?x with _ => _ end] => destruct x end);
      simpl; exact H.
  - unfold catalogSettled. destruct (industriesLoading h); [|exact H].
    unfold scoresEffect, scoresEffectBody. simpl.
    destruct result; simpl;
    repeat (match goal with |- context [match ?x with _ => _ end] => destruct x end);
      simpl; auto.
  - unfold scoresSettled. destruct (find_fetch n h); [|exact H].
    destruct (cancelled f); [exact H|]. destruct r; exact H.
Qed.

Lemma run_industries_ref es h :
  industries h = industriesRef h -> industries (run es h) = industriesRef (run es h).
Proof.
  revert h. induction es as [|e es IH]; intros h H; [exact H|].
  apply IH, step_industries_ref, H.
Qed.

Lemma ID_FORMAT_nonempty key : ID_FORMAT_test key = true -> String.eqb key "" = false.
Proof.
  unfold ID_FORMAT_test. intros H. apply andb_true_iff in H. destruct H as [H _].
  now apply negb_true_iff in H.
Qed.

(** Selecting nothing and then an industry that passes the validation:
    the scores come from the cache when it has them, and are requested
    otherwise. *)
Lemma reselect h key :
  selectedIndustryId h = Some key ->
  industriesLoading h = false ->
  ID_FORMAT_test key = true ->
  In key (map id (industriesRef h)) ->
  let h1 := select None h in
  let h2 := select (Some key) h1 in
  rawScores h1 = None /\ requested h1 = requested h /\
  match scoreCache h !! key with
  | Some cached =>
      requested h2 = requested h /\ rawScores h2 = Some cached /\
      scoresLoading h2 = false /\ scoresError h2 = None
  | None =>
      requested h2 = requested h ++ [key] /\
      scoresLoading h2 = true /\ scoresError h2 = None
  end.
Proof.
  intros Hsel Hload Hfmt Hcat h1 h2.
  assert (E1 : h1 = set_scores None false None (cleanup (with_selected None h))).
  { unfold h1, select. rewrite Hsel.
    destruct (decide (None = Some key)); [discriminate|]. reflexivity. }
  split; [rewrite E1; reflexivity|]. split; [rewrite E1; reflexivity|].
  pose proof (ID_FORMAT_nonempty key Hfmt) as Hne.
  apply IndustryDataFacts.catalog_has_id in Hcat.
  unfold h2, select. rewrite E1.
  cbn [selectedIndustryId set_scores cleanup with_selected].
  destruct (decide (Some key = None)); [discriminate|].
  unfold scoresEffect, scoresEffectBody.
  cbn [selectedIndustryId industriesLoading industriesRef scoreCache requested
       set_scores cleanup with_selected].
  destruct (String.eqb key "") eqn:E0; [discriminate|].
  destruct (industriesLoading h) eqn:E3; [discriminate|].
  destruct (ID_FORMAT_test key) eqn:E4; [|discriminate].
  destruct (existsb _ (industriesRef h)) eqn:E5; [|discriminate].
  cbn [orb negb].
  destruct (scoreCache h !! key); cbn; auto.
Qed.

End IndustryRunFacts.

(** X6. Along every run of the hook from its mount, nothing is requested
    while the catalog is loading, and every score request ever issued is
    for an id that matches the identifier pattern and is an id of the
    loaded catalog. *)
Theorem requests_only_for_validated_ids (selected : option string)
    (es : list IndustryRun.Event) :
  let h := IndustryRun.run es (IndustryData.mounted selected) in
  (IndustryData.industriesLoading h = true -> IndustryData.requested h = []) /\
  forall key, In key (IndustryData.requested h) ->
    IndustryData.ID_FORMAT_test key = true /\
    IndustryRun.isValidIndustryId h key = true.
Proof.
  intros h.
  pose proof (IndustryRunFacts.run_consistent es _
                (IndustryRunFacts.consistent_mounted selected)) as ((Hl & Hr & _) & _).
  fold h in Hl, Hr. split; [exact Hl|]. intros key Hk.
  rewrite List.Forall_forall in Hr. destruct (Hr key Hk) as [Hf Hc].
  split; [exact Hf|]. unfold IndustryRun.isValidIndustryId.
  assert (Href : IndustryData.industries h = IndustryData.industriesRef h).
  { apply IndustryRunFacts.run_industries_ref. reflexivity. }
  rewrite Href. apply IndustryDataFacts.catalog_has_id. exact Hc.
Qed.

(** X7. Along every run of the hook, in every state reached once the
    effect of the latest render has run, when the hook reports neither
    loading nor an error the scores it holds are those cached for the
    selected industry.  The render that first sees another id is not such
    a state: before its effect has run it still returns the scores, the
    loading flag and the error of the render before, under the new id;
    the effect that follows it puts the state right again. *)
Theorem idle_scores_belong_to_selection (selected : option string)
    (es : list IndustryRun.Event) (body : IndustryScores) (next : option string) :
  let h := IndustryRun.run es (IndustryData.mounted selected) in
  IndustryData.scoresLoading h = false ->
  IndustryData.scoresError h = None ->
  IndustryData.rawScores h = Some body ->
  (exists key, IndustryData.selectedIndustryId h = Some key /\
               IndustryData.scoreCache h !! key = Some body) /\
  (let rendered := IndustryData.with_selected next h in
   IndustryData.selectedIndustryId rendered = next /\
   IndustryData.rawScores rendered = Some body /\
   IndustryData.scoresLoading rendered = false /\
   IndustryData.scoresError rendered = None) /\
  (let after := IndustryData.select next h in
   IndustryData.scoresLoading after = false ->
   IndustryData.scoresError after = None ->
   forall body', IndustryData.rawScores after = Some body' ->
     exists key, IndustryData.selectedIndustryId after = Some key /\
                 IndustryData.scoreCache after !! key = Some body').
Proof.
  intros h Hl He Hb.
  pose proof (IndustryRunFacts.run_consistent es _
                (IndustryRunFacts.consistent_mounted selected)) as Hc.
  fold h in Hc. split; [|split].
  - destruct Hc as (_ & _ & Hraw). exact (Hraw Hl He body Hb).
  - cbn. auto.
  - intros after Hl' He' body' Hb'.
    pose proof (IndustryRunFacts.step_consistent (IndustryRun.Select next) h Hc)
      as (_ & _ & Hraw).
    exact (Hraw Hl' He' body' Hb').
Qed.

Lemma idle_scores_belong_to_selection_witness :
  let h := IndustryRun.run
             (coffee_selected
              ++ [IndustryRun.ScoresSettled 0 (IndustryData.Ok same_value_scores)])
             (IndustryData.mounted None) in
  (exists key, IndustryData.selectedIndustryId h = Some key /\
               IndustryData.scoreCache h !! key = Some same_value_scores) /\
  (let rendered := IndustryData.with_selected (Some "gyms") h in
   IndustryData.selectedIndustryId rendered = Some "gyms" /\
   IndustryData.rawScores rendered = Some same_value_scores /\
   IndustryData.scoresLoading rendered = false /\
   IndustryData.scoresError rendered = None) /\
  (let after := IndustryData.select (Some "gyms") h in
   IndustryData.scoresLoading after = false ->
   IndustryData.scoresError after = None ->
   forall body', IndustryData.rawScores after = Some body' ->
     exists key, IndustryData.selectedIndustryId after = Some key /\
                 IndustryData.scoreCache after !! key = Some body').
Proof.
  apply (idle_scores_belong_to_selection None
           (coffee_selected
            ++ [IndustryRun.ScoresSettled 0 (IndustryData.Ok same_value_scores)])
           same_value_scores (Some "gyms")); reflexivity.
Defined.

(** X8. Along every run of the hook, the answer to a request for an
    industry that is not the selected one changes neither the scores, the
    loading and error flags nor the cache, whatever the answer is. *)
Theorem stale_answer_dropped (selected : option string)
    (es : list IndustryRun.Event) (n : nat) (f : IndustryData.Fetch)
    (r : IndustryData.Response) :
  let h := IndustryRun.run es (IndustryData.mounted selected) in
  IndustryData.find_fetch n h = Some f ->
  IndustryData.selectedIndustryId h <> Some (IndustryData.fetch_key f) ->
  let h' := IndustryData.scoresSettled n r h in
  IndustryData.rawScores h' = IndustryData.rawScores h /\
  IndustryData.scoresLoading h' = IndustryData.scoresLoading h /\
  IndustryData.scoresError h' = IndustryData.scoresError h /\
  IndustryData.scoreCache h' = IndustryData.scoreCache h /\
  IndustryData.requested h' = IndustryData.requested h.
Proof.
  intros h Hfind Hother h'.
  pose proof (IndustryRunFacts.run_consistent es _
                (IndustryRunFacts.consistent_mounted selected)) as (_ & Hsel & _).
  fold h in Hsel.
  assert (Hc : IndustryData.cancelled f = true).
  { destruct (IndustryData.cancelled f) eqn:E; [reflexivity|].
    exfalso. apply Hother. apply Hsel; [|exact E].
    now apply (IndustryRunFacts.find_fetch_in n). }
  unfold h', IndustryData.scoresSettled. rewrite Hfind, Hc. repeat split.
Qed.

Lemma stale_answer_dropped_witness :
  let h := IndustryRun.run (coffee_selected ++ [IndustryRun.Select (Some "gyms")])
             (IndustryData.mounted None) in
  let h' := IndustryData.scoresSettled 0 (IndustryData.Ok same_value_scores) h in
  IndustryData.rawScores h' = IndustryData.rawScores h /\
  IndustryData.scoresLoading h' = IndustryData.scoresLoading h /\
  IndustryData.scoresError h' = IndustryData.scoresError h /\
  IndustryData.scoreCache h' = IndustryData.scoreCache h /\
  IndustryData.requested h' = IndustryData.requested h.
Proof.
  apply (stale_answer_dropped None
           (coffee_selected ++ [IndustryRun.Select (Some "gyms")])
           0 (coffee_fetch true) (IndustryData.Ok same_value_scores)).
  - reflexivity.
  - discriminate.
Defined.

(** X9. Along every run of the hook, when the answer to a request that
    was not superseded arrives with a body, the hook holds that body and
    stops loading; selecting nothing clears the scores, and selecting the
    industry again brings the body back from the cache without a
    request. *)
Theorem cached_scores_not_refetched (selected : option string)
    (es : list IndustryRun.Event) (n : nat) (f : IndustryData.Fetch)
    (body : IndustryScores) :
  let h := IndustryRun.run es (IndustryData.mounted selected) in
  IndustryData.find_fetch n h = Some f ->
  IndustryData.cancelled f = false ->
  let h1 := IndustryData.scoresSettled n (IndustryData.Ok body) h in
  let h2 := IndustryData.select None h1 in
  let h3 := IndustryData.select (Some (IndustryData.fetch_key f)) h2 in
  IndustryData.rawScores h1 = Some body /\
  IndustryData.scoresLoading h1 = false /\
  IndustryData.rawScores h2 = None /\
  IndustryData.requested h3 = IndustryData.requested h /\
  IndustryData.rawScores h3 = Some body /\
  IndustryData.scoresLoading h3 = false /\
  IndustryData.scoresError h3 = None.
Proof.
  intros h Hfind Hlive h1 h2 h3.
  pose proof (IndustryRunFacts.run_consistent es _
                (IndustryRunFacts.consistent_mounted selected))
    as ((Hload & Hreq & Hin) & Hsel & _).
  fold h in Hload, Hreq, Hin, Hsel.
  pose proof (IndustryRunFacts.find_fetch_in n h f Hfind) as Hf.
  pose proof (Hsel f Hf Hlive) as Hkey.
  pose proof (Hin f Hf) as Hrequested.
  rewrite List.Forall_forall in Hreq. destruct (Hreq _ Hrequested) as [Hfmt Hcat].
  assert (Hloaded : IndustryData.industriesLoading h = false).
  { destruct (IndustryData.industriesLoading h); [|reflexivity].
    rewrite (Hload eq_refl) in Hrequested. destruct Hrequested. }
  assert (E1 : h1 = _) by
    (unfold h1, IndustryData.scoresSettled; rewrite Hfind, Hlive; reflexivity).
  split; [rewrite E1; reflexivity|]. split; [rewrite E1; reflexivity|].
  destruct (IndustryRunFacts.reselect h1 (IndustryData.fetch_key f))
    as (Hnone & _ & Hback).
  - rewrite E1. exact Hkey.
  - rewrite E1. exact Hloaded.
  - exact Hfmt.
  - rewrite E1. exact Hcat.
  - fold h2 in Hnone. fold h2 h3 in Hback. split; [exact Hnone|].
    assert (Hc : IndustryData.scoreCache h1 !! IndustryData.fetch_key f = Some body).
    { rewrite E1. apply lookup_insert_eq. }
    rewrite Hc in Hback. destruct Hback as (H1 & H2 & H3 & H4).
    rewrite H1, E1. auto.
Qed.

Lemma cached_scores_not_refetched_witness :
  let h := IndustryRun.run coffee_selected (IndustryData.mounted None) in
  let h1 := IndustryData.scoresSettled 0 (IndustryData.Ok same_value_scores) h in
  let h2 := IndustryData.select None h1 in
  let h3 := IndustryData.select (Some "coffee-shops") h2 in
  IndustryData.rawScores h1 = Some same_value_scores /\
  IndustryData.scoresLoading h1 = false /\
  IndustryData.rawScores h2 = None /\
  IndustryData.requested h3 = IndustryData.requested h /\
  IndustryData.rawScores h3 = Some same_value_scores /\
  IndustryData.scoresLoading h3 = false /\
  IndustryData.scoresError h3 = None.
Proof.
  apply (cached_scores_not_refetched None coffee_selected 0 (coffee_fetch false)
           same_value_scores); reflexivity.
Defined.

(** X10. Along every run of the hook, when the request that was not
    superseded fails, the hook reports the error and stops loading, and
    nothing is cached for the industry: selecting nothing and then the
    industry again issues a new request for it. *)
Theorem failed_scores_requested_again (selected : option string)
    (es : list IndustryRun.Event) (n : nat) (f : IndustryData.Fetch)
    (message : string) :
  let h := IndustryRun.run es (IndustryData.mounted selected) in
  IndustryData.find_fetch n h = Some f ->
  IndustryData.cancelled f = false ->
  IndustryData.scoreCache h !! IndustryData.fetch_key f = None ->
  let h1 := IndustryData.scoresSettled n (IndustryData.Failed message) h in
  let h3 := IndustryData.select (Some (IndustryData.fetch_key f))
              (IndustryData.select None h1) in
  IndustryData.scoresError h1 = Some message /\
  IndustryData.scoresLoading h1 = false /\
  IndustryData.scoreCache h1 = IndustryData.scoreCache h /\
  IndustryData.requested h3 = IndustryData.requested h ++ [IndustryData.fetch_key f] /\
  IndustryData.scoresLoading h3 = true /\
  IndustryData.scoresError h3 = None.
Proof.
  intros h Hfind Hlive Hmiss h1 h3.
  pose proof (IndustryRunFacts.run_consistent es _
                (IndustryRunFacts.consistent_mounted selected))
    as ((Hload & Hreq & Hin) & Hsel & _).
  fold h in Hload, Hreq, Hin, Hsel.
  pose proof (IndustryRunFacts.find_fetch_in n h f Hfind) as Hf.
  pose proof (Hsel f Hf Hlive) as Hkey.
  pose proof (Hin f Hf) as Hrequested.
  rewrite List.Forall_forall in Hreq. destruct (Hreq _ Hrequested) as [Hfmt Hcat].
  assert (Hloaded : IndustryData.industriesLoading h = false).
  { destruct (IndustryData.industriesLoading h); [|reflexivity].
    rewrite (Hload eq_refl) in Hrequested. destruct Hrequested. }
  assert (E1 : h1 = _) by
    (unfold h1, IndustryData.scoresSettled; rewrite Hfind, Hlive; reflexivity).
  split; [rewrite E1; reflexivity|]. split; [rewrite E1; reflexivity|].
  split; [rewrite E1; reflexivity|].
  destruct (IndustryRunFacts.reselect h1 (IndustryData.fetch_key f))
    as (_ & _ & Hback).
  - rewrite E1. exact Hkey.
  - rewrite E1. exact Hloaded.
  - exact Hfmt.
  - rewrite E1. exact Hcat.
  - fold h3 in Hback.
    assert (Hc : IndustryData.scoreCache h1 !! IndustryData.fetch_key f = None).
    { rewrite E1. exact Hmiss. }
    rewrite Hc in Hback. destruct Hback as (H1 & H2 & H3).
    rewrite H1, E1. auto.
Qed.

Lemma failed_scores_requested_again_witness :
  let h := IndustryRun.run coffee_selected (IndustryData.mounted None) in
  let h1 := IndustryData.scoresSettled 0 (IndustryData.Failed "Failed to load scores: 404") h in
  let h3 := IndustryData.select (Some "coffee-shops") (IndustryData.select None h1) in
  IndustryData.scoresError h1 = Some "Failed to load scores: 404" /\
  IndustryData.scoresLoading h1 = false /\
  IndustryData.scoreCache h1 = IndustryData.scoreCache h /\
  IndustryData.requested h3 = IndustryData.requested h ++ ["coffee-shops"] /\
  IndustryData.scoresLoading h3 = true /\
  IndustryData.scoresError h3 = None.
Proof.
  apply (failed_scores_requested_again None coffee_selected 0 (coffee_fetch false)
           "Failed to load scores: 404"); reflexivity.
Defined.


(** ** The demographics hook after a load *)

Module CountyLookupFacts.
Import CountyData CountyLookup.

Lemma loaded_ensureLoaded {D} (h : Hook D) d : loaded h d -> ensureLoaded h = (h, Now (Some d)).
Proof. intros [_ Hd]. unfold ensureLoaded. rewrite Hd. reflexivity. Qed.

Lemma loaded_render {D} (h : Hook D) d : loaded h d -> render h = h.
Proof.
  intros [Hs _]. destruct h as [s r f p pe i]; simpl in *. subst. reflexivity.
Qed.

Lemma loaded_run {D} (h : Hook D) d es :
  loaded h d -> forallb is_call_or_render es = true ->
  run es h = h /\ List.Forall (fun r => r = Now (Some d)) (returns es h).
Proof.
  intros Hl. induction es as [|e es IH]; intros Hes; [split; [reflexivity|constructor]|].
  simpl in Hes. apply andb_true_iff in Hes. destruct Hes as [He Hes].
  destruct (IH Hes) as [IH1 IH2].
  destruct e; try discriminate; unfold run in *; simpl.
  - rewrite (loaded_ensureLoaded h d Hl). simpl. split; [exact IH1|].
    constructor; [reflexivity|exact IH2].
  - rewrite (loaded_render h d Hl). split; assumption.
Qed.

Lemma settle_fulfilled_loaded {D} (h h1 : Hook D) p d :
  ensureLoaded h = (h1, Owner p) ->
  loaded (render (settle p (Fulfilled d) h1)) d /\
  issued (render (settle p (Fulfilled d) h1)) = issued h1.
Proof.
  intros Hstart.
  destruct (CountyDataFacts.ensureLoaded_owner h h1 p Hstart) as (-> & _ & Hpend & _).
  assert (Hin : is_pending (issued h) h1 = true).
  { apply CountyDataFacts.is_pending_app. rewrite Hpend. apply in_or_app. right. now left. }
  unfold settle. rewrite Hin. split; [split|]; reflexivity.
Qed.

End CountyLookupFacts.

(** X11. Once a load has succeeded and the component has rendered again,
    the data stays cached: calls of [ensureLoaded], whatever renders come
    between them, leave the hook as it is, issue no fetch and all return
    that data. *)
Theorem loaded_data_is_cached {D : Type} (h h1 : CountyData.Hook D)
    (p : CountyData.PromiseId) (d : D) (es : list (CountyData.Event D)) :
  CountyData.ensureLoaded h = (h1, CountyData.Owner p) ->
  forallb CountyData.is_call_or_render es = true ->
  let hs := CountyData.render (CountyData.settle p (CountyData.Fulfilled d) h1) in
  CountyData.run es hs = hs /\
  List.Forall (fun r => r = CountyData.Now (Some d)) (CountyData.returns es hs) /\
  CountyData.issued (CountyData.run es hs) = CountyData.issued h1 /\
  CountyData.loading (CountyData.stateRef hs) = false /\
  CountyData.error (CountyData.stateRef hs) = None.
Proof.
  intros Hstart Hes hs.
  destruct (CountyLookupFacts.settle_fulfilled_loaded h h1 p d Hstart) as [Hl Hi].
  fold hs in Hl, Hi.
  destruct (CountyLookupFacts.loaded_run hs d es Hl Hes) as [Hrun Hret].
  split; [exact Hrun|]. split; [exact Hret|]. split; [rewrite Hrun; exact Hi|].
  destruct (CountyDataFacts.ensureLoaded_owner h h1 p Hstart) as (-> & _ & Hpend & _).
  assert (Hin : CountyData.is_pending (CountyData.issued h) h1 = true).
  { apply CountyDataFacts.is_pending_app. rewrite Hpend. apply in_or_app. right. now left. }
  unfold hs, CountyData.settle. rewrite Hin. split; reflexivity.
Qed.

Lemma loaded_data_is_cached_witness :
  let h1 : CountyData.Hook (list (string * Z)) :=
    fst (CountyData.ensureLoaded CountyData.initial) in
  let es := [CountyData.Call; CountyData.Render; CountyData.Call] in
  let hs := CountyData.render
              (CountyData.settle 0 (CountyData.Fulfilled MOCK_DEMOGRAPHICS) h1) in
  CountyData.run es hs = hs /\
  List.Forall (fun r => r = CountyData.Now (Some MOCK_DEMOGRAPHICS))
              (CountyData.returns es hs) /\
  CountyData.issued (CountyData.run es hs) = CountyData.issued h1 /\
  CountyData.loading (CountyData.stateRef hs) = false /\
  CountyData.error (CountyData.stateRef hs) = None.
Proof.
  apply (loaded_data_is_cached CountyData.initial
           (fst (CountyData.ensureLoaded CountyData.initial)) 0 MOCK_DEMOGRAPHICS
           [CountyData.Call; CountyData.Render; CountyData.Call]); reflexivity.
Defined.

(** X12. [lookupByFips] answers from the table of the last render: null
    for every key before any load, while the load is pending, after a
    failed load, and after a successful load until the component has
    rendered again.  From then on it answers with the record the table
    holds under the key; for a key the table does not hold it answers
    with the member of [Object.prototype] of that name when there is one
    (constructor, toString and the like) and with null only otherwise. *)
Theorem lookupByFips_reads_rendered_table {V : Type}
    (h h1 : CountyData.Hook (gmap string V)) (p : CountyData.PromiseId)
    (table : gmap string V) (err : CountyData.Failure) (fips : string) :
  CountyData.ensureLoaded h = (h1, CountyData.Owner p) ->
  let rendered := CountyData.render (CountyData.settle p (CountyData.Fulfilled table) h1) in
  CountyLookup.lookupByFips CountyData.initial fips = (CountyLookup.Null : CountyLookup.Looked V) /\
  CountyLookup.lookupByFips h1 fips = CountyLookup.Null /\
  CountyLookup.lookupByFips (CountyData.settle p (CountyData.Fulfilled table) h1) fips
  = CountyLookup.Null /\
  CountyLookup.lookupByFips
    (CountyData.render (CountyData.settle p (CountyData.Rejected err) h1)) fips
  = CountyLookup.Null /\
  (forall record, table !! fips = Some record ->
     CountyLookup.lookupByFips rendered fips = CountyLookup.Own record) /\
  (table !! fips = None -> In fips CountyLookup.Object_prototype ->
     CountyLookup.lookupByFips rendered fips = CountyLookup.Inherited fips) /\
  (table !! fips = None -> ~ In fips CountyLookup.Object_prototype ->
     CountyLookup.lookupByFips rendered fips = CountyLookup.Null).
Proof.
  intros Hstart rendered. unfold rendered. split; [reflexivity|].
  assert (Hnone : CountyData.data (CountyData.stateRef h1) = None).
  { revert Hstart. unfold CountyData.ensureLoaded.
    destruct (CountyData.data (CountyData.stateRef h)) eqn:Ed; [discriminate|].
    destruct (CountyData.promiseRef h); [discriminate|].
    destruct (_ && _); [discriminate|].
    intros E. inversion E; subst. exact Ed. }
  destruct (CountyDataFacts.ensureLoaded_owner h h1 p Hstart) as (-> & _ & Hpend & _).
  assert (Hin : CountyData.is_pending (CountyData.issued h) h1 = true).
  { apply CountyDataFacts.is_pending_app. rewrite Hpend. apply in_or_app. right. now left. }
  unfold CountyLookup.lookupByFips, CountyData.settle. rewrite Hin.
  cbn [CountyData.data CountyData.stateRef CountyData.state CountyData.render].
  rewrite Hnone. repeat (split; [reflexivity|]).
  unfold CountyLookup.read_property. split; [|split].
  - intros record ->. reflexivity.
  - intros -> Hin'.
    assert (E : existsb (String.eqb fips) CountyLookup.Object_prototype = true).
    { apply existsb_exists. exists fips. split; [exact Hin'|apply String.eqb_refl]. }
    rewrite E. reflexivity.
  - intros -> Hnot.
    destruct (existsb (String.eqb fips) CountyLookup.Object_prototype) eqn:E; [|reflexivity].
    apply existsb_exists in E. destruct E as (x & Hx & Ex).
    apply String.eqb_eq in Ex. subst. contradiction.
Qed.

Lemma lookupByFips_reads_rendered_table_witness :
  let h1 : CountyData.Hook (gmap string Z) :=
    fst (CountyData.ensureLoaded CountyData.initial) in
  CountyLookup.lookupByFips
    (CountyData.render (CountyData.settle 0 (CountyData.Fulfilled population_table) h1))
    "constructor"
  = CountyLookup.Inherited "constructor".
Proof.
  pose proof (lookupByFips_reads_rendered_table CountyData.initial
                (fst (CountyData.ensureLoaded CountyData.initial)) 0 population_table
                (CountyData.NotOk "500") "constructor" eq_refl)
    as (_ & _ & _ & _ & _ & Hinherited & _).
  apply Hinherited.
  - reflexivity.
  - unfold CountyLookup.Object_prototype. left. reflexivity.
Defined.

(** X13. [retry] also discards data that was loaded.  Until the next
    render a call still returns the data of the last render and issues no
    fetch; after the render the data is gone and the next call issues a
    new fetch. *)
Theorem retry_discards_loaded_data {D : Type} (h : CountyData.Hook D) (d : D) :
  CountyLookup.loaded h d ->
  CountyData.ensureLoaded (CountyData.retry h)
  = (CountyData.retry h, CountyData.Now (Some d)) /\
  let hr := CountyData.render (CountyData.retry h) in
  CountyData.data (CountyData.stateRef hr) = None /\
  exists h2,
    CountyData.ensureLoaded hr = (h2, CountyData.Owner (CountyData.issued h)) /\
    CountyData.issued h2 = S (CountyData.issued h).
Proof.
  intros [Hs Hd]. split.
  - unfold CountyData.ensureLoaded, CountyData.retry. simpl. rewrite Hd. reflexivity.
  - simpl. split; [reflexivity|].
    destruct (CountyDataFacts.armed_ensureLoaded
                (CountyData.render (CountyData.retry h)))
      as (h2 & He & Hi & _); try reflexivity.
    exists h2. split; [exact He|exact Hi].
Qed.

Lemma retry_discards_loaded_data_witness :
  let h : CountyData.Hook (list (string * Z)) :=
    CountyData.run [CountyData.Call; CountyData.Settle 0 (CountyData.Fulfilled MOCK_DEMOGRAPHICS);
                    CountyData.Render] CountyData.initial in
  CountyData.ensureLoaded (CountyData.retry h)
  = (CountyData.retry h, CountyData.Now (Some MOCK_DEMOGRAPHICS)) /\
  let hr := CountyData.render (CountyData.retry h) in
  CountyData.data (CountyData.stateRef hr) = None /\
  exists h2,
    CountyData.ensureLoaded hr = (h2, CountyData.Owner (CountyData.issued h)) /\
    CountyData.issued h2 = S (CountyData.issued h).
Proof.
  apply (retry_discards_loaded_data
           (CountyData.run [CountyData.Call;
                            CountyData.Settle 0 (CountyData.Fulfilled MOCK_DEMOGRAPHICS);
                            CountyData.Render] CountyData.initial)
           MOCK_DEMOGRAPHICS).
  split; reflexivity.
Defined.

(** ** The tooltip over time *)

Module TooltipRunFacts.
Import MapTooltip TooltipRun.

Lemma cancel_single handle (e : MapLayerMouseEvent) :
  cancelAnimationFrame handle [(handle, e)] = [].
Proof. unfold cancelAnimationFrame. simpl. rewrite Nat.eqb_refl. reflexivity. Qed.

Lemma frameUpdate_frames e scores c :
  rafRef (frameUpdate e scores c) = None /\ frames (frameUpdate e scores c) = frames c.
Proof.
  unfold frameUpdate.
  destruct (first_feature e); [|split; reflexivity].
  destruct (negb _ || negb _); [split; reflexivity|].
  destruct (GeoJSON.property GeoJSON.GEOID f), (GeoJSON.property GeoJSON.NAME f);
    split; reflexivity.
Qed.

Lemma handleMouseMove_frames e c :
  one_frame c ->
  rafRef (handleMouseMove e c) = Some (nextHandle c) /\
  frames (handleMouseMove e c) = [(nextHandle c, e)].
Proof.
  intros [[Hr Hf] | (handle & e0 & Hr & Hf)]; unfold handleMouseMove;
    rewrite Hr, Hf; simpl; [auto|].
  rewrite Nat.eqb_refl. auto.
Qed.

Lemma handleMouseLeave_frames c :
  one_frame c ->
  tooltip (handleMouseLeave c) = None /\ rafRef (handleMouseLeave c) = None /\
  frames (handleMouseLeave c) = [].
Proof.
  intros [[Hr Hf] | (handle & e0 & Hr & Hf)]; unfold handleMouseLeave;
    rewrite Hr, Hf; simpl; [auto|].
  rewrite Nat.eqb_refl. auto.
Qed.

Lemma step_one_frame ev c : one_frame c -> one_frame (step ev c).
Proof.
  intros Hc. destruct ev as [e | | handle scores]; simpl.
  - destruct (handleMouseMove_frames e c Hc) as [Hr Hf].
    right. exists (nextHandle c), e. auto.
  - destruct (handleMouseLeave_frames c Hc) as (_ & Hr & Hf). left. auto.
  - unfold animationFrame.
    destruct Hc as [[Hr Hf] | (h0 & e0 & Hr & Hf)]; rewrite Hf; cbn [List.find fst].
    + left. auto.
    + destruct (Nat.eqb h0 handle) eqn:E.
      * apply Nat.eqb_eq in E. subst handle. rewrite cancel_single.
        match goal with |- one_frame (frameUpdate ?e ?s ?c0) =>
          destruct (frameUpdate_frames e s c0) as [H1 H2] end.
        left. split; [exact H1|]. rewrite H2. reflexivity.
      * right. exists h0, e0. auto.
Qed.

Lemma run_one_frame evs c : one_frame c -> one_frame (run evs c).
Proof.
  revert c. induction evs as [|ev evs IH]; intros c H; [exact H|].
  apply IH, step_one_frame, H.
Qed.

Lemma one_frame_unmounted : one_frame unmounted.
Proof. left. split; reflexivity. Qed.

Lemma idle_frames_keep evs c :
  frames c = [] -> forallb is_frame evs = true -> run evs c = c.
Proof.
  intros Hf. induction evs as [|ev evs IH]; intros Hevs; [reflexivity|].
  simpl in Hevs. apply andb_true_iff in Hevs. destruct Hevs as [Hev Hevs].
  destruct ev; try discriminate. unfold run in *. simpl.
  unfold animationFrame. rewrite Hf. simpl. exact (IH Hevs).
Qed.

End TooltipRunFacts.

(** X14. Along every run of the tooltip from its mount, at most one frame
    callback is pending.  After a pointer move the pending callback is
    the one of that move, whatever moves came before; when its frame
    runs, the tooltip is the one derived from that move and no callback
    is left pending. *)
Theorem pointer_moves_coalesce (evs : list TooltipRun.Event)
    (e : MapTooltip.MapLayerMouseEvent) (scores : option IndustryScores) :
  let c := TooltipRun.run evs MapTooltip.unmounted in
  let moved := MapTooltip.handleMouseMove e c in
  let shown := MapTooltip.animationFrame (MapTooltip.nextHandle c) scores moved in
  (List.length (MapTooltip.frames c) <= 1)%nat /\
  MapTooltip.frames moved = [(MapTooltip.nextHandle c, e)] /\
  MapTooltip.tooltip shown = MapTooltip.tooltip (MapTooltip.frameUpdate e scores c) /\
  MapTooltip.rafRef shown = None /\
  MapTooltip.frames shown = [].
Proof.
  intros c moved shown.
  pose proof (TooltipRunFacts.run_one_frame evs _ TooltipRunFacts.one_frame_unmounted) as Hc.
  fold c in Hc.
  destruct (TooltipRunFacts.handleMouseMove_frames e c Hc) as [Hr Hf]. fold moved in Hr, Hf.
  split.
  { destruct Hc as [[_ H] | (h0 & e0 & _ & H)]; rewrite H; simpl; lia. }
  split; [exact Hf|].
  unfold shown, MapTooltip.animationFrame. rewrite Hf. simpl. rewrite Nat.eqb_refl. simpl.
  destruct (TooltipRunFacts.frameUpdate_frames e scores
              {| MapTooltip.tooltip := MapTooltip.tooltip moved;
                 MapTooltip.rafRef := MapTooltip.rafRef moved;
                 MapTooltip.frames := [];
                 MapTooltip.nextHandle := MapTooltip.nextHandle moved |}) as [H1 H2].
  split; [|split; [exact H1|exact H2]].
  unfold MapTooltip.frameUpdate.
  destruct (MapTooltip.first_feature e); [|reflexivity].
  destruct (negb _ || negb _); [reflexivity|].
  destruct (GeoJSON.property GeoJSON.GEOID f), (GeoJSON.property GeoJSON.NAME f);
    reflexivity.
Qed.

(** X15. Along every run of the tooltip from its mount, when the pointer
    leaves the layer the tooltip is cleared and no frame callback is left
    pending: whatever frames the browser runs afterwards, the tooltip
    stays cleared. *)
Theorem pointer_leave_clears (evs frames_after : list TooltipRun.Event) :
  forallb TooltipRun.is_frame frames_after = true ->
  let gone := MapTooltip.handleMouseLeave (TooltipRun.run evs MapTooltip.unmounted) in
  MapTooltip.tooltip gone = None /\
  MapTooltip.frames gone = [] /\
  TooltipRun.run frames_after gone = gone.
Proof.
  intros Hfr gone.
  pose proof (TooltipRunFacts.run_one_frame evs _ TooltipRunFacts.one_frame_unmounted) as Hc.
  destruct (TooltipRunFacts.handleMouseLeave_frames _ Hc) as (Ht & _ & Hf).
  fold gone in Ht, Hf. split; [exact Ht|]. split; [exact Hf|].
  apply TooltipRunFacts.idle_frames_keep; assumption.
Qed.

Lemma pointer_leave_clears_witness :
  let gone := MapTooltip.handleMouseLeave
                (TooltipRun.run [TooltipRun.MouseMove (pointer_over harris_feature)]
                   MapTooltip.unmounted) in
  MapTooltip.tooltip gone = None /\
  MapTooltip.frames gone = [] /\
  TooltipRun.run [TooltipRun.Frame 0 (Some same_value_scores)] gone = gone.
Proof.
  apply (pointer_leave_clears [TooltipRun.MouseMove (pointer_over harris_feature)]
           [TooltipRun.Frame 0 (Some same_value_scores)]).
  reflexivity.
Defined.

(** ** The style switch after its clean-up *)

(** X16. Once the style-switch effect has been cleaned up, its listener
    and its timer are gone: whatever events follow, a late style-load
    signal or the passing of time no longer changes the controller, so a
    superseded swap never marks the map ready. *)
Theorem cleaned_up_swap_is_inert (c : StyleSwitch.Controller)
    (es : list StyleSwitch.Event) :
  let cleaned := StyleSwitch.step StyleSwitch.Cleanup c in
  StyleSwitch.run es cleaned = cleaned /\
  StyleSwitch.mapReady cleaned = StyleSwitch.mapReady c /\
  StyleSwitch.commits cleaned = StyleSwitch.commits c.
Proof.
  intros cleaned. split; [|split; reflexivity].
  induction es as [|e es IH]; [reflexivity|].
  unfold StyleSwitch.run in *. simpl.
  rewrite (cleaned_up_step e cleaned); [exact IH|reflexivity|reflexivity].
Qed.

(** ** validateGeoJSON: what is rejected and what throws *)

(** X17. The validator throws exactly on a feature collection whose first
    feature is null; it rejects every payload that is not an object with
    properties: null, booleans, numbers, strings and arrays. *)
Theorem validateGeoJSON_throws_on_null_feature (data : JSON) :
  (validateGeoJSON data = Throws <->
   exists props rest,
     data = JObject props /\
     own_property props "type" = Some (JString "FeatureCollection") /\
     own_property props "features" = Some (JArray (JNull :: rest))) /\
  ((forall props, data <> JObject props) -> validateGeoJSON data = Returns false).
Proof.
  split.
  - unfold validateGeoJSON. split.
    + destruct data as [| | | | |props]; simpl; try discriminate.
      destruct (is_literal (own_property props "type") "FeatureCollection") eqn:Et;
        simpl; [|discriminate].
      apply is_literal_eq in Et.
      destruct (own_property props "features") as [[| | | |features|]|] eqn:Ef;
        try discriminate.
      destruct features as [|first rest]; [discriminate|].
      intros H. exists props, rest. split; [reflexivity|]. split; [exact Et|].
      destruct first; [exact Ef|..]; exfalso;
        repeat (match type of H with
                | (if ?b then _ else _) = _ => destruct b
                end); discriminate.
    + intros (props & rest & -> & Ht & Hf). cbn [is_object negb member].
      rewrite Ht, Hf. cbn [is_literal]. rewrite String.eqb_refl. reflexivity.
  - intros Hno. destruct data; try reflexivity. exfalso. exact (Hno props eq_refl).
Qed.

(** ** The box of the fit-bounds effect *)

Module FitFacts.
Import GeoJSON FitBounds BoundingBox.

Lemma min_of_least (l : list Qc) :
  l <> [] -> exists m, min_of l = Fin m /\ least m l.
Proof.
  destruct l as [|x l]; [congruence|]. intros _.
  exists (fold_left keep_min l x). split; [reflexivity|apply least_fold].
Qed.

Lemma max_of_greatest (l : list Qc) :
  l <> [] -> exists m, max_of l = Fin m /\ greatest m l.
Proof.
  destruct l as [|x l]; [congruence|]. intros _.
  exists (fold_left keep_max l x). split; [reflexivity|apply greatest_fold].
Qed.

(** A range with min below max is the range of a non-empty list. *)
Lemma strict_range (l : list Qc) :
  js_lt (min_of l) (max_of l) = true ->
  exists lo hi, min_of l = Fin lo /\ max_of l = Fin hi /\
                least lo l /\ greatest hi l /\ (lo < hi)%Qc.
Proof.
  intros H. destruct l as [|x l]; [discriminate|].
  destruct (min_of_least (x :: l)) as (lo & Hlo & Hleast); [discriminate|].
  destruct (max_of_greatest (x :: l)) as (hi & Hhi & Hgreatest); [discriminate|].
  exists lo, hi. rewrite Hlo, Hhi in *. repeat split; try apply Hleast; try apply Hgreatest.
  simpl in H. now apply Qcltb_lt.
Qed.

(** What a fit request tells about the inputs of the effect. *)
Lemma fitEffect_fit_inv (stateList : list StateEntry) (filter : string)
    (geojson : option FeatureCollection) southWest northEast padding maxZoom :
  fitEffect stateList true (Some filter) geojson
  = Some (fitBounds southWest northEast padding maxZoom) ->
  exists stateEntry collection,
    resolve stateList filter = Some stateEntry /\
    geojson = Some collection /\
    let box := bounding_box (in_region (fips stateEntry) (features collection)) in
    non_degenerate box /\
    southWest = (minLng box, minLat box) /\ northEast = (maxLng box, maxLat box).
Proof.
  unfold fitEffect, resolve. cbn [negb].
  destruct (String.eqb filter ""); [discriminate|].
  destruct (List.find _ stateList) as [stateEntry|]; [|discriminate].
  destruct geojson as [collection|]; [|discriminate].
  fold (in_region (fips stateEntry) (features collection)).
  rewrite BoundingBoxFacts.walk_features_bounding_box.
  destruct (Nat.eqb _ 0); [discriminate|].
  destruct (js_lt (minLng _) (maxLng _)) eqn:E1; [|discriminate].
  destruct (js_lt (minLat _) (maxLat _)) eqn:E2; [|discriminate].
  cbn [andb]. intros H. inversion H; subst.
  exists stateEntry, collection. repeat split; auto.
Qed.

Lemma walked_visited (features : list Feature) (position : list Qc) :
  In position (flat_map walked features) <-> visited features position.
Proof.
  rewrite in_flat_map. unfold walked, visited. split.
  - intros (feature & Hf & Hp).
    destruct (geometry feature) as [[kind coordinates|]|] eqn:E; try contradiction.
    exists feature, kind, coordinates. auto.
  - intros (feature & kind & coordinates & Hf & Hg & Hp).
    exists feature. rewrite Hg. auto.
Qed.

Lemma in_lngs (features : list Feature) (x : Qc) :
  In x (lngs features)
  <-> exists position, visited features position /\ In x (lng_of position).
Proof.
  unfold lngs. rewrite in_flat_map.
  split; intros (position & Hp & Hx); exists position; split; auto;
    now apply walked_visited.
Qed.

Lemma in_lats (features : list Feature) (y : Qc) :
  In y (lats features)
  <-> exists position, visited features position /\ In y (lat_of position).
Proof.
  unfold lats. rewrite in_flat_map.
  split; intros (position & Hp & Hy); exists position; split; auto;
    now apply walked_visited.
Qed.

Lemma within (lo hi x : Qc) :
  (lo <= x)%Qc -> (x <= hi)%Qc ->
  js_lt (Fin x) (Fin lo) = false /\ js_gt (Fin x) (Fin hi) = false.
Proof.
  intros Hlo Hhi. unfold js_gt, js_lt. split; apply Qcltb_ge; assumption.
Qed.

End FitFacts.

(** X18. When the effect requests a fit, west lies strictly below east
    and south strictly below north, each side of the box is the
    longitude or latitude of a position the walk visits, and no visited
    position lies outside the box.  The walk visits the positions of the
    matching features whose geometry carries coordinates; a matching
    feature whose geometry is missing or a geometry collection is
    skipped, and the box says nothing about its positions. *)
Theorem fit_box_contains_positions (stateList : list FitBounds.StateEntry)
    (filter : string) (geojson : option GeoJSON.FeatureCollection)
    (southWest northEast : num * num) (padding maxZoom : Z) :
  FitBounds.fitEffect stateList true (Some filter) geojson
  = Some (FitBounds.fitBounds southWest northEast padding maxZoom) ->
  exists (stateEntry : FitBounds.StateEntry) (collection : GeoJSON.FeatureCollection),
    BoundingBox.resolve stateList filter = Some stateEntry /\
    geojson = Some collection /\
    let matching :=
      BoundingBox.in_region (FitBounds.fips stateEntry) (GeoJSON.features collection) in
    let side (pick : list Qc -> list Qc) (bound : num) :=
      exists position x,
        BoundingBox.visited matching position /\ In x (pick position) /\ bound = Fin x in
    js_lt (fst southWest) (fst northEast) = true /\
    js_lt (snd southWest) (snd northEast) = true /\
    side BoundingBox.lng_of (fst southWest) /\ side BoundingBox.lng_of (fst northEast) /\
    side BoundingBox.lat_of (snd southWest) /\ side BoundingBox.lat_of (snd northEast) /\
    forall position,
      BoundingBox.visited matching position ->
      (forall lng, In lng (BoundingBox.lng_of position) ->
         js_lt (Fin lng) (fst southWest) = false /\
         js_gt (Fin lng) (fst northEast) = false) /\
      (forall lat, In lat (BoundingBox.lat_of position) ->
         js_lt (Fin lat) (snd southWest) = false /\
         js_gt (Fin lat) (snd northEast) = false).
Proof.
  intros Hfit.
  destruct (FitFacts.fitEffect_fit_inv _ _ _ _ _ _ _ Hfit)
    as (stateEntry & collection & Hres & Hgeo & [Hlng Hlat] & Hsw & Hne).
  cbn [BoundingBox.bounding_box BoundingBox.box_from FitBounds.minLng FitBounds.maxLng
       FitBounds.minLat FitBounds.maxLat] in Hlng, Hlat, Hsw, Hne.
  destruct (FitFacts.strict_range _ Hlng) as (west & east & Hw & He & Hwl & Heg & Hwe).
  destruct (FitFacts.strict_range _ Hlat) as (south & north & Hs & Hn & Hsl & Hng & Hsn).
  exists stateEntry, collection.
  rewrite Hw, Hs in Hsw. rewrite He, Hn in Hne. subst southWest northEast.
  split; [exact Hres|]. split; [exact Hgeo|]. cbn [fst snd].
  split; [apply Qcltb_lt; exact Hwe|]. split; [apply Qcltb_lt; exact Hsn|].
  split.
  { destruct Hwl as [Hin _]. apply FitFacts.in_lngs in Hin.
    destruct Hin as (position & Hv & Hx). exists position, west. auto. }
  split.
  { destruct Heg as [Hin _]. apply FitFacts.in_lngs in Hin.
    destruct Hin as (position & Hv & Hx). exists position, east. auto. }
  split.
  { destruct Hsl as [Hin _]. apply FitFacts.in_lats in Hin.
    destruct Hin as (position & Hv & Hx). exists position, south. auto. }
  split.
  { destruct Hng as [Hin _]. apply FitFacts.in_lats in Hin.
    destruct Hin as (position & Hv & Hx). exists position, north. auto. }
  intros position Hv. split.
  - intros lng Hin.
    assert (Hmem : In lng (BoundingBox.lngs
                     (BoundingBox.in_region (FitBounds.fips stateEntry)
                        (GeoJSON.features collection))))
      by (apply FitFacts.in_lngs; exists position; auto).
    apply FitFacts.within; [apply Hwl, Hmem|apply Heg, Hmem].
  - intros lat Hin.
    assert (Hmem : In lat (BoundingBox.lats
                     (BoundingBox.in_region (FitBounds.fips stateEntry)
                        (GeoJSON.features collection))))
      by (apply FitFacts.in_lats; exists position; auto).
    apply FitFacts.within; [apply Hsl, Hmem|apply Hng, Hmem].
Qed.

Lemma fit_box_contains_positions_witness :
  exists (stateEntry : FitBounds.StateEntry) (collection : GeoJSON.FeatureCollection),
    BoundingBox.resolve sample_stateList "TX" = Some stateEntry /\
    Some sample_collection = Some collection /\
    let southWest := (Fin (Q2Qc (-959 # 10)), Fin (Q2Qc (295 # 10))) in
    let northEast := (Fin (Q2Qc (-949 # 10)), Fin (Q2Qc (302 # 10))) in
    let matching :=
      BoundingBox.in_region (FitBounds.fips stateEntry) (GeoJSON.features collection) in
    let side (pick : list Qc -> list Qc) (bound : num) :=
      exists position x,
        BoundingBox.visited matching position /\ In x (pick position) /\ bound = Fin x in
    js_lt (fst southWest) (fst northEast) = true /\
    js_lt (snd southWest) (snd northEast) = true /\
    side BoundingBox.lng_of (fst southWest) /\ side BoundingBox.lng_of (fst northEast) /\
    side BoundingBox.lat_of (snd southWest) /\ side BoundingBox.lat_of (snd northEast) /\
    forall position,
      BoundingBox.visited matching position ->
      (forall lng, In lng (BoundingBox.lng_of position) ->
         js_lt (Fin lng) (fst southWest) = false /\
         js_gt (Fin lng) (fst northEast) = false) /\
      (forall lat, In lat (BoundingBox.lat_of position) ->
         js_lt (Fin lat) (snd southWest) = false /\
         js_gt (Fin lat) (snd northEast) = false).
Proof.
  apply (fit_box_contains_positions sample_stateList "TX" (Some sample_collection)
           (Fin (Q2Qc (-959 # 10)), Fin (Q2Qc (295 # 10)))
           (Fin (Q2Qc (-949 # 10)), Fin (Q2Qc (302 # 10))) 40 10).
  vm_compute. reflexivity.
Defined.

(** A matching feature with a geometry collection does not move the
    box: the point (50, 50) of [scattered_feature] lies outside the box
    that is requested. *)
Example collection_positions_not_covered :
  FitBounds.fitEffect sample_stateList true (Some "TX")
    (Some {| GeoJSON.features := [harris_feature; scattered_feature] |})
  = FitBounds.fitEffect sample_stateList true (Some "TX") (Some sample_collection)
  /\ js_gt (Fin (Q2Qc 50)) (Fin (Q2Qc (-949 # 10))) = true.
Proof. split; vm_compute; reflexivity. Qed.

(** X19. The box the walk computes for a coordinate array depends only
    on the positions it contains, not on how deeply or in which order
    they are nested: two coordinate arrays with the same positions give
    the same box, from any box over numbers seen before. *)
Theorem walk_depends_on_positions (c1 c2 : GeoJSON.Coordinates) (lngs lats : list Qc) :
  (forall position, In position (BoundingBox.positions c1)
                    <-> In position (BoundingBox.positions c2)) ->
  FitBounds.walk [c1] (BoundingBox.box_from lngs lats)
  = FitBounds.walk [c2] (BoundingBox.box_from lngs lats).
Proof.
  intros Hsame.
  destruct (BoundingBoxFacts.walk_box_from [c1] _ lngs lats eq_refl)
    as (xs1 & ys1 & -> & Hx1 & Hy1).
  destruct (BoundingBoxFacts.walk_box_from [c2] _ lngs lats eq_refl)
    as (xs2 & ys2 & -> & Hx2 & Hy2).
  assert (Hpick : forall pick z,
            In z (BoundingBoxFacts.on_stack pick [c1])
            <-> In z (BoundingBoxFacts.on_stack pick [c2])).
  { intros pick z. unfold BoundingBoxFacts.on_stack. simpl. rewrite !app_nil_r.
    rewrite !in_flat_map. split; intros (p & Hp & Hz); exists p; split; auto;
      now apply Hsame. }
  apply BoundingBoxFacts.box_from_ext.
  - intros x. rewrite Hx1, Hx2, (Hpick BoundingBox.lng_of). reflexivity.
  - intros y. rewrite Hy1, Hy2, (Hpick BoundingBox.lat_of). reflexivity.
Qed.

Lemma walk_depends_on_positions_witness :
  FitBounds.walk
    [GeoJSON.Nested [GeoJSON.Position [Q2Qc 1; Q2Qc 2];
                     GeoJSON.Nested [GeoJSON.Position [Q2Qc 3; Q2Qc 4]]]]
    (BoundingBox.box_from [] [])
  = FitBounds.walk
      [GeoJSON.Nested [GeoJSON.Nested [GeoJSON.Nested [GeoJSON.Position [Q2Qc 3; Q2Qc 4]];
                                       GeoJSON.Position [Q2Qc 1; Q2Qc 2]]]]
      (BoundingBox.box_from [] []).
Proof.
  apply walk_depends_on_positions.
  intros position. simpl. tauto.
Defined.

(** ** Loading the geometry *)

Module LayerFacts.
Import ChoroplethLayer.
Section Engine.
Variable Engine : Type.
Variable getSource : Engine -> string -> bool.
Variable addSource : Engine -> string -> JSON -> Engine * bool.
Variable addLayer : Engine -> Layer -> Engine * bool.

Local Abbreviation add := (addSourceAndLayers Engine addSource addLayer).
Local Abbreviation settled := (geojsonSettled Engine addSource addLayer).
Local Abbreviation effect := (loadEffect Engine getSource addSource addLayer).

Lemma find_cleanup (n : nat) (v : View Engine) :
  match List.find (fun r => Nat.eqb (fst r) n) (inflight Engine (cleanup Engine v)) with
  | Some (_, cancelled) => cancelled = true
  | None => True
  end.
Proof.
  simpl. induction (inflight Engine v) as [|[m c] l IH]; simpl; [exact I|].
  destruct (Nat.eqb m n); [reflexivity|exact IH].
Qed.

Lemma settled_live (n m : nat) (r : Response) (v : View Engine) :
  List.find (fun r => Nat.eqb (fst r) n) (inflight Engine v) = Some (m, false) ->
  settled n r v =
  match r with
  | Failure => set_status Engine error (loadedRef Engine v) (without_request Engine n v)
  | Parsed geojson =>
      match validateGeoJSON geojson with
      | Returns true =>
          if snd (add (map Engine v) geojson) then
            {| map := fst (add (map Engine v) geojson); geojsonStatus := loaded;
               geojsonRef := Some geojson; loadedRef := true;
               requests := requests Engine v;
               inflight := inflight Engine (without_request Engine n v) |}
          else set_status Engine error (loadedRef Engine v)
                 (set_map Engine (fst (add (map Engine v) geojson))
                    (without_request Engine n v))
      | _ => set_status Engine error (loadedRef Engine v) (without_request Engine n v)
      end
  end.
Proof.
  intros Hfind. unfold geojsonSettled. rewrite Hfind.
  destruct r as [geojson|]; [|reflexivity].
  destruct (validateGeoJSON geojson) as [[|]|]; try reflexivity.
  cbn [map without_request]. destruct (add (map Engine v) geojson) as [engine returned].
  destruct returned; reflexivity.
Qed.

Lemma find_old_request (n : nat) (mapPresent : bool) (v : View Engine) :
  n <> requests Engine v ->
  match List.find (fun r => Nat.eqb (fst r) n) (inflight Engine (effect mapPresent v)) with
  | Some (_, cancelled) => cancelled = true
  | None => True
  end.
Proof.
  intros Hn.
  assert (Happ : match List.find (fun r => Nat.eqb (fst r) n)
                         (inflight Engine (cleanup Engine v) ++ [(requests Engine v, false)]) with
                 | Some (_, cancelled) => cancelled = true
                 | None => True
                 end).
  { simpl. induction (inflight Engine v) as [|[m c] l IH]; simpl.
    - destruct (Nat.eqb (requests Engine v) n) eqn:E; [|exact I].
      apply Nat.eqb_eq in E. congruence.
    - destruct (Nat.eqb m n); [reflexivity|exact IH]. }
  pose proof (find_cleanup n v) as Hclean.
  unfold loadEffect, loadEffectBody.
  destruct mapPresent; cbn [negb]; [|exact Hclean].
  destruct (geojsonStatus Engine (cleanup Engine v)); try exact Hclean.
  destruct (getSource (map Engine (cleanup Engine v)) SOURCE_ID); [exact Hclean|].
  destruct (geojsonRef Engine (cleanup Engine v)) as [cached|]; [|exact Happ].
  destruct (add (map Engine (cleanup Engine v)) cached) as [engine returned].
  destruct returned; [exact Hclean|exact Happ].
Qed.

Lemma settled_cancelled (n : nat) (r : Response) (v : View Engine) :
  match List.find (fun r => Nat.eqb (fst r) n) (inflight Engine v) with
  | Some (_, cancelled) => cancelled = true
  | None => True
  end ->
  let v' := settled n r v in
  map Engine v' = map Engine v /\
  geojsonStatus Engine v' = geojsonStatus Engine v /\
  geojsonRef Engine v' = geojsonRef Engine v /\
  loadedRef Engine v' = loadedRef Engine v /\
  requests Engine v' = requests Engine v.
Proof.
  intros Hfind. unfold geojsonSettled.
  destruct (List.find (fun r => Nat.eqb (fst r) n) (inflight Engine v)) as [[m c]|].
  - subst c. destruct r; repeat split.
  - repeat split.
Qed.

End Engine.
End LayerFacts.

(** X20. When the answer to a geometry request that was not cancelled
    arrives, the status becomes loaded exactly when the answer is a
    parsed payload that the validator accepts and the engine takes the
    source and both layers; in every other case it becomes error.  On
    success the payload is cached and the engine is the one with source
    and layers added; a payload the validator does not accept (or on
    which it throws) never reaches the engine, and nothing is cached
    unless the load succeeded. *)
Theorem geometry_load_outcome (Engine : Type)
    (addSource : Engine -> string -> JSON -> Engine * bool)
    (addLayer : Engine -> ChoroplethLayer.Layer -> Engine * bool)
    (v : ChoroplethLayer.View Engine) (n m : nat) (r : ChoroplethLayer.Response) :
  List.find (fun r => Nat.eqb (fst r) n) (ChoroplethLayer.inflight Engine v)
  = Some (m, false) ->
  let v' := ChoroplethLayer.geojsonSettled Engine addSource addLayer n r v in
  let accepted body :=
    r = ChoroplethLayer.Parsed body /\ validateGeoJSON body = Returns true /\
    snd (ChoroplethLayer.addSourceAndLayers Engine addSource addLayer
           (ChoroplethLayer.map Engine v) body) = true in
  ((exists body, accepted body) ->
   ChoroplethLayer.geojsonStatus Engine v' = ChoroplethLayer.loaded) /\
  (~ (exists body, accepted body) ->
   ChoroplethLayer.geojsonStatus Engine v' = ChoroplethLayer.error /\
   ChoroplethLayer.geojsonRef Engine v' = ChoroplethLayer.geojsonRef Engine v /\
   ChoroplethLayer.loadedRef Engine v' = ChoroplethLayer.loadedRef Engine v) /\
  (forall body, accepted body ->
     ChoroplethLayer.geojsonRef Engine v' = Some body /\
     ChoroplethLayer.loadedRef Engine v' = true /\
     ChoroplethLayer.map Engine v'
     = fst (ChoroplethLayer.addSourceAndLayers Engine addSource addLayer
              (ChoroplethLayer.map Engine v) body)) /\
  (forall body, r = ChoroplethLayer.Parsed body ->
     validateGeoJSON body <> Returns true ->
     ChoroplethLayer.map Engine v' = ChoroplethLayer.map Engine v).
Proof.
  intros Hfind v' accepted. unfold v'.
  rewrite (LayerFacts.settled_live Engine addSource addLayer n m r v Hfind).
  destruct r as [geojson|].
  - destruct (validateGeoJSON geojson) as [[|]|] eqn:Ev.
    + destruct (snd (ChoroplethLayer.addSourceAndLayers Engine addSource addLayer
                       (ChoroplethLayer.map Engine v) geojson)) eqn:Ea.
      * split; [reflexivity|]. split.
        { intros Hno. exfalso. apply Hno. exists geojson. repeat split; assumption. }
        split.
        { intros body (Hb & _). inversion Hb; subst. repeat split. }
        { intros body Hb Hbad. inversion Hb; subst. congruence. }
      * split.
        { intros (body & Hb & _ & Hs). inversion Hb; subst. congruence. }
        split; [intros _; repeat split|]. split.
        { intros body (Hb & _ & Hs). inversion Hb; subst. congruence. }
        { intros body Hb Hbad. inversion Hb; subst. congruence. }
    + split.
      { intros (body & Hb & Hval & _). inversion Hb; subst. congruence. }
      split; [intros _; repeat split|]. split.
      { intros body (Hb & Hval & _). inversion Hb; subst. congruence. }
      { intros body Hb Hbad. reflexivity. }
    + split.
      { intros (body & Hb & Hval & _). inversion Hb; subst. congruence. }
      split; [intros _; repeat split|]. split.
      { intros body (Hb & Hval & _). inversion Hb; subst. congruence. }
      { intros body Hb Hbad. reflexivity. }
  - split.
    { intros (body & Hb & _). discriminate. }
    split; [intros _; repeat split|]. split.
    { intros body (Hb & _). discriminate. }
    { intros body Hb. discriminate. }
Qed.

Lemma geometry_load_outcome_witness :
  let v' := ChoroplethLayer.geojsonSettled (list string) ChoroplethLayer.ids_addSource
              ChoroplethLayer.ids_addLayer 0 (ChoroplethLayer.Parsed counties_payload)
              requesting_view in
  ChoroplethLayer.geojsonStatus _ v' = ChoroplethLayer.loaded /\
  ChoroplethLayer.geojsonRef _ v' = Some counties_payload /\
  ChoroplethLayer.map _ v' = ["county-line"; "county-fill"; "counties"].
Proof.
  pose proof (geometry_load_outcome (list string) ChoroplethLayer.ids_addSource
                ChoroplethLayer.ids_addLayer requesting_view 0 0
                (ChoroplethLayer.Parsed counties_payload) eq_refl) as (Hloaded & _ & Hcached & _).
  assert (Hacc : ChoroplethLayer.Parsed counties_payload = ChoroplethLayer.Parsed counties_payload /\
                 validateGeoJSON counties_payload = Returns true /\
                 snd (ChoroplethLayer.addSourceAndLayers (list string)
                        ChoroplethLayer.ids_addSource ChoroplethLayer.ids_addLayer
                        (ChoroplethLayer.map _ requesting_view) counties_payload) = true)
    by (repeat split; reflexivity).
  split; [apply Hloaded; exists counties_payload; exact Hacc|].
  destruct (Hcached counties_payload Hacc) as (Href & _ & Hmap).
  split; [exact Href|]. rewrite Hmap. reflexivity.
Defined.

(** X21. After the geometry has been loaded, a style switch does not go
    back to the network when the engine takes the geometry again: the
    effect that runs on the restyled engine re-attaches the cached
    payload (or finds the source already there), sets the status to
    loaded and makes no request.  Only when the engine throws on the
    cached payload is a new request made, and the status stays loading
    until it is answered. *)
Theorem restyle_reuses_cached_geometry (Engine : Type)
    (getSource : Engine -> string -> bool)
    (addSource : Engine -> string -> JSON -> Engine * bool)
    (addLayer : Engine -> ChoroplethLayer.Layer -> Engine * bool)
    (v : ChoroplethLayer.View Engine) (n m : nat) (body : JSON) (engine' : Engine) :
  List.find (fun r => Nat.eqb (fst r) n) (ChoroplethLayer.inflight Engine v)
  = Some (m, false) ->
  validateGeoJSON body = Returns true ->
  snd (ChoroplethLayer.addSourceAndLayers Engine addSource addLayer
         (ChoroplethLayer.map Engine v) body) = true ->
  let v1 := ChoroplethLayer.geojsonSettled Engine addSource addLayer n
              (ChoroplethLayer.Parsed body) v in
  let v2 := ChoroplethLayer.loadEffect Engine getSource addSource addLayer true
              (ChoroplethLayer.restyled Engine engine' v1) in
  let attached := ChoroplethLayer.addSourceAndLayers Engine addSource addLayer engine' body in
  ChoroplethLayer.geojsonRef Engine v2 = Some body /\
  (getSource engine' ChoroplethLayer.SOURCE_ID = true ->
   ChoroplethLayer.geojsonStatus Engine v2 = ChoroplethLayer.loaded /\
   ChoroplethLayer.loadedRef Engine v2 = true /\
   ChoroplethLayer.map Engine v2 = engine' /\
   ChoroplethLayer.requests Engine v2 = ChoroplethLayer.requests Engine v) /\
  (getSource engine' ChoroplethLayer.SOURCE_ID = false -> snd attached = true ->
   ChoroplethLayer.geojsonStatus Engine v2 = ChoroplethLayer.loaded /\
   ChoroplethLayer.loadedRef Engine v2 = true /\
   ChoroplethLayer.map Engine v2 = fst attached /\
   ChoroplethLayer.requests Engine v2 = ChoroplethLayer.requests Engine v) /\
  (getSource engine' ChoroplethLayer.SOURCE_ID = false -> snd attached = false ->
   ChoroplethLayer.geojsonStatus Engine v2 = ChoroplethLayer.loading /\
   ChoroplethLayer.map Engine v2 = fst attached /\
   ChoroplethLayer.requests Engine v2 = S (ChoroplethLayer.requests Engine v) /\
   In (ChoroplethLayer.requests Engine v, false) (ChoroplethLayer.inflight Engine v2)).
Proof.
  intros Hfind Hvalid Hadd v1 v2 attached. unfold v2, v1, attached.
  rewrite (LayerFacts.settled_live Engine addSource addLayer n m _ v Hfind).
  rewrite Hvalid, Hadd.
  unfold ChoroplethLayer.loadEffect, ChoroplethLayer.loadEffectBody.
  cbn [negb ChoroplethLayer.restyled ChoroplethLayer.cleanup ChoroplethLayer.map
       ChoroplethLayer.geojsonStatus ChoroplethLayer.geojsonRef
       ChoroplethLayer.loadedRef ChoroplethLayer.requests ChoroplethLayer.inflight
       ChoroplethLayer.without_request].
  destruct (getSource engine' ChoroplethLayer.SOURCE_ID) eqn:Es.
  - split; [reflexivity|]. split; [intros _; repeat split|].
    split; intros; discriminate.
  - destruct (ChoroplethLayer.addSourceAndLayers Engine addSource addLayer engine' body)
      as [engine returned] eqn:Ea.
    destruct returned; cbn [fst snd].
    + split; [reflexivity|]. split; [intros; discriminate|].
      split; [intros _ _; repeat split|intros; discriminate].
    + split; [reflexivity|]. split; [intros; discriminate|].
      split; [intros; discriminate|]. intros _ _.
      cbn [ChoroplethLayer.start_request ChoroplethLayer.set_map ChoroplethLayer.map
           ChoroplethLayer.geojsonStatus ChoroplethLayer.requests ChoroplethLayer.inflight].
      repeat split. apply in_or_app. right. left. reflexivity.
Qed.

Lemma restyle_reuses_cached_geometry_witness :
  let v1 := ChoroplethLayer.geojsonSettled (list string) ChoroplethLayer.ids_addSource
              ChoroplethLayer.ids_addLayer 0 (ChoroplethLayer.Parsed counties_payload)
              requesting_view in
  let v2 := ChoroplethLayer.loadEffect (list string) ChoroplethLayer.ids_getSource
              ChoroplethLayer.ids_addSource ChoroplethLayer.ids_addLayer true
              (ChoroplethLayer.restyled (list string) [] v1) in
  ChoroplethLayer.geojsonStatus _ v2 = ChoroplethLayer.loaded /\
  ChoroplethLayer.map _ v2 = ["county-line"; "county-fill"; "counties"] /\
  ChoroplethLayer.requests _ v2 = 1.
Proof.
  pose proof (restyle_reuses_cached_geometry (list string) ChoroplethLayer.ids_getSource
                ChoroplethLayer.ids_addSource ChoroplethLayer.ids_addLayer
                requesting_view 0 0 counties_payload [] eq_refl eq_refl eq_refl)
    as (_ & _ & Hattach & _).
  destruct (Hattach eq_refl eq_refl) as (Hs & _ & Hm & Hr).
  split; [exact Hs|]. split; [exact Hm|exact Hr].
Defined.

(** X22. An answer to a geometry request made before the latest run of
    the load effect changes nothing: whatever the answer is, the engine,
    the status, the cached geometry and the ref stay as that run left
    them, and no request is made. *)
Theorem superseded_geometry_answer_ignored (Engine : Type)
    (getSource : Engine -> string -> bool)
    (addSource : Engine -> string -> JSON -> Engine * bool)
    (addLayer : Engine -> ChoroplethLayer.Layer -> Engine * bool)
    (v : ChoroplethLayer.View Engine) (mapPresent : bool) (n : nat)
    (r : ChoroplethLayer.Response) :
  n < ChoroplethLayer.requests Engine v ->
  let v2 := ChoroplethLayer.loadEffect Engine getSource addSource addLayer mapPresent v in
  let v3 := ChoroplethLayer.geojsonSettled Engine addSource addLayer n r v2 in
  ChoroplethLayer.map Engine v3 = ChoroplethLayer.map Engine v2 /\
  ChoroplethLayer.geojsonStatus Engine v3 = ChoroplethLayer.geojsonStatus Engine v2 /\
  ChoroplethLayer.geojsonRef Engine v3 = ChoroplethLayer.geojsonRef Engine v2 /\
  ChoroplethLayer.loadedRef Engine v3 = ChoroplethLayer.loadedRef Engine v2 /\
  ChoroplethLayer.requests Engine v3 = ChoroplethLayer.requests Engine v2.
Proof.
  intros Hn v2 v3. apply LayerFacts.settled_cancelled.
  apply LayerFacts.find_old_request. lia.
Qed.

Lemma superseded_geometry_answer_ignored_witness :
  let v2 := ChoroplethLayer.loadEffect (list string) ChoroplethLayer.ids_getSource
              ChoroplethLayer.ids_addSource ChoroplethLayer.ids_addLayer true
              requesting_view in
  let v3 := ChoroplethLayer.geojsonSettled (list string) ChoroplethLayer.ids_addSource
              ChoroplethLayer.ids_addLayer 0 (ChoroplethLayer.Parsed counties_payload) v2 in
  ChoroplethLayer.map _ v3 = [] /\
  ChoroplethLayer.geojsonStatus _ v3 = ChoroplethLayer.loading /\
  ChoroplethLayer.geojsonRef _ v3 = None.
Proof.
  pose proof (superseded_geometry_answer_ignored (list string) ChoroplethLayer.ids_getSource
                ChoroplethLayer.ids_addSource ChoroplethLayer.ids_addLayer
                requesting_view true 0 (ChoroplethLayer.Parsed counties_payload))
    as H.
  destruct (H ltac:(cbn; lia)) as (Hm & Hs & Hr & _).
  split; [rewrite Hm; reflexivity|]. split; [rewrite Hs; reflexivity|rewrite Hr; reflexivity].
Defined.
